(** * pyclj: a Clojure-literal codec (clj.py)

    A shallow embedding of [clj.py]: the stream it reads and writes, the
    decoder [CljDecoder] with its stack of open frames, the encoder
    [CljEncoder] with its identity-keyed [circular] table, the numeric literal
    parser [number] and the escape resolver [_decode_escapes]; followed by the
    properties of the codec that are established on this embedding. *)

From Stdlib Require Import ZArith NArith List Lia Bool String Ascii.
From Stdlib Require Import DecimalString DecimalZ DecimalPos DecimalN.
From stdpp Require Import base option list gmap.

Local Open Scope N_scope.
Set Warnings "-register-all".

(** ** Text

    A Python [str] is a sequence of Unicode code points. *)

Abbreviation codepoint := N (only parsing).
Abbreviation str := (list N) (only parsing).

(** [py "abc"] is the Python string written with the same ASCII characters. *)
Definition py (s : string) : str := map N_of_ascii (list_ascii_of_string s).
Arguments py s%_string.

Definition DQUOTE : codepoint := 34.
Definition BACKSLASH : codepoint := 92.
Definition NEWLINE : codepoint := 10.

(** [a == b] on strings. *)
Definition str_eqb (a b : str) : bool := bool_decide (a = b).
(** [c in chars] for a list of strings. *)
Definition str_in (c : str) (chars : list str) : bool := existsb (str_eqb c) chars.
(** [sep.join(buf)] with the empty separator. *)
Definition join (buf : list str) : str := concat buf.
(** [buf[:-1]] *)
Definition drop_last {A} (l : list A) : list A := removelast l.
(** [v.endswith("M")] *)
Definition endswith1 (v : str) (c : codepoint) : bool :=
  match last v with Some x => N.eqb x c | None => false end.

Definition is_ascii_digit (c : codepoint) : bool := (48 <=? c) && (c <=? 57).

(** Hexadecimal digits: the test and the value of a digit, the number that
    a run of digits writes (as [int(digits, 16)] reads it), and the digit
    of a value below 16, in lower case. *)
Definition is_hex_digit (c : codepoint) : bool :=
  is_ascii_digit c || ((97 <=? c) && (c <=? 102)) || ((65 <=? c) && (c <=? 70)).
Definition hex_value (c : codepoint) : N :=
  if is_ascii_digit c then c - 48
  else if (97 <=? c) && (c <=? 102) then c - 87
  else c - 55.
Definition hex_number (digits : str) : N := foldl (fun acc c => 16 * acc + hex_value c) 0 digits.
Definition hex_digit (d : N) : codepoint := if d <? 10 then 48 + d else 87 + d.

(** ['{0:04x}'.format(n)], for [n < 0x10000]. *)
Definition format_04x (n : N) : str :=
  [hex_digit (n / 4096 mod 16); hex_digit (n / 256 mod 16);
   hex_digit (n / 16 mod 16); hex_digit (n mod 16)].

(** ** Identifiers

    A [uuid.UUID] is its 128-bit integer [int]; two identifiers are equal
    when their integers are. *)
Definition UUID : Type := N.
Definition UUID_eqb (u v : UUID) : bool := N.eqb u v.

(** [str(u)]: the 32 hexadecimal digits of ['%032x' % u.int], with hyphens
    after the digits 8, 12, 16 and 20. *)
Definition uuid_group (u : UUID) (i : N) : str := format_04x ((u / 65536 ^ i) mod 65536).
Definition str_of_UUID (u : UUID) : str :=
  uuid_group u 7 ++ uuid_group u 6 ++ py "-" ++ uuid_group u 5 ++ py "-"
  ++ uuid_group u 4 ++ py "-" ++ uuid_group u 3 ++ py "-"
  ++ uuid_group u 2 ++ uuid_group u 1 ++ uuid_group u 0.

(** ** The run-time outside the repository

    [clj.py] calls into the Python run-time and into the libraries
    [decimal] and [pyrfc3339], whose code is not part of the repository.
    Their values are kept abstract and their functions are fields of
    [Runtime]; every definition and theorem below is parametric in it.  A
    conversion that raises in Python returns [None] here. *)

Class Runtime := {
  (** binary floating point: [float(v)] and [str(d)] *)
  pyfloat : Type;
  float_of_str : str -> option pyfloat;
  str_of_float : pyfloat -> str;
  (** [decimal.Decimal(v)] and [str(d)] *)
  Decimal : Type;
  Decimal_of_str : str -> option Decimal;
  str_of_Decimal : Decimal -> str;
  (** [pyrfc3339.parse], [pyrfc3339.generate], [d.tzinfo] being unset and
      [d.replace(tzinfo=pytz.utc)] *)
  datetime : Type;
  pyrfc3339_parse : str -> option datetime;
  pyrfc3339_generate : datetime -> str;
  tzinfo_unset : datetime -> bool;
  replace_tzinfo_utc : datetime -> datetime;
  str_of_datetime : datetime -> str;
  repr_of_datetime : datetime -> str;
  (** [uuid.UUID(s)] on a text that is not made of hexadecimal digits and
      hyphens only (braces, a [urn:uuid:] prefix, signs, spaces) *)
  uuid_parse_irregular : str -> option UUID;
  (** the Unicode character database: [\N{name}] look-up, [c.isdigit()] and
      the decimal value [int] gives to a digit, for code points outside ASCII *)
  unicodedata_lookup : str -> option codepoint;
  unicode_isdigit : codepoint -> bool;
  unicode_decimal : codepoint -> option N;
  (** [repr] of a string *)
  repr_of_str : str -> str;
  (** the order in which a [set] iterates over its members, which depends on
      their hashes: the members are given by their [repr], in the order in
      which they were added *)
  set_iteration_order : list str -> list str;
  (** [==] (with equal hashes) between the numeric and library values, as
      [set] and [dict] use it *)
  float_eqb : pyfloat -> pyfloat -> bool;
  float_eq_int : pyfloat -> Z -> bool;
  Decimal_eqb : Decimal -> Decimal -> bool;
  Decimal_eq_int : Decimal -> Z -> bool;
  Decimal_eq_float : Decimal -> pyfloat -> bool;
  datetime_eqb : datetime -> datetime -> bool
}.

(** CPython keeps an integer [n] from 0 to 7 in slot [n] of the table of a
    set, which has 8 slots or more: a set of such integers iterates in
    increasing order.  For other members the order depends on hashes that
    vary from one run to the next; they are left in the order given. *)
Fixpoint insert_by_code (r : str) (l : list str) : list str :=
  match l with
  | [] => [r]
  | x :: l' =>
      if default 0 (head r) <=? default 0 (head x) then r :: l
      else x :: insert_by_code r l'
  end.
Definition small_int_order (reprs : list str) : list str :=
  if forallb (fun r => match r with
                       | [c] => (48 <=? c) && (c <=? 55)
                       | _ => false
                       end) reprs
  then foldr insert_by_code [] reprs
  else reprs.

(** A run-time in which no float, decimal or timestamp exists: it serves to
    evaluate the codec on texts that mention none of them. *)
#[export] Instance bare_runtime : Runtime := {|
  pyfloat := Empty_set;
  float_of_str := fun _ => None;
  str_of_float := fun f => match f with end;
  Decimal := Empty_set;
  Decimal_of_str := fun _ => None;
  str_of_Decimal := fun d => match d with end;
  datetime := Empty_set;
  pyrfc3339_parse := fun _ => None;
  pyrfc3339_generate := fun d => match d with end;
  tzinfo_unset := fun d => match d with end;
  replace_tzinfo_utc := fun d => d;
  str_of_datetime := fun d => match d with end;
  repr_of_datetime := fun d => match d with end;
  uuid_parse_irregular := fun _ => None;
  unicodedata_lookup := fun _ => None;
  unicode_isdigit := fun _ => false;
  unicode_decimal := fun _ => None;
  repr_of_str := fun s => py "'" ++ s ++ py "'";
  set_iteration_order := small_int_order;
  float_eqb := fun f _ => match f with end;
  float_eq_int := fun f _ => match f with end;
  Decimal_eqb := fun d _ => match d with end;
  Decimal_eq_int := fun d _ => match d with end;
  Decimal_eq_float := fun d _ => match d with end;
  datetime_eqb := fun d _ => match d with end
|}.

(** A run-time with a few values of the libraries, each with the text the
    library writes for it and the value the library reads from that text:
    the floats 1.5 and infinity, the decimals 1.0 and NaN, and an instant
    with and without microseconds ([pyrfc3339.generate] drops them).
    Outside these texts the parsers are left undefined. *)
Inductive sample_float := Float_1_5 | Float_inf.
Inductive sample_decimal := Decimal_1_0 | Decimal_NaN.
Inductive sample_datetime := Instant | Instant_micro.

Definition sample_runtime : Runtime := {|
  pyfloat := sample_float;
  float_of_str := fun s =>
    if bool_decide (s = py "1.5") then Some Float_1_5
    else if bool_decide (s = py "inf") then Some Float_inf
    else None;
  str_of_float := fun f => match f with Float_1_5 => py "1.5" | Float_inf => py "inf" end;
  Decimal := sample_decimal;
  Decimal_of_str := fun s =>
    if bool_decide (s = py "1.0") then Some Decimal_1_0
    else if bool_decide (s = py "NaN") then Some Decimal_NaN
    else None;
  str_of_Decimal := fun d => match d with Decimal_1_0 => py "1.0" | Decimal_NaN => py "NaN" end;
  datetime := sample_datetime;
  pyrfc3339_parse := fun s =>
    if bool_decide (s = py "2020-01-02T03:04:05Z") then Some Instant else None;
  pyrfc3339_generate := fun _ => py "2020-01-02T03:04:05Z";
  tzinfo_unset := fun _ => false;
  replace_tzinfo_utc := fun t => t;
  str_of_datetime := fun t =>
    match t with
    | Instant => py "2020-01-02 03:04:05+00:00"
    | Instant_micro => py "2020-01-02 03:04:05.000006+00:00"
    end;
  repr_of_datetime := fun t =>
    match t with
    | Instant => py "datetime.datetime(2020, 1, 2, 3, 4, 5, tzinfo=<UTC>)"
    | Instant_micro => py "datetime.datetime(2020, 1, 2, 3, 4, 5, 6, tzinfo=<UTC>)"
    end;
  uuid_parse_irregular := fun _ => None;
  unicodedata_lookup := fun _ => None;
  unicode_isdigit := fun _ => false;
  unicode_decimal := fun _ => None;
  repr_of_str := fun s => py "'" ++ s ++ py "'";
  set_iteration_order := small_int_order;
  float_eqb := fun f g =>
    match f, g with
    | Float_1_5, Float_1_5 | Float_inf, Float_inf => true
    | _, _ => false
    end;
  float_eq_int := fun _ _ => false;
  Decimal_eqb := fun d e =>
    match d, e with
    | Decimal_1_0, Decimal_1_0 => true
    | _, _ => false
    end;
  Decimal_eq_int := fun d z => match d with Decimal_1_0 => Z.eqb z 1 | Decimal_NaN => false end;
  Decimal_eq_float := fun _ _ => false;
  datetime_eqb := fun t u =>
    match t, u with
    | Instant, Instant | Instant_micro, Instant_micro => true
    | _, _ => false
    end
|}.

(** ** Streams

    [io.StringIO] as a cursor into its contents: the characters before the
    position, nearest first, and the characters from the position on. *)

Record StringIO := mkStringIO { before : str; after : str }.

Definition StringIO_of (s : str) : StringIO := {| before := []; after := s |}.
Definition StringIO_empty : StringIO := StringIO_of [].

(** [fd.read(size)]: at most [size] characters, fewer at the end of the
    contents and the empty string once there. *)
Definition fd_read (size : nat) (fd : StringIO) : str * StringIO :=
  let s := take size (after fd) in
  (s, {| before := rev s ++ before fd; after := drop size (after fd) |}).

(** [fd.write(s)] overwrites from the position on and extends the contents. *)
Definition fd_write (s : str) (fd : StringIO) : StringIO :=
  {| before := rev s ++ before fd; after := drop (length s) (after fd) |}.

Definition fd_tell (fd : StringIO) : nat := length (before fd).
Definition getvalue (fd : StringIO) : str := rev (before fd) ++ after fd.

(** [_seek_back(fd, size)] is [fd.seek(fd.tell() - size, 0)]; [seek] raises
    [ValueError] on a negative position, which is [None] here. *)
Definition _seek_back (fd : StringIO) (size : nat) : option StringIO :=
  if (size <=? fd_tell fd)%nat
  then Some {| before := drop size (before fd);
               after := rev (take size (before fd)) ++ after fd |}
  else None.

(** ** Values and exceptions *)

Section Model.
Context {R : Runtime}.

(** [uuid.UUID(s)]: without its hyphens the text must have 32 characters,
    which [int(hex, 16)] reads ([None]: [ValueError]). *)
Definition UUID_of_str (s : str) : option UUID :=
  if forallb (fun c => is_hex_digit c || (c =? 45)) s then
    let hex := List.filter (fun c => negb (c =? 45)) s in
    if (length hex =? 32)%nat then Some (hex_number hex) else None
  else uuid_parse_irregular s.

(** The scalar kinds of the value model. *)
Inductive scalar :=
| SNone
| SBool (b : bool)
| SInt (z : Z)
| SFloat (f : pyfloat)
| SDecimal (d : Decimal)
| SStr (s : str)
| SDatetime (t : datetime)
| SUUID (u : UUID).

(** What the decoder builds: scalars, [list] (vectors and lists), [tuple]
    (the fall-back of a set), [set] and [dict].  A set lists its members and
    a dict its items in insertion order. *)
Inductive value :=
| Atom (a : scalar)
| VList (l : list value)
| VTuple (l : list value)
| VSet (l : list value)
| VDict (items : list (value * value)).

Inductive exn :=
| ValueError_UnexpectedEOF                                  (* "Unexpected EOF" *)
| ValueError_Expect (want got : str) (line col : nat)       (* "Expect %s, got %s at line %d, col %d" *)
| ValueError_UnexpectedChar (c : str) (line col : nat)      (* "Unexpected char: ... at line %d, col %d" *)
| ValueError_StrExpected (v : value)                        (* "Str expected, but got %s" *)
| ValueError_Circular                                       (* "Circular reference detected" *)
| ValueError_seek                                           (* negative seek position *)
| ValueError_float (v : str)                                (* float(v) *)
| ValueError_parse (s : str)                                (* pyrfc3339.parse(s), uuid.UUID(s) *)
| InvalidOperation (v : str)                                (* decimal.Decimal(v) *)
| UnicodeDecodeError (m : str)                              (* codecs.decode(m, "unicode-escape") *)
| UnicodeEncodeError (m : str)                              (* the same call, on a surrogate *)
| IndexError
| TypeError_unhashable
| NoSuchObject.     (* a reference to no object: not a Python exception, see [closed] *)

(** The line and column an exception's message carries, if any. *)
Definition exn_position (e : exn) : option (nat * nat) :=
  match e with
  | ValueError_Expect _ _ line col => Some (line, col)
  | ValueError_UnexpectedChar _ line col => Some (line, col)
  | _ => None
  end.

(** The outcome of a run: a result, an exception, or a loop bound reached
    (every loop and every recursive call is bounded by a fuel argument). *)
Inductive result (A : Type) :=
| Ok (a : A)
| Raise (e : exn)
| OutOfFuel.
Arguments Ok {A} a.
Arguments Raise {A} e.
Arguments OutOfFuel {A}.

Definition rbind {A B} (m : result A) (f : A -> result B) : result B :=
  match m with
  | Ok a => f a
  | Raise e => Raise e
  | OutOfFuel => OutOfFuel
  end.

(** ** Built-ins: [str.isdigit], [int], [str], [repr], [==], [hash] *)

Definition char_isdigit (c : codepoint) : bool :=
  if c <? 128 then is_ascii_digit c else unicode_isdigit c.

(** [c.isdigit()] *)
Definition isdigit (c : str) : bool :=
  match c with
  | [] => false
  | _ => forallb char_isdigit c
  end.

Definition digit_value (c : codepoint) : option N :=
  if c <? 128 then (if is_ascii_digit c then Some (c - 48) else None)
  else unicode_decimal c.

Definition digit_step (acc : option N) (c : codepoint) : option N :=
  match acc, digit_value c with
  | Some a, Some d => Some (10 * a + d)
  | _, _ => None
  end.

(** The interpreter's limit on the number of digits of a decimal text that
    [int] converts ([sys.int_info.default_max_str_digits]). *)
Definition int_max_str_digits : N := 4300.

Definition py_digits (s : str) : option N :=
  match s with
  | [] => None
  | _ =>
      if N.of_nat (length s) <=? int_max_str_digits
      then foldl digit_step (Some 0) s
      else None
  end.

(** [int(v)] on the texts that reach it, which hold digits and the characters
    of [_EXTRA_NUM_CHARS] only: an optional sign and one or more decimal
    digits, no more than the limit ([None]: [ValueError]). *)
Definition py_int (v : str) : option Z :=
  match v with
  | 45 :: ds => (fun n => (- Z.of_N n)%Z) <$> py_digits ds
  | 43 :: ds => Z.of_N <$> py_digits ds
  | _ => Z.of_N <$> py_digits v
  end.

(** [str(d)] of an integer. *)
Definition str_of_Z (z : Z) : str := py (NilZero.string_of_int (Z.to_int z)).

(** [sep.join(parts)] *)
Fixpoint join_with (sep : str) (parts : list str) : str :=
  match parts with
  | [] => []
  | [p] => p
  | p :: ps => p ++ sep ++ join_with sep ps
  end.

Definition scalar_repr (a : scalar) : str :=
  match a with
  | SNone => py "None"
  | SBool true => py "True"
  | SBool false => py "False"
  | SInt z => str_of_Z z
  | SFloat f => str_of_float f
  | SDecimal d => py "Decimal('" ++ str_of_Decimal d ++ py "')"
  | SStr s => repr_of_str s
  | SDatetime t => repr_of_datetime t
  | SUUID u => py "UUID('" ++ str_of_UUID u ++ py "')"
  end.

(** [repr(v)] *)
Fixpoint py_repr (v : value) : str :=
  match v with
  | Atom a => scalar_repr a
  | VList l => py "[" ++ join_with (py ", ") (map py_repr l) ++ py "]"
  | VTuple l =>
      match l with
      | [x] => py "(" ++ py_repr x ++ py ",)"
      | _ => py "(" ++ join_with (py ", ") (map py_repr l) ++ py ")"
      end
  | VSet l =>
      match l with
      | [] => py "set()"
      | _ => py "{" ++ join_with (py ", ") (set_iteration_order (map py_repr l)) ++ py "}"
      end
  | VDict items =>
      py "{" ++ join_with (py ", ")
                  (map (fun kv => py_repr (fst kv) ++ py ": " ++ py_repr (snd kv)) items)
             ++ py "}"
  end.

(** [str(v)], which is what ["%s" % v] writes. *)
Definition py_str (v : value) : str :=
  match v with
  | Atom (SStr s) => s
  | Atom (SDecimal d) => str_of_Decimal d
  | Atom (SDatetime t) => str_of_datetime t
  | Atom (SUUID u) => str_of_UUID u
  | _ => py_repr v
  end.

(** [hash(v)] succeeds: scalars, and tuples of hashable values. *)
Fixpoint hashable (v : value) : bool :=
  match v with
  | Atom _ => true
  | VTuple l => forallb hashable l
  | VList _ | VSet _ | VDict _ => false
  end.

Definition Z_of_bool (b : bool) : Z := if b then 1%Z else 0%Z.

(** [a == b] between scalars; booleans are the integers 0 and 1. *)
Definition scalar_eqb (a b : scalar) : bool :=
  match a, b with
  | SNone, SNone => true
  | SStr s, SStr t => str_eqb s t
  | SBool x, SBool y => Z.eqb (Z_of_bool x) (Z_of_bool y)
  | SBool x, SInt y => Z.eqb (Z_of_bool x) y
  | SInt x, SBool y => Z.eqb x (Z_of_bool y)
  | SInt x, SInt y => Z.eqb x y
  | SFloat f, SBool y => float_eq_int f (Z_of_bool y)
  | SBool x, SFloat g => float_eq_int g (Z_of_bool x)
  | SFloat f, SInt y => float_eq_int f y
  | SInt x, SFloat g => float_eq_int g x
  | SFloat f, SFloat g => float_eqb f g
  | SDecimal d, SBool y => Decimal_eq_int d (Z_of_bool y)
  | SBool x, SDecimal d => Decimal_eq_int d (Z_of_bool x)
  | SDecimal d, SInt y => Decimal_eq_int d y
  | SInt x, SDecimal d => Decimal_eq_int d x
  | SDecimal d, SFloat g => Decimal_eq_float d g
  | SFloat f, SDecimal d => Decimal_eq_float d f
  | SDecimal d, SDecimal d' => Decimal_eqb d d'
  | SDatetime t, SDatetime t' => datetime_eqb t t'
  | SUUID u, SUUID u' => UUID_eqb u u'
  | _, _ => false
  end.

(** [a == b] between hashable values, the only ones [set] and [dict]
    compare: scalars, and tuples member by member. *)
Fixpoint key_eqb (a b : value) {struct a} : bool :=
  match a, b with
  | Atom x, Atom y => scalar_eqb x y
  | VTuple l, VTuple m =>
      (fix members (l m : list value) {struct l} : bool :=
         match l, m with
         | [], [] => true
         | x :: l', y :: m' => key_eqb x y && members l' m'
         | _, _ => false
         end) l m
  | _, _ => false
  end.

(** [set(scope)] when every member is hashable: a member equal to one
    already present is dropped. *)
Definition set_add (s : list value) (x : value) : list value :=
  if existsb (fun y => key_eqb y x) s then s else s ++ [x].
Definition set_of_list (scope : list value) : list value := foldl set_add [] scope.

(** [v[key] = x]: the value of an equal key is replaced, a new key is added
    last. *)
Fixpoint dict_setitem (items : list (value * value)) (key x : value) : list (value * value) :=
  match items with
  | [] => [(key, x)]
  | (k, y) :: rest =>
      if key_eqb k key then (k, x) :: rest else (k, y) :: dict_setitem rest key x
  end.

(** ** Numeric Literal Parser *)

Definition number (v : str) : result value :=
  if endswith1 v 77 (* "M" *) then
    match Decimal_of_str (drop_last v) with
    | Some d => Ok (Atom (SDecimal d))
    | None => Raise (InvalidOperation (drop_last v))
    end
  else
    match py_int v with
    | Some z => Ok (Atom (SInt z))
    | None =>
        match float_of_str v with
        | Some f => Ok (Atom (SFloat f))
        | None => Raise (ValueError_float v)
        end
    end.

(** ** Escape Resolver *)

Definition is_octal_digit (c : codepoint) : bool := (48 <=? c) && (c <=? 55).

(** The pattern's [.]: any character but a newline. *)
Definition re_dot (c : codepoint) : bool := negb (c =? NEWLINE).

(** [n] times [.] at the head of [s]. *)
Definition re_dots (n : nat) (s : str) : bool :=
  (n <=? length s)%nat && forallb re_dot (take n s).

(** [[0-7]{1,3}], greedy: how many octal digits, at most three, head [s]. *)
Definition re_octal (s : str) : nat :=
  match s with
  | a :: s1 =>
      if is_octal_digit a then
        match s1 with
        | b :: s2 =>
            if is_octal_digit b then
              match s2 with
              | c :: _ => if is_octal_digit c then 3%nat else 2%nat
              | [] => 2%nat
              end
            else 1%nat
        | [] => 1%nat
        end
      else 0%nat
  | [] => 0%nat
  end.

(** [[^}]+\}]: the length of the run of characters other than [}] at the
    head of [s], when it is not empty and a [}] follows it. *)
Fixpoint re_name (s : str) : option nat :=
  match s with
  | [] => None
  | c :: s' =>
      if c =? 125 (* } *) then None
      else match s' with
           | d :: _ => if d =? 125 then Some 1%nat else S <$> re_name s'
           | [] => None
           end
  end.

(** [ESCAPE_SEQUENCE_RE] matched at the head of [s]: the length of the
    match, the alternatives being tried in the order of the pattern. *)
Definition ESCAPE_SEQUENCE_RE (s : str) : option nat :=
  match s with
  | 92 :: c :: s' =>
      if (c =? 85) && re_dots 8 s' then Some 10%nat             (* \U........ *)
      else if (c =? 117) && re_dots 4 s' then Some 6%nat        (* \u.... *)
      else if (c =? 120) && re_dots 2 s' then Some 4%nat        (* \x.. *)
      else if is_octal_digit c then Some (S (re_octal (c :: s'))) (* \[0-7]{1,3} *)
      else if (c =? 78) && bool_decide (head s' = Some 123) then (* \N\{[^}]+\} *)
        match re_name (tail s') with
        | Some n => Some (n + 4)%nat
        | None => None
        end
      else if existsb (N.eqb c) [92; 39; 34; 97; 98; 102; 110; 114; 116; 118]
      then Some 2%nat                                           (* single-character escapes *)
      else None
  | _ => None
  end.

Definition octal_number (digits : str) : N := foldl (fun acc c => 8 * acc + (c - 48)) 0 digits.

(** [codecs.decode(m, "unicode-escape")] on a text [m] matched by the
    pattern ([None]: [UnicodeDecodeError]). *)
Definition unicode_escape (m : str) : option str :=
  match m with
  | 92 :: c :: body =>
      if (c =? 85) || (c =? 117) || (c =? 120) then
        if forallb is_hex_digit body && (hex_number body <=? 1114111)
        then Some [hex_number body] else None
      else if is_octal_digit c then Some [octal_number (c :: body)]
      else if c =? 78 then
        (fun x => [x]) <$> unicodedata_lookup (drop_last (tail body))
      else
        match c with
        | 92 => Some [92]
        | 39 => Some [39]
        | 34 => Some [34]
        | 97 => Some [7]
        | 98 => Some [8]
        | 102 => Some [12]
        | 110 => Some [10]
        | 114 => Some [13]
        | 116 => Some [9]
        | 118 => Some [11]
        | _ => None
        end
  | _ => None
  end.

(** The code points that UTF-8 does not encode. *)
Definition is_surrogate (c : codepoint) : bool := (55296 <=? c) && (c <=? 57343).

(** [decode_match]: [codecs.decode] is given a [str], which it first encodes
    as UTF-8; a surrogate in the match makes that step raise. *)
Definition decode_match (m : str) : result str :=
  if existsb is_surrogate m then Raise (UnicodeEncodeError m)
  else
    match unicode_escape m with
    | Some s => Ok s
    | None => Raise (UnicodeDecodeError m)
    end.

(** [ESCAPE_SEQUENCE_RE.sub(decode_match, s)]: from left to right, a match
    is replaced and the scan resumes after it, any other character is kept.
    Every step consumes a character, so [length s] steps suffice. *)
Fixpoint re_sub (fuel : nat) (s : str) : result str :=
  match s with
  | [] => Ok []
  | c :: rest =>
      match fuel with
      | O => OutOfFuel
      | S fuel' =>
          match ESCAPE_SEQUENCE_RE s with
          | Some n =>
              rbind (decode_match (take n s)) (fun m =>
              rbind (re_sub fuel' (drop n s)) (fun r => Ok (m ++ r)))
          | None => rbind (re_sub fuel' rest) (fun r => Ok (c :: r))
          end
      end
  end.

Definition _decode_escapes (s : str) : result str := re_sub (length s) s.

(** ** [json.encoder.py_encode_basestring_ascii] *)

(** [replace]: the text written for one character, from [ESCAPE_DCT] when
    it is there (the entries of the other control characters are the
    [\u] form below). *)
Definition json_replace (c : codepoint) : str :=
  if c =? 92 then [92; 92]
  else if c =? 34 then [92; 34]
  else if c =? 8 then py "\b"
  else if c =? 12 then py "\f"
  else if c =? 10 then py "\n"
  else if c =? 13 then py "\r"
  else if c =? 9 then py "\t"
  else if c <? 65536 then py "\u" ++ format_04x c
  else
    let n := c - 65536 in
    let s1 := N.lor 55296 (N.land (N.shiftr n 10) 1023) in
    let s2 := N.lor 56320 (N.land n 1023) in
    py "\u" ++ format_04x s1 ++ py "\u" ++ format_04x s2.

(** [ESCAPE_ASCII] matches a backslash, a double quote and whatever is
    outside the range from space to tilde. *)
Definition json_escaped (c : codepoint) : bool :=
  (c =? 92) || (c =? 34) || negb ((32 <=? c) && (c <=? 126)).

(** [ESCAPE_ASCII.sub(replace, s)] character by character. *)
Definition json_sub (c : codepoint) : str :=
  if json_escaped c then json_replace c else [c].

Definition py_encode_basestring_ascii (s : str) : str :=
  [DQUOTE] ++ concat (map json_sub s) ++ [DQUOTE].

(** ** Decoder *)

Definition _STOP_CHARS : list str := [py " "; py ","; [NEWLINE]; [13]; [9]].
Definition _COLL_OPEN_CHARS : list str := [py "#"; py "["; py "{"; py "("].
Definition _COLL_CLOSE_CHARS : list str := [py "]"; py "}"; py ")"].
Definition _EXTRA_NUM_CHARS : list str := [py "-"; py "+"; py "."; py "e"; py "E"; py "M"].

(** The type names of [__get_type_from_char]. *)
Inductive ttype :=
| T_number | T_boolean | T_nil | T_char | T_keyword | T_string
| T_set | T_namespaced_dict | T_datetime | T_uuid | T_dict | T_list.

Definition ttype_eqb (a b : ttype) : bool :=
  match a, b with
  | T_number, T_number | T_boolean, T_boolean | T_nil, T_nil | T_char, T_char
  | T_keyword, T_keyword | T_string, T_string | T_set, T_set
  | T_namespaced_dict, T_namespaced_dict | T_datetime, T_datetime
  | T_uuid, T_uuid | T_dict, T_dict | T_list, T_list => true
  | _, _ => false
  end.

(** [t == name], [t] being a type name or [None]. *)
Definition type_is (t : option ttype) (name : ttype) : bool :=
  match t with
  | Some x => ttype_eqb x name
  | None => false
  end.

(** An entry of [value_stack]: the members read so far, the terminator, the
    type name and the namespace of an open collection. *)
Record frame := mkFrame {
  f_scope : list value;
  f_term : option str;
  f_type : option ttype;
  f_namespace : option str
}.

(** [value_stack] lists the innermost frame first. *)
Record CljDecoder := mkDecoder {
  fd : StringIO;
  cur_line : nat;
  cur_pos : nat;
  value_stack : list frame;
  terminator : option str
}.

Definition CljDecoder_init (f : StringIO) : CljDecoder :=
  {| fd := f; cur_line := 1; cur_pos := 1; value_stack := []; terminator := None |}.

Definition set_fd (d : CljDecoder) (f : StringIO) : CljDecoder :=
  {| fd := f; cur_line := cur_line d; cur_pos := cur_pos d;
     value_stack := value_stack d; terminator := terminator d |}.
Definition set_stack (d : CljDecoder) (st : list frame) (t : option str) : CljDecoder :=
  {| fd := fd d; cur_line := cur_line d; cur_pos := cur_pos d;
     value_stack := st; terminator := t |}.

(** A method of the decoder: it reads and updates the decoder's fields and
    returns, raises, or exhausts its fuel. *)
Definition M (A : Type) : Type := CljDecoder -> result (A * CljDecoder).

Definition ret {A} (a : A) : M A := fun d => Ok (a, d).
Definition bind {A B} (m : M A) (k : A -> M B) : M B :=
  fun d => match m d with
           | Ok (a, d') => k a d'
           | Raise e => Raise e
           | OutOfFuel => OutOfFuel
           end.
Definition raise {A} (e : exn) : M A := fun _ => Raise e.
Definition out_of_fuel {A} : M A := fun _ => OutOfFuel.
Definition lift {A} (r : result A) : M A :=
  fun d => match r with
           | Ok a => Ok (a, d)
           | Raise e => Raise e
           | OutOfFuel => OutOfFuel
           end.

Notation "'let*' x ':=' m 'in' k" := (bind m (fun x => k))
  (at level 10, x pattern, m at level 100, k at level 200).

(** [__read_and_back]: the position is moved back by [size] even when fewer
    characters were read. *)
Definition read_and_back (size : nat) : M str := fun d =>
  let (s, fd1) := fd_read size (fd d) in
  match _seek_back fd1 size with
  | Some fd2 => Ok (s, set_fd d fd2)
  | None => Raise ValueError_seek
  end.

(** [__read_fd] *)
Definition read_fd (size : nat) : M str := fun d =>
  let (c, fd') := fd_read size (fd d) in
  if (size =? 1)%nat then
    if str_eqb c [NEWLINE]
    then Ok (c, {| fd := fd'; cur_line := cur_line d + 1; cur_pos := 0;
                   value_stack := value_stack d; terminator := terminator d |})
    else Ok (c, set_fd d fd')
  else
    Ok (c, {| fd := fd'; cur_line := cur_line d; cur_pos := cur_pos d + size;
              value_stack := value_stack d; terminator := terminator d |}).

(** [__get_type_from_char] *)
Definition get_type_from_char (c : str) : M (option ttype * bool * option str) :=
  if isdigit c || str_eqb c (py "-") then ret (Some T_number, false, None)
  else if str_eqb c (py "t") || str_eqb c (py "f") then ret (Some T_boolean, false, None)
  else if str_eqb c (py "n") then ret (Some T_nil, false, None)
  else if str_eqb c [BACKSLASH] then ret (Some T_char, false, None)
  else if str_eqb c (py ":") then ret (Some T_keyword, false, None)
  else if str_eqb c [DQUOTE] then ret (Some T_string, false, None)
  else if str_eqb c (py "#") then
    let* s1 := read_and_back 1 in
    if str_eqb s1 (py "{") then ret (Some T_set, true, Some (py "}")) else
    let* s2 := read_and_back 1 in
    if str_eqb s2 (py ":") then ret (Some T_namespaced_dict, true, Some (py "}")) else
    let* s3 := read_and_back 4 in
    if str_eqb s3 (py "inst") then ret (Some T_datetime, false, None) else
    let* s4 := read_and_back 4 in
    if str_eqb s4 (py "uuid") then ret (Some T_uuid, false, None) else
    ret (None, false, None)
  else if str_eqb c (py "{") then ret (Some T_dict, true, Some (py "}"))
  else if str_eqb c (py "(") then ret (Some T_list, true, Some (py ")"))
  else if str_eqb c (py "[") then ret (Some T_list, true, Some (py "]"))
  else ret (None, false, None).

(** [while c in _STOP_CHARS: c = self.__read_fd(1)] *)
Fixpoint skip_stop_chars (fuel : nat) (c : str) : M str :=
  if str_in c _STOP_CHARS then
    match fuel with
    | O => out_of_fuel
    | S fuel' => let* c' := read_fd 1 in skip_stop_chars fuel' c'
    end
  else ret c.

(** [while c != "{": c = self.__read_fd(1); buf.append(c)] *)
Fixpoint read_namespace (fuel : nat) (c : str) (buf : list str) : M (list str) :=
  if negb (str_eqb c (py "{")) then
    match fuel with
    | O => out_of_fuel
    | S fuel' => let* c' := read_fd 1 in read_namespace fuel' c' (buf ++ [c'])
    end
  else ret buf.

(** The loop of a character and of a keyword:
    while [c] is not [self.terminator], is not the empty string and is not
    in [_STOP_CHARS], [c = self.__read_fd(1); buf.append(c)].  The source
    compares with [is]; CPython shares the empty and the one-character
    strings, so that it is [==] here. *)
Fixpoint read_symbol (fuel : nat) (c : str) (buf : list str) : M (str * list str) := fun d =>
  if negb (bool_decide (Some c = terminator d)) && negb (str_eqb c []) && negb (str_in c _STOP_CHARS) then
    match fuel with
    | O => OutOfFuel
    | S fuel' => (let* c' := read_fd 1 in read_symbol fuel' c' (buf ++ [c'])) d
    end
  else Ok ((c, buf), d).

(** [while c.isdigit() or (c in _EXTRA_NUM_CHARS): buf.append(c); c = self.__read_fd(1)] *)
Fixpoint read_number (fuel : nat) (c : str) (buf : list str) : M (str * list str) :=
  if isdigit c || str_in c _EXTRA_NUM_CHARS then
    match fuel with
    | O => out_of_fuel
    | S fuel' => let* c' := read_fd 1 in read_number fuel' c' (buf ++ [c])
    end
  else ret (c, buf).

(** The loop of a string: until [c] is a double quote and [cp] is not a
    backslash, [buf.append(c); cp = c; c = self.__read_fd(1)]. *)
Fixpoint read_string (fuel : nat) (cp c : str) (buf : list str) : M (str * list str) :=
  if negb (str_eqb c [DQUOTE] && negb (str_eqb cp [BACKSLASH])) then
    match fuel with
    | O => out_of_fuel
    | S fuel' => let* c' := read_fd 1 in read_string fuel' c c' (buf ++ [c])
    end
  else ret (c, buf).

(** [chars[-1]] *)
Definition last_char (chars : str) : M str :=
  match last chars with
  | Some x => ret [x]
  | None => raise IndexError
  end.

(** The pairing loop of a map:
    [for i in range(0, len(current_scope), 2): ... v[key] = current_scope[i + 1]]. *)
Fixpoint fold_dict (namespace : option str) (current_scope : list value)
    (v : list (value * value)) : result (list (value * value)) :=
  match current_scope with
  | [] => Ok v
  | k :: rest =>
      let key := match namespace with
                 | Some ((_ :: _) as ns) => Atom (SStr (ns ++ py "/" ++ py_str k))
                 | _ => k
                 end in
      match rest with
      | [] => Raise IndexError
      | x :: rest' =>
          if hashable key then fold_dict namespace rest' (dict_setitem v key x)
          else Raise TypeError_unhashable
      end
  end.

(** The value a popped frame folds into; [v] stays when no container
    matches. *)
Definition fold_frame (container : option ttype) (namespace : option str)
    (current_scope : list value) (v : value) : result value :=
  match container with
  | Some T_set =>
      if forallb hashable current_scope then Ok (VSet (set_of_list current_scope))
      else Ok (VTuple current_scope)
  | Some T_list => Ok (VList current_scope)
  | Some T_dict | Some T_namespaced_dict =>
      rbind (fold_dict namespace current_scope []) (fun items => Ok (VDict items))
  | _ => Ok v
  end.

(** The end of [__read_token], from [if e == self.terminator:] on. *)
Definition close_and_append (v : value) (e : str) (r : bool) : M value := fun d =>
  let closed :=
    if bool_decide (Some e = terminator d) then
      match value_stack d with
      | [] => Raise IndexError
      | fr :: stack' =>
          let current_scope := if r then f_scope fr ++ [v] else f_scope fr in
          rbind (fold_frame (f_type fr) (f_namespace fr) current_scope v) (fun v' =>
          Ok (v', true, set_stack d stack' (terminator d)))
      end
    else Ok (v, r, d) in
  match closed with
  | Ok (v, r, d) =>
      match r, value_stack d with
      | true, fr :: stack' =>
          Ok (v, set_stack d
                   ({| f_scope := f_scope fr ++ [v]; f_term := f_term fr;
                       f_type := f_type fr; f_namespace := f_namespace fr |} :: stack')
                   (f_term fr))
      | _, _ => Ok (v, d)
      end
  | Raise e => Raise e
  | OutOfFuel => OutOfFuel
  end.

(** [self.value_stack[-1][0].pop()] when the stack is not empty. *)
Definition discard_last_member : M unit := fun d =>
  match value_stack d with
  | [] => Ok (tt, d)
  | fr :: stack' =>
      match f_scope fr with
      | [] => Raise IndexError
      | _ => Ok (tt, set_stack d
                       ({| f_scope := drop_last (f_scope fr); f_term := f_term fr;
                           f_type := f_type fr; f_namespace := f_namespace fr |} :: stack')
                       (terminator d))
      end
  end.

Definition VNone : value := Atom SNone.

(** The branch [if coll:] of [__read_token]: the frame is pushed and no
    value is returned. *)
Definition open_collection (fuel : nat) (c : str) (t : option ttype) (term : option str)
    : M value :=
  let* _ := (if type_is t T_set then let* _ := read_fd 1 in ret tt else ret tt) in
  let* namespace :=
    (if type_is t T_namespaced_dict then
       let* _ := read_fd 1 in
       let* buf := read_namespace fuel c [] in
       ret (Some (join (drop_last buf)))
     else ret None) in
  fun d =>
    Ok (VNone, set_stack d
                 ({| f_scope := []; f_term := term; f_type := t;
                     f_namespace := namespace |} :: value_stack d) term).

(** The branches of the scalar types of [__read_token]: each gives the token
    value [v], the end character [e] and the flag [r] telling whether the
    token holds data.  [read_token] is the method itself, for the tagged
    literals. *)
Definition read_scalar (read_token : M value) (fuel : nat) (c : str) (t : option ttype)
    : M (value * str * bool) :=
  match t with
  | Some T_boolean =>
      if str_eqb c (py "t") then
        let* chars := read_fd 4 in
        if negb (str_eqb (take 3 chars) (py "rue")) then
          fun d => Raise (ValueError_Expect (py "true") (py "t" ++ take 3 chars)
                                            (cur_line d) (cur_pos d))
        else
          let* e := last_char chars in
          ret (Atom (SBool true), e, true)
      else
        let* chars := read_fd 5 in
        if negb (str_eqb (take 4 chars) (py "alse")) then
          fun d => Raise (ValueError_Expect (py "true") (py "t" ++ take 3 chars)
                                            (cur_line d) (cur_pos d))
        else
          let* e := last_char chars in
          ret (Atom (SBool false), e, true)
  | Some T_char =>
      let* (c, buf) := read_symbol fuel c [] in
      ret (Atom (SStr (join (drop_last buf))), c, true)
  | Some T_nil =>
      let* chars := read_fd 3 in
      if negb (str_eqb (take 2 chars) (py "il")) then
        fun d => Raise (ValueError_Expect (py "nil") (py "n" ++ take 2 chars)
                                          (cur_line d) (cur_pos d))
      else
        let* e := last_char chars in
        ret (VNone, e, true)
  | Some T_number =>
      let* (c, buf) := read_number fuel c [] in
      let* v := lift (number (join buf)) in
      let* _ := (if str_in c _COLL_OPEN_CHARS then
                   fun d => match _seek_back (fd d) 1 with
                            | Some f => Ok (tt, set_fd d f)
                            | None => Raise ValueError_seek
                            end
                 else ret tt) in
      ret (v, c, true)
  | Some T_keyword =>
      let* (c, buf) := read_symbol fuel c [] in
      ret (Atom (SStr (join (drop_last buf))), c, true)
  | Some T_string =>
      let* c := read_fd 1 in
      let* (c, buf) := read_string fuel c c [] in
      let* s := lift (_decode_escapes (join buf)) in
      ret (Atom (SStr s), c, true)
  | Some T_datetime =>
      let* _ := read_fd 4 in
      let* s := read_token in
      match s with
      | Atom (SStr s) =>
          let* _ := discard_last_member in
          match pyrfc3339_parse s with
          | Some t => ret (Atom (SDatetime t), [DQUOTE], true)
          | None => raise (ValueError_parse s)
          end
      | _ => raise (ValueError_StrExpected s)
      end
  | Some T_uuid =>
      let* _ := read_fd 4 in
      let* s := read_token in
      match s with
      | Atom (SStr s) =>
          let* _ := discard_last_member in
          match UUID_of_str s with
          | Some u => ret (Atom (SUUID u), [DQUOTE], true)
          | None => raise (ValueError_parse s)
          end
      | _ => raise (ValueError_StrExpected s)
      end
  | _ =>
      if negb (str_in c _COLL_CLOSE_CHARS) then
        fun d => Raise (ValueError_UnexpectedChar c (cur_line d) (cur_pos d))
      else ret (VNone, c, false)
  end.

(** [__read_token] *)
Fixpoint read_token (fuel : nat) : M value :=
  match fuel with
  | O => out_of_fuel
  | S fuel' =>
    let* c := read_fd 1 in
    let* c := skip_stop_chars fuel' c in
    if str_eqb c [] then raise ValueError_UnexpectedEOF else
    let* (t, coll, term) := get_type_from_char c in
    if (coll : bool) then open_collection fuel' c t term
    else
      let* (v, e, r) := read_scalar (read_token fuel') fuel' c t in
      close_and_append v e r
  end.

(** [decode]: tokens are read until the stack of frames is empty. *)
Fixpoint decode (fuel : nat) : M value :=
  match fuel with
  | O => out_of_fuel
  | S fuel' =>
      let* v := read_token fuel in
      fun d => match value_stack d with
               | [] => Ok (v, d)
               | _ => decode fuel' d
               end
  end.

Definition load (fuel : nat) (fp : StringIO) : result value :=
  match decode fuel (CljDecoder_init fp) with
  | Ok (v, _) => Ok v
  | Raise e => Raise e
  | OutOfFuel => OutOfFuel
  end.

Definition loads (fuel : nat) (s : str) : result value := load fuel (StringIO_of s).

(** ** Encoder

    The encoder walks Python objects, and a collection may be reached more
    than once.  Collections therefore live in a heap and are referred to by
    their identity [id(d)]; scalars are immediate. *)

Definition ident := positive.

Inductive pyobj :=
| Imm (a : scalar)
| Unknown (text : str)      (* an object of any other type, with its [str(d)] *)
| Ref (l : ident).

(** [items] and [elts] are in iteration order. *)
Inductive collection :=
| PyDict (items : list (pyobj * pyobj))
| PyList (elts : list pyobj)
| PyTuple (elts : list pyobj)
| PySet (elts : list pyobj).

Inductive etype :=
| E_None | E_string | E_boolean | E_number | E_decimal
| E_dict | E_list | E_set | E_datetime | E_uuid | E_unknown.

(** [get_type]; a reference to no object has no type. *)
Definition get_type (h : gmap ident collection) (t : pyobj) : option (etype * bool) :=
  match t with
  | Imm SNone => Some (E_None, false)
  | Imm (SStr _) => Some (E_string, false)
  | Imm (SBool _) => Some (E_boolean, false)
  | Imm (SInt _) | Imm (SFloat _) => Some (E_number, false)
  | Imm (SDecimal _) => Some (E_decimal, false)
  | Ref l =>
      match h !! l with
      | Some (PyDict _) => Some (E_dict, true)
      | Some (PyList _) | Some (PyTuple _) => Some (E_list, true)
      | Some (PySet _) => Some (E_set, true)
      | None => None
      end
  | Imm (SDatetime _) => Some (E_datetime, false)
  | Imm (SUUID _) => Some (E_uuid, false)
  | Unknown _ => Some (E_unknown, false)
  end.

Record CljEncoder := mkEncoder {
  data : pyobj;
  out : StringIO;                 (* [self.fd] *)
  circular : gmap ident bool
}.

Definition CljEncoder_init (d : pyobj) (f : StringIO) : CljEncoder :=
  {| data := d; out := f; circular := ∅ |}.

Definition write (s : str) (e : CljEncoder) : CljEncoder :=
  {| data := data e; out := fd_write s (out e); circular := circular e |}.

Definition seek_back_out (size : nat) (e : CljEncoder) : result CljEncoder :=
  match _seek_back (out e) size with
  | Some f => Ok {| data := data e; out := f; circular := circular e |}
  | None => Raise ValueError_seek
  end.

(** What the branches of a scalar write. *)
Definition scalar_text (a : scalar) : str :=
  match a with
  | SInt z => str_of_Z z
  | SFloat f => str_of_float f
  | SDecimal d => str_of_Decimal d ++ py "M"
  | SStr s => py_encode_basestring_ascii s
  | SBool true => py "true"
  | SBool false => py "false"
  | SNone => py "nil"
  | SDatetime t =>
      let t := if tzinfo_unset t then replace_tzinfo_utc t else t in
      py "#inst " ++ [DQUOTE] ++ pyrfc3339_generate t ++ [DQUOTE]
  | SUUID u => py "#uuid " ++ [DQUOTE] ++ str_of_UUID u ++ [DQUOTE]
  end.

(** [for v in d: self.__do_encode(v); fd.write(" ")] *)
Fixpoint encode_each (enc : pyobj -> CljEncoder -> result CljEncoder)
    (elts : list pyobj) (e : CljEncoder) : result CljEncoder :=
  match elts with
  | [] => Ok e
  | v :: rest =>
      rbind (enc v e) (fun e => encode_each enc rest (write (py " ") e))
  end.

(** [for k, v in list(d.items()): ...] *)
Fixpoint encode_items (enc : pyobj -> CljEncoder -> result CljEncoder)
    (items : list (pyobj * pyobj)) (e : CljEncoder) : result CljEncoder :=
  match items with
  | [] => Ok e
  | (k, v) :: rest =>
      rbind (enc k e) (fun e =>
      rbind (enc v (write (py " ") e)) (fun e =>
      encode_items enc rest (write (py " ") e)))
  end.

(** The body of a collection between its markers: the members when there
    are any, then [_seek_back(fd, 1)]. *)
Definition encode_body {A} (loop : list A -> CljEncoder -> result CljEncoder)
    (members : list A) (e : CljEncoder) : result CljEncoder :=
  match members with
  | [] => Ok e
  | _ => rbind (loop members e) (seek_back_out 1)
  end.

(** [__do_encode] *)
Fixpoint do_encode (fuel : nat) (h : gmap ident collection) (d : pyobj)
    (e : CljEncoder) : result CljEncoder :=
  match fuel with
  | O => OutOfFuel
  | S fuel' =>
      match d with
      | Ref refid =>
          match h !! refid with
          | None => Raise NoSuchObject
          | Some o =>
              if bool_decide (is_Some (circular e !! refid)) then Raise ValueError_Circular
              else
                let e := {| data := data e; out := out e;
                            circular := <[refid := true]> (circular e) |} in
                match o with
                | PyDict items =>
                    rbind (encode_body (encode_items (do_encode fuel' h)) items (write (py "{") e))
                          (fun e => Ok (write (py "}") e))
                | PyList elts | PyTuple elts =>
                    rbind (encode_body (encode_each (do_encode fuel' h)) elts (write (py "[") e))
                          (fun e => Ok (write (py "]") e))
                | PySet elts =>
                    rbind (encode_body (encode_each (do_encode fuel' h)) elts (write (py "#{") e))
                          (fun e => Ok (write (py "}") e))
                end
          end
      | Imm a => Ok (write (scalar_text a) e)
      | Unknown text => Ok (write (py_encode_basestring_ascii text) e)
      end
  end.

(** [dump] makes an encoder of its own, with an empty [circular]. *)
Definition dump (fuel : nat) (h : gmap ident collection) (obj : pyobj) (fp : StringIO)
    : result StringIO :=
  rbind (do_encode fuel h obj (CljEncoder_init obj fp)) (fun e => Ok (out e)).

Definition dumps (fuel : nat) (h : gmap ident collection) (obj : pyobj) : result str :=
  rbind (dump fuel h obj StringIO_empty) (fun buf => Ok (getvalue buf)).

(** ** Vocabulary of the properties *)

(** No two members of [l] are equal in the sense of [==]. *)
Definition distinct (l : list value) : Prop :=
  forall (i j : nat) (x y : value),
    (i < j)%nat -> l !! i = Some x -> l !! j = Some y -> key_eqb x y = false.


(** The key a member is stored under. *)
Definition map_key (namespace : option str) (k : value) : value :=
  match namespace with
  | Some ((_ :: _) as ns) => Atom (SStr (ns ++ py "/" ++ py_str k))
  | _ => k
  end.


(** The members in key position. *)
Fixpoint written_keys (scope : list value) : list value :=
  match scope with
  | k :: _ :: rest => k :: written_keys rest
  | _ => []
  end.




(** The characters of [_STOP_CHARS] and of [_COLL_CLOSE_CHARS]. *)
Definition is_stop (c : codepoint) : bool := existsb (N.eqb c) [32; 44; 10; 13; 9].
Definition is_close (c : codepoint) : bool := existsb (N.eqb c) [93; 125; 41].

(** The decoder after [self.__read_fd(1)] has read the character [c], and
    after it has read the characters [cs] one at a time. *)
Definition advance (c : codepoint) (d : CljDecoder) : CljDecoder :=
  {| fd := {| before := c :: before (fd d); after := tail (after (fd d)) |};
     cur_line := if c =? NEWLINE then cur_line d + 1 else cur_line d;
     cur_pos := if c =? NEWLINE then 0 else cur_pos d;
     value_stack := value_stack d;
     terminator := terminator d |}.
Definition advance_all (cs : str) (d : CljDecoder) : CljDecoder :=
  foldl (fun d c => advance c d) d cs.

(** No double quote of [s] ends a string literal: each one directly follows
    a backslash, [p] being the character before [s]. *)
Fixpoint no_close (p : codepoint) (s : str) : bool :=
  match s with
  | [] => true
  | x :: s' => negb ((x =? DQUOTE) && negb (p =? BACKSLASH)) && no_close x s'
  end.

(** The characters a number token is made of. *)
Definition is_numeric (c : codepoint) : bool := isdigit [c] || str_in [c] _EXTRA_NUM_CHARS.

(** The code points of the digits of a decimal numeral. *)
Fixpoint uint_codes (d : Decimal.uint) : str :=
  match d with
  | Decimal.Nil => []
  | Decimal.D0 d => 48 :: uint_codes d
  | Decimal.D1 d => 49 :: uint_codes d
  | Decimal.D2 d => 50 :: uint_codes d
  | Decimal.D3 d => 51 :: uint_codes d
  | Decimal.D4 d => 52 :: uint_codes d
  | Decimal.D5 d => 53 :: uint_codes d
  | Decimal.D6 d => 54 :: uint_codes d
  | Decimal.D7 d => 55 :: uint_codes d
  | Decimal.D8 d => 56 :: uint_codes d
  | Decimal.D9 d => 57 :: uint_codes d
  end.

(** [loads(dumps(v))] for a scalar [v]. *)
Definition roundtrip (fuel : nat) (a : scalar) : result value :=
  rbind (dumps fuel ∅ (Imm a)) (loads fuel).

(** A text that is read as one number token: it starts with a digit or a
    minus sign and is made of the characters of a number. *)
Definition number_text (t : str) : Prop :=
  match t with
  | [] => False
  | c0 :: _ => isdigit [c0] || str_eqb [c0] (py "-") = true /\ forallb is_numeric t = true
  end.

(** A text without double quote and without backslash. *)
Definition plain_text (s : str) : Prop :=
  forallb (fun c => negb (c =? DQUOTE) && negb (c =? BACKSLASH)) s = true.

(** The number of digits of the decimal text of an integer, the sign not
    counted. *)
Definition int_digits (z : Z) : nat :=
  (length (str_of_Z z) - if (z <? 0)%Z then 1 else 0)%nat.

(** The text of a finite float: a number token that holds a point or an
    exponent mark, and no [M]. *)
Definition float_text (t : str) : Prop :=
  number_text t
  /\ existsb (fun c => (c =? 46) || (c =? 101)) t = true
  /\ forallb (fun c => negb (c =? 77)) t = true.

(** The scalars for which encoding then decoding gives the value back.
    The conditions on a float, a decimal and a timestamp speak of the code
    outside the repository only: the text that the library writes for the
    value is a number token (a float, a decimal), or holds no double quote
    and no backslash (a timestamp), and the library reads the value back
    from it.  An integer must have no more digits than [int] converts, and
    an identifier is a 128-bit integer. *)
Definition round_trips (a : scalar) : Prop :=
  match a with
  | SNone | SBool _ => True
  | SInt z => N.of_nat (int_digits z) <= int_max_str_digits
  | SStr s => Forall (fun c => c < 65536) s /\ last s <> Some BACKSLASH
  | SFloat f => float_text (str_of_float f) /\ float_of_str (str_of_float f) = Some f
  | SDecimal d =>
      number_text (str_of_Decimal d) /\ Decimal_of_str (str_of_Decimal d) = Some d
  | SDatetime t =>
      let s := pyrfc3339_generate (if tzinfo_unset t then replace_tzinfo_utc t else t) in
      plain_text s /\ pyrfc3339_parse s = Some t
  | SUUID u => u < 2 ^ 128
  end.

(** The objects the encoder descends into from a collection, in the order
    it encodes them: the members, and key then value for each item. *)
Definition members (o : collection) : list pyobj :=
  match o with
  | PyDict items => concat (map (fun kv => [fst kv; snd kv]) items)
  | PyList elts | PyTuple elts | PySet elts => elts
  end.

(** The identities recorded in [self.circular]. *)
Definition visited (e : CljEncoder) : gset ident := dom (circular e).

(** [unfolds h d ids]: followed through the heap [h], the object [d] is a
    finite tree, and [ids] lists the identities of its collections in the
    order in which the encoder meets them, one entry for each time a
    collection is met. *)
Inductive unfolds (h : gmap ident collection) : pyobj -> list ident -> Prop :=
| unfolds_imm (a : scalar) : unfolds h (Imm a) []
| unfolds_unknown (text : str) : unfolds h (Unknown text) []
| unfolds_ref (l : ident) (o : collection) (idss : list (list ident)) :
    h !! l = Some o ->
    Forall2 (unfolds h) (members o) idss ->
    unfolds h (Ref l) (l :: concat idss).

(** No collection is met a second time: no cycle and no sharing. *)
Definition tree_shaped (h : gmap ident collection) (d : pyobj) : Prop :=
  exists ids, unfolds h d ids /\ NoDup ids.

(** Every reference is to an object of the heap. *)
Definition refs_ok (h : gmap ident collection) (d : pyobj) : Prop :=
  match d with
  | Ref l => is_Some (h !! l)
  | _ => True
  end.
Definition closed (h : gmap ident collection) : Prop :=
  forall l o, h !! l = Some o -> Forall (refs_ok h) (members o).

(** The markers of a collection, and the encoder once [l] is recorded. *)
Definition opener (o : collection) : str :=
  match o with
  | PyDict _ => py "{"
  | PyList _ | PyTuple _ => py "["
  | PySet _ => py "#{"
  end.
Definition closer (o : collection) : str :=
  match o with
  | PyDict _ | PySet _ => py "}"
  | PyList _ | PyTuple _ => py "]"
  end.
Definition mark (l : ident) (e : CljEncoder) : CljEncoder :=
  {| data := data e; out := out e; circular := <[l := true]> (circular e) |}.

(** [closed], as a test. *)
Definition refs_okb (h : gmap ident collection) (d : pyobj) : bool :=
  match d with
  | Ref l => bool_decide (is_Some (h !! l))
  | _ => true
  end.
Definition closedb (h : gmap ident collection) : bool :=
  forallb (fun lo => forallb (refs_okb h) (members (snd lo))) (map_to_list h).

(** How one character is written: as it is, as a backslash and one
    character, or as one or two [\u] forms. *)
Inductive json_unit (c : codepoint) : str -> Prop :=
| unit_plain : c <> BACKSLASH -> c <> DQUOTE -> json_unit c [c]
| unit_pair (k : codepoint) :
    k <> 85 -> k <> 117 -> k <> 120 -> is_octal_digit k = false -> k <> 78 ->
    is_surrogate k = false ->
    unicode_escape [BACKSLASH; k] = Some [c] ->
    ESCAPE_SEQUENCE_RE [BACKSLASH; k] = Some 2%nat ->
    (c = BACKSLASH <-> k = BACKSLASH) ->
    json_unit c [BACKSLASH; k]
| unit_u4 : c < 65536 -> json_unit c (py "\u" ++ format_04x c)
| unit_u4u4 (s1 s2 : N) :
    65536 <= c -> json_unit c (py "\u" ++ format_04x s1 ++ py "\u" ++ format_04x s2).


(** The character a single-character escape stands for. *)
Definition single_escape (k : codepoint) : option codepoint :=
  if k =? 92 then Some 92        (* backslash *)
  else if k =? 39 then Some 39   (* quote *)
  else if k =? 34 then Some 34   (* double quote *)
  else if k =? 97 then Some 7    (* a: bell *)
  else if k =? 98 then Some 8    (* b: backspace *)
  else if k =? 102 then Some 12  (* f: form feed *)
  else if k =? 110 then Some 10  (* n: newline *)
  else if k =? 114 then Some 13  (* r: carriage return *)
  else if k =? 116 then Some 9   (* t: tab *)
  else if k =? 118 then Some 11  (* v: vertical tab *)
  else None.

(** The letter and the number of digits of the three hexadecimal forms. *)
Definition hex_form (letter : codepoint) (digits : nat) : Prop :=
  (letter = 120 /\ digits = 2%nat) \/ (letter = 117 /\ digits = 4%nat)
  \/ (letter = 85 /\ digits = 8%nat).
(** [encode]: the method of an encoder object, which keeps its [circular]
    table from one call to the next. *)
Definition encode (fuel : nat) (h : gmap ident collection) (e : CljEncoder)
    : result CljEncoder :=
  do_encode fuel h (data e) e.

(** The UTF-16 code units of a code point: itself in the Basic
    Multilingual Plane, a high and a low surrogate above it. *)
Definition utf16_units (c : codepoint) : str :=
  if c <? 65536 then [c]
  else [55296 + ((c - 65536) / 1024) mod 1024; 56320 + (c - 65536) mod 1024].

(** The number of newlines of a text. *)
Definition newlines (s : str) : nat := count_occ N.eq_dec s NEWLINE.

(** The characters that start a token, and those that [__read_token]
    rejects: neither the start of a token, nor a closing character, nor a
    stop character. *)
Definition starts_token (c : codepoint) : bool :=
  char_isdigit c || existsb (N.eqb c) [45; 116; 102; 110; 92; 58; 34; 35; 123; 40; 91].
Definition is_unexpected (c : codepoint) : bool :=
  negb (starts_token c) && negb (is_close c) && negb (is_stop c).


(** ** The text of a value

    The Clojure text of a value: a scalar as the encoder's branch of its
    type writes it, a collection as its members separated by single spaces
    between the markers of its kind. *)
Definition value_members (v : value) : list value :=
  match v with
  | Atom _ => []
  | VList l | VTuple l | VSet l => l
  | VDict items => concat (map (fun kv => [fst kv; snd kv]) items)
  end.

Fixpoint clj_text (v : value) : str :=
  match v with
  | Atom a => scalar_text a
  | VList l | VTuple l => py "[" ++ join_with (py " ") (map clj_text l) ++ py "]"
  | VSet l => py "#{" ++ join_with (py " ") (map clj_text l) ++ py "}"
  | VDict items =>
      py "{" ++ join_with (py " ")
                  (concat (map (fun kv => [clj_text (fst kv); clj_text (snd kv)]) items))
             ++ py "}"
  end.

(** [denotes h d v]: [v] is the value that the object [d] stands for in the
    heap [h], as the decoder builds values: a list or a tuple is a
    sequence, an object of an unknown type is the string [str(d)]. *)
Inductive denotes (h : gmap ident collection) : pyobj -> value -> Prop :=
| denotes_imm (a : scalar) : denotes h (Imm a) (Atom a)
| denotes_unknown (text : str) : denotes h (Unknown text) (Atom (SStr text))
| denotes_list (l : ident) (elts : list pyobj) (vs : list value) :
    h !! l = Some (PyList elts) -> Forall2 (denotes h) elts vs ->
    denotes h (Ref l) (VList vs)
| denotes_tuple (l : ident) (elts : list pyobj) (vs : list value) :
    h !! l = Some (PyTuple elts) -> Forall2 (denotes h) elts vs ->
    denotes h (Ref l) (VList vs)
| denotes_set (l : ident) (elts : list pyobj) (vs : list value) :
    h !! l = Some (PySet elts) -> Forall2 (denotes h) elts vs ->
    denotes h (Ref l) (VSet vs)
| denotes_dict (l : ident) (items : list (pyobj * pyobj)) (vitems : list (value * value)) :
    h !! l = Some (PyDict items) ->
    Forall2 (fun kv wv => denotes h (fst kv) (fst wv) /\ denotes h (snd kv) (snd wv))
            items vitems ->
    denotes h (Ref l) (VDict vitems).

End Model.

Arguments Ok {R A} a.
Arguments Raise {R A} e.
Arguments OutOfFuel {R A}.

(** * Properties *)

Section Properties.
Context {R : Runtime}.

(** ** Folding a frame: sets and maps *)

Lemma distinct_nil : distinct [].
Proof. intros i j x y _ Hi. by rewrite lookup_nil in Hi. Qed.

Lemma existsb_false_elem {A} (f : A -> bool) (l : list A) (x : A) :
  existsb f l = false -> x ∈ l -> f x = false.
Proof.
  induction l as [|a l IH]; simpl; intros Hex Hin.
  - by apply elem_of_nil in Hin.
  - apply orb_false_iff in Hex as [Ha Hl].
    apply elem_of_cons in Hin as [->|Hin]; auto.
Qed.

Lemma existsb_true_elem {A} (f : A -> bool) (l : list A) :
  existsb f l = true -> exists x, x ∈ l /\ f x = true.
Proof.
  induction l as [|a l IH]; simpl; intros Hex; [discriminate|].
  apply orb_true_iff in Hex as [Ha|Hl].
  - exists a. split; [left|done].
  - destruct (IH Hl) as (x & Hx & Hfx). exists x. split; [by right|done].
Qed.

Lemma set_add_distinct (s : list value) (x : value) :
  distinct s -> distinct (set_add s x).
Proof.
  intros Hs. unfold set_add.
  destruct (existsb (fun y => key_eqb y x) s) eqn:Hex; [done|].
  intros i j a b Hij Hi Hj.
  apply lookup_snoc_Some in Hj as [[Hlt Hj]|[Hlen ->]].
  - rewrite lookup_app_l in Hi by lia. eauto.
  - rewrite lookup_app_l in Hi by lia.
    apply (existsb_false_elem _ _ a Hex).
    apply list_elem_of_lookup. eauto.
Qed.

Lemma set_add_members (s : list value) (x y : value) :
  y ∈ set_add s x -> y ∈ s \/ y = x.
Proof.
  unfold set_add. destruct (existsb _ s); [by left|].
  intros Hy. apply elem_of_app in Hy as [Hy|Hy]; [by left|].
  right. by apply list_elem_of_singleton in Hy.
Qed.

Lemma set_add_keeps (s : list value) (x y : value) : y ∈ s -> y ∈ set_add s x.
Proof.
  unfold set_add. destruct (existsb _ s); [done|].
  intros Hy. apply elem_of_app. by left.
Qed.

Lemma set_add_covers (s : list value) (x : value) :
  x ∈ set_add s x \/ exists y, y ∈ set_add s x /\ key_eqb y x = true.
Proof.
  unfold set_add. destruct (existsb (fun y => key_eqb y x) s) eqn:Hex.
  - right. by apply existsb_true_elem in Hex.
  - left. apply elem_of_app. right. by apply list_elem_of_singleton.
Qed.

(** What [set(scope)] holds, whatever it started from. *)
Lemma foldl_set_add (scope acc : list value) :
  distinct acc ->
  distinct (foldl set_add acc scope)
  /\ (forall y, y ∈ foldl set_add acc scope -> y ∈ acc \/ y ∈ scope)
  /\ (forall y, y ∈ acc -> y ∈ foldl set_add acc scope)
  /\ (forall x, x ∈ scope ->
        x ∈ foldl set_add acc scope
        \/ exists y, y ∈ foldl set_add acc scope /\ key_eqb y x = true).
Proof.
  revert acc. induction scope as [|a scope IH]; intros acc Hacc; simpl.
  - repeat split; auto. intros x Hx. by apply elem_of_nil in Hx.
  - destruct (IH (set_add acc a) (set_add_distinct _ _ Hacc)) as (H1 & H2 & H3 & H4).
    repeat split; auto.
    + intros y Hy. destruct (H2 y Hy) as [Hy'|Hy'].
      * destruct (set_add_members _ _ _ Hy') as [?| ->]; [by left|right; left].
      * right. by right.
    + intros y Hy. apply H3. by apply set_add_keeps.
    + intros x Hx. apply elem_of_cons in Hx as [->|Hx]; [|by apply H4].
      destruct (set_add_covers acc a) as [Hin|(y & Hy & Heq)].
      * left. by apply H3.
      * right. exists y. split; [by apply H3|done].
Qed.


(** Members are paired from the left: induction two members at a time. *)
Lemma pairs_ind {A} (P : list A -> Prop) :
  P [] -> (forall x, P [x]) -> (forall x y l, P l -> P (x :: y :: l)) ->
  forall l, P l.
Proof.
  intros H0 H1 H2.
  assert (forall l, P l /\ forall x, P (x :: l)) as H by
    (induction l as [|a l [IHa IHb]]; split; auto).
  intros l. apply H.
Qed.

Lemma fold_dict_step ns k x rest acc :
  fold_dict ns (k :: x :: rest) acc =
    if hashable (map_key ns k) then fold_dict ns rest (dict_setitem acc (map_key ns k) x)
    else Raise TypeError_unhashable.
Proof. reflexivity. Qed.

Lemma fold_dict_odd ns scope :
  Nat.Odd (length scope) ->
  forall acc,
    (fold_dict ns scope acc = Raise IndexError
     \/ fold_dict ns scope acc = Raise TypeError_unhashable)
    /\ (forallb hashable scope = true -> fold_dict ns scope acc = Raise IndexError).
Proof.
  induction scope as [|x|k x rest IH] using pairs_ind; intros Hodd acc.
  - destruct Hodd as [m Hm]. simpl in Hm. lia.
  - split; [by left|done].
  - assert (Nat.Odd (length rest)) as Hrest.
    { destruct Hodd as [m Hm]. simpl in Hm. exists (m - 1)%nat. lia. }
    rewrite fold_dict_step. split.
    + destruct (hashable (map_key ns k)); [apply IH; done|by right].
    + intros Hh. simpl in Hh.
      apply andb_true_iff in Hh as [Hk Hh]. apply andb_true_iff in Hh as [_ Hh].
      assert (hashable (map_key ns k) = true) as ->.
      { unfold map_key. destruct ns as [[|? ?]|]; done. }
      by apply IH.
Qed.



(** [C7] When the frame of a set literal is closed the decoder does not
    fail.  If some member cannot be hashed, the literal becomes the tuple of
    its members in the order read; otherwise it becomes a set in which no two
    members are equal, every member of which was read, and which holds each
    member read or one equal to it.  So [#{[1] [2]}] decodes to the sequence
    of the two vectors and [#{1 2 1}] to the set of 1 and 2. *)
Theorem set_literal_degrades_to_sequence
    (d : CljDecoder) (fr : frame) (stack : list frame) (v : value) (e : str) (r : bool) :
  value_stack d = fr :: stack ->
  f_type fr = Some T_set ->
  terminator d = Some e ->
  let members := if r then f_scope fr ++ [v] else f_scope fr in
  (exists w d', close_and_append v e r d = Ok (w, d')
     /\ (forallb hashable members = false -> w = VTuple members)
     /\ (forallb hashable members = true ->
           exists l, w = VSet l /\ distinct l
             /\ (forall y, y ∈ l -> y ∈ members)
             /\ (forall x, x ∈ members ->
                   x ∈ l \/ exists y, y ∈ l /\ key_eqb y x = true)))
  /\ loads 50 (py "#{[1] [2]}")
     = Ok (VTuple [VList [Atom (SInt 1)]; VList [Atom (SInt 2)]])
  /\ loads 50 (py "#{1 2 1}") = Ok (VSet [Atom (SInt 1); Atom (SInt 2)]).
Proof.
  intros Hstack Htype Hterm members. split; [|split; reflexivity].
  unfold close_and_append. rewrite Hterm, bool_decide_eq_true_2 by done.
  rewrite Hstack. fold members. unfold fold_frame. rewrite Htype.
  destruct (foldl_set_add members [] distinct_nil) as (H1 & H2 & _ & H4).
  destruct (forallb hashable members) eqn:Hh; simpl.
  - destruct stack as [|fr' stack']; simpl; eexists _, _; (split; [reflexivity|]);
      (split; [discriminate|]); intros _; eexists; (split; [reflexivity|]);
      (repeat split; auto); intros y Hy; destruct (H2 y Hy) as [Hn|?]; auto;
      by apply elem_of_nil in Hn.
  - destruct stack as [|fr' stack']; simpl; eexists _, _; (split; [reflexivity|]);
      (split; [done|discriminate]).
Qed.

Lemma fold_dict_odd_exact ns scope :
  Nat.Odd (length scope) ->
  forall acc,
    fold_dict ns scope acc
    = Raise (if forallb hashable (map (map_key ns) (written_keys scope))
             then IndexError else TypeError_unhashable).
Proof.
  induction scope as [|x|k x rest IH] using pairs_ind; intros Hodd acc.
  - destruct Hodd as [m Hm]. simpl in Hm. lia.
  - reflexivity.
  - assert (Nat.Odd (length rest)) as Hrest.
    { destruct Hodd as [m Hm]. simpl in Hm. exists (m - 1)%nat. lia. }
    rewrite fold_dict_step. cbn [written_keys map forallb].
    destruct (hashable (map_key ns k)); [by apply IH|reflexivity].
Qed.

(** [C10, amended] A map literal closed on an odd number of members
    raises, and the exception carries no line or column.  It is
    [IndexError] (the pairing loop reads the member after the last key)
    when the keys of the complete pairs can all be hashed, whatever the
    values are, and so always in a namespaced map with a non-empty
    namespace; it is the [TypeError] of the first key that cannot be hashed
    otherwise.  Decoding [{:a 1 :b}] and [{:a [1] :b}] raises [IndexError],
    decoding [{[1] 2 :b}] raises [TypeError]. *)
Theorem odd_map_raises_without_position
    (d : CljDecoder) (fr : frame) (stack : list frame) (v : value) (e : str) (r : bool) :
  value_stack d = fr :: stack ->
  f_type fr = Some T_dict \/ f_type fr = Some T_namespaced_dict ->
  terminator d = Some e ->
  let members := if r then f_scope fr ++ [v] else f_scope fr in
  let keys := map (map_key (f_namespace fr)) (written_keys members) in
  Nat.Odd (length members) ->
  close_and_append v e r d
  = Raise (if forallb hashable keys then IndexError else TypeError_unhashable)
  /\ exn_position IndexError = None /\ exn_position TypeError_unhashable = None
  /\ (forall c ns, f_namespace fr = Some (c :: ns) -> forallb hashable keys = true)
  /\ loads 50 (py "{:a 1 :b}") = Raise IndexError
  /\ loads 50 (py "{:a [1] :b}") = Raise IndexError
  /\ loads 50 (py "{[1] 2 :b}") = Raise TypeError_unhashable.
Proof.
  intros Hstack Htype Hterm members keys Hodd.
  split; [|split; [reflexivity|split; [reflexivity|split; [|repeat split; reflexivity]]]].
  - unfold close_and_append.
    rewrite Hterm, bool_decide_eq_true_2 by done. rewrite Hstack. fold members.
    unfold fold_frame.
    destruct Htype as [-> | ->];
      by rewrite (fold_dict_odd_exact (f_namespace fr) members Hodd []).
  - intros c ns Hns. subst keys. rewrite Hns.
    induction (written_keys members) as [|k ks IH]; [reflexivity|].
    cbn [map forallb]. by rewrite IH.
Qed.



(** ** Reading characters *)

Lemma str_eqb_single (a b : codepoint) : str_eqb [a] [b] = (a =? b).
Proof.
  unfold str_eqb. destruct (N.eqb_spec a b) as [->|Hne].
  - by rewrite bool_decide_eq_true_2.
  - rewrite bool_decide_eq_false_2; [done|congruence].
Qed.

Lemma str_eqb_nil_single (a : codepoint) : str_eqb [] [a] = false.
Proof. reflexivity. Qed.

Lemma str_in_stop (c : codepoint) : str_in [c] _STOP_CHARS = is_stop c.
Proof.
  unfold str_in, _STOP_CHARS, is_stop. simpl existsb.
  change (py " ") with [32]. change (py ",") with [44]. unfold NEWLINE.
  by rewrite !str_eqb_single.
Qed.

Lemma str_in_close (c : codepoint) : str_in [c] _COLL_CLOSE_CHARS = is_close c.
Proof.
  unfold str_in, _COLL_CLOSE_CHARS, is_close. simpl existsb.
  change (py "]") with [93]. change (py "}") with [125]. change (py ")") with [41].
  by rewrite !str_eqb_single.
Qed.


Lemma read_fd1_cons (d : CljDecoder) (c : codepoint) (rest : str) :
  after (fd d) = c :: rest -> read_fd 1 d = Ok ([c], advance c d).
Proof.
  intros Hafter. unfold read_fd, fd_read, advance. rewrite Hafter. simpl.
  rewrite str_eqb_single. unfold set_fd. by destruct (c =? NEWLINE).
Qed.

Lemma read_fd1_eof (d : CljDecoder) : after (fd d) = [] -> read_fd 1 d = Ok ([], d).
Proof.
  intros Hafter. unfold read_fd, fd_read. rewrite Hafter. simpl.
  destruct d as [[b a] l p s t]. simpl in *. by subst.
Qed.

Lemma after_advance (d : CljDecoder) (c : codepoint) (rest : str) :
  after (fd d) = c :: rest -> after (fd (advance c d)) = rest.
Proof. intros H. simpl. by rewrite H. Qed.

Lemma after_advance_all (cs : str) : forall (d : CljDecoder) (rest : str),
  after (fd d) = cs ++ rest -> after (fd (advance_all cs d)) = rest.
Proof.
  induction cs as [|c cs IH]; intros d rest H; [done|].
  simpl. apply IH. by apply after_advance.
Qed.

Lemma stack_advance_all (cs : str) : forall d : CljDecoder,
  value_stack (advance_all cs d) = value_stack d
  /\ terminator (advance_all cs d) = terminator d.
Proof. induction cs as [|c cs IH]; intros d; [done|]. simpl. by rewrite !(proj1 (IH _)), !(proj2 (IH _)). Qed.

Lemma advance_all_snoc (cs : str) (c : codepoint) (d : CljDecoder) :
  advance_all (cs ++ [c]) d = advance c (advance_all cs d).
Proof. unfold advance_all. by rewrite foldl_snoc. Qed.

Lemma skip_stop_chars_eq (fuel : nat) (c : str) :
  skip_stop_chars fuel c =
    if str_in c _STOP_CHARS then
      match fuel with
      | O => out_of_fuel
      | S fuel' => bind (read_fd 1) (skip_stop_chars fuel')
      end
    else ret c.
Proof. destruct fuel; reflexivity. Qed.

Lemma bind_assoc {A B C} (m : M A) (f : A -> M B) (g : B -> M C) (d : CljDecoder) :
  bind (bind m f) g d = bind m (fun x => bind (f x) g) d.
Proof. unfold bind. destruct (m d) as [[a d']| |]; reflexivity. Qed.

(** The lead character of a token: the stop characters before it are
    skipped. *)
Lemma lead_char {B} (k : str -> M B) (ws : str) :
  forall (fuel : nat) (d : CljDecoder) (x : codepoint) (rest : str),
    after (fd d) = ws ++ x :: rest ->
    forallb is_stop ws = true -> is_stop x = false ->
    (length ws <= fuel)%nat ->
    bind (read_fd 1) (fun c => bind (skip_stop_chars fuel c) k) d
    = k [x] (advance x (advance_all ws d)).
Proof.
  induction ws as [|w ws IH]; intros fuel d x rest Hafter Hws Hx Hfuel.
  - unfold bind at 1. rewrite (read_fd1_cons d x rest Hafter).
    rewrite skip_stop_chars_eq, str_in_stop, Hx. reflexivity.
  - simpl in Hws. apply andb_true_iff in Hws as [Hw Hws].
    destruct fuel as [|fuel]; [simpl in Hfuel; lia|].
    unfold bind at 1. rewrite (read_fd1_cons d w _ Hafter).
    rewrite skip_stop_chars_eq, str_in_stop, Hw.
    change (advance_all (w :: ws) d) with (advance_all ws (advance w d)).
    rewrite bind_assoc.
    apply (IH fuel (advance w d) x rest); [|done|done|simpl in Hfuel; lia].
    by apply after_advance in Hafter.
Qed.

(** At the end of the input, after stop characters only, there is no lead
    character. *)
Lemma lead_eof {B} (k : str -> M B) (ws : str) :
  forall (fuel : nat) (d : CljDecoder),
    after (fd d) = ws -> forallb is_stop ws = true -> (length ws <= fuel)%nat ->
    bind (read_fd 1) (fun c => bind (skip_stop_chars fuel c) k) d
    = k [] (advance_all ws d).
Proof.
  induction ws as [|w ws IH]; intros fuel d Hafter Hws Hfuel.
  - unfold bind at 1. rewrite (read_fd1_eof d Hafter).
    rewrite skip_stop_chars_eq. reflexivity.
  - simpl in Hws. apply andb_true_iff in Hws as [Hw Hws].
    destruct fuel as [|fuel]; [simpl in Hfuel; lia|].
    unfold bind at 1. rewrite (read_fd1_cons d w _ Hafter).
    rewrite skip_stop_chars_eq, str_in_stop, Hw.
    change (advance_all (w :: ws) d) with (advance_all ws (advance w d)).
    rewrite bind_assoc.
    apply (IH fuel (advance w d)); [|done|simpl in Hfuel; lia].
    by apply after_advance in Hafter.
Qed.

Lemma read_token_eq (fuel : nat) :
  read_token (S fuel) =
    bind (read_fd 1) (fun c => bind (skip_stop_chars fuel c) (fun c =>
      if str_eqb c [] then raise ValueError_UnexpectedEOF else
      bind (get_type_from_char c) (fun '(t, coll, term) =>
        if (coll : bool) then open_collection fuel c t term
        else bind (read_scalar (read_token fuel) fuel c t)
                  (fun '(v, e, r) => close_and_append v e r)))).
Proof. reflexivity. Qed.

(** ** Closing characters, end of input, misspelled literals *)



Lemma read_fd_many (n : nat) (d : CljDecoder) :
  n <> 1%nat ->
  read_fd n d =
    Ok (take n (after (fd d)),
        {| fd := {| before := rev (take n (after (fd d))) ++ before (fd d);
                    after := drop n (after (fd d)) |};
           cur_line := cur_line d; cur_pos := cur_pos d + n;
           value_stack := value_stack d; terminator := terminator d |}).
Proof.
  intros Hn. unfold read_fd, fd_read.
  destruct (Nat.eqb_spec n 1) as [?|_]; [done|reflexivity].
Qed.

Lemma misspelled_true (rec : M value) (fuel : nat) (d : CljDecoder) :
  take 3 (after (fd d)) <> py "rue" ->
  read_scalar rec fuel (py "t") (Some T_boolean) d
  = Raise (ValueError_Expect (py "true") (py "t" ++ take 3 (after (fd d)))
                             (cur_line d) (cur_pos d + 4)).
Proof.
  intros Hrue. unfold read_scalar.
  change (str_eqb (py "t") (py "t")) with true. cbv iota.
  unfold bind at 1. rewrite read_fd_many by done.
  rewrite take_take. change (3 `min` 4)%nat with 3%nat.
  unfold str_eqb. rewrite bool_decide_eq_false_2 by done. reflexivity.
Qed.

Lemma misspelled_false (rec : M value) (fuel : nat) (d : CljDecoder) :
  take 4 (after (fd d)) <> py "alse" ->
  read_scalar rec fuel (py "f") (Some T_boolean) d
  = Raise (ValueError_Expect (py "true") (py "t" ++ take 3 (after (fd d)))
                             (cur_line d) (cur_pos d + 5)).
Proof.
  intros Halse. unfold read_scalar.
  change (str_eqb (py "f") (py "t")) with false. cbv iota.
  unfold bind at 1. rewrite read_fd_many by done.
  rewrite !take_take. change (4 `min` 5)%nat with 4%nat. change (3 `min` 5)%nat with 3%nat.
  unfold str_eqb. rewrite bool_decide_eq_false_2 by done. reflexivity.
Qed.

Lemma misspelled_nil (rec : M value) (fuel : nat) (d : CljDecoder) :
  take 2 (after (fd d)) <> py "il" ->
  read_scalar rec fuel (py "n") (Some T_nil) d
  = Raise (ValueError_Expect (py "nil") (py "n" ++ take 2 (after (fd d)))
                             (cur_line d) (cur_pos d + 3)).
Proof.
  intros Hil. unfold read_scalar.
  unfold bind at 1. rewrite read_fd_many by done.
  rewrite take_take. change (2 `min` 3)%nat with 2%nat.
  unfold str_eqb. rewrite bool_decide_eq_false_2 by done. reflexivity.
Qed.

(** A scalar whose branch raises: the error is the error of the token. *)
Lemma lead_scalar_raises (fuel : nat) (d : CljDecoder) (ws : str) (x : codepoint)
    (rest : str) (t : option ttype) (e : exn) :
  after (fd d) = ws ++ x :: rest ->
  forallb is_stop ws = true -> is_stop x = false -> (length ws <= fuel)%nat ->
  (forall d1, get_type_from_char [x] d1 = Ok ((t, false, None), d1)) ->
  read_scalar (read_token fuel) fuel [x] t (advance x (advance_all ws d)) = Raise e ->
  read_token (S fuel) d = Raise e.
Proof.
  intros Hafter Hws Hx Hfuel Htype Hraise.
  rewrite read_token_eq.
  rewrite (lead_char _ ws fuel d x rest Hafter Hws Hx Hfuel).
  change (str_eqb [x] []) with false. cbv iota.
  unfold bind at 1. rewrite Htype. cbv beta iota.
  unfold bind at 1. by rewrite Hraise.
Qed.

(** [C3, amended] The error of an unexpected end of input carries no line
    or column, whereas the errors of a misspelled [true], [false] or [nil]
    carry the decoder's line and column counters (the column counter having
    been moved by the characters read after the first letter).  Decoding the
    unterminated [[1 2] raises the former; a [?] where a value is expected
    raises the error of an unexpected character, which carries the counters
    too. *)
Theorem position_of_decode_errors (fuel : nat) (d : CljDecoder) (ws : str) :
  forallb is_stop ws = true ->
  (length ws < fuel)%nat ->
  (after (fd d) = ws ->
     read_token fuel d = Raise ValueError_UnexpectedEOF
     /\ exn_position ValueError_UnexpectedEOF = None)
  /\ (forall rest, after (fd d) = ws ++ 116 :: rest -> take 3 rest <> py "rue" ->
        exists e, read_token fuel d = Raise e
          /\ e = ValueError_Expect (py "true") (py "t" ++ take 3 rest)
                   (cur_line (advance_all ws d)) (cur_pos (advance_all ws d) + 4)
          /\ exn_position e
             = Some (cur_line (advance_all ws d), (cur_pos (advance_all ws d) + 4)%nat))
  /\ (forall rest, after (fd d) = ws ++ 102 :: rest -> take 4 rest <> py "alse" ->
        exists e, read_token fuel d = Raise e
          /\ e = ValueError_Expect (py "true") (py "t" ++ take 3 rest)
                   (cur_line (advance_all ws d)) (cur_pos (advance_all ws d) + 5)
          /\ exn_position e
             = Some (cur_line (advance_all ws d), (cur_pos (advance_all ws d) + 5)%nat))
  /\ (forall rest, after (fd d) = ws ++ 110 :: rest -> take 2 rest <> py "il" ->
        exists e, read_token fuel d = Raise e
          /\ e = ValueError_Expect (py "nil") (py "n" ++ take 2 rest)
                   (cur_line (advance_all ws d)) (cur_pos (advance_all ws d) + 3)
          /\ exn_position e
             = Some (cur_line (advance_all ws d), (cur_pos (advance_all ws d) + 3)%nat))
  /\ loads 50 (py "[1 2") = Raise ValueError_UnexpectedEOF
  /\ loads 50 (py "?") = Raise (ValueError_UnexpectedChar (py "?") 1 1).
Proof.
  intros Hws Hfuel. destruct fuel as [|fuel]; [lia|].
  split; [|split; [|split; [|split; [|split; reflexivity]]]].
  - intros Hafter. split; [|reflexivity].
    rewrite read_token_eq. rewrite (lead_eof _ ws fuel d Hafter Hws) by lia.
    reflexivity.
  - intros rest Hafter Hrue. eexists. split; [|split; reflexivity].
    assert (after (fd (advance 116 (advance_all ws d))) = rest) as Hrest
      by (simpl; by rewrite (after_advance_all ws d _ Hafter)).
    apply (lead_scalar_raises fuel d ws 116 rest (Some T_boolean));
      [done|done|done|lia|done|].
    change [116] with (py "t"). rewrite misspelled_true by (by rewrite Hrest).
    by rewrite Hrest.
  - intros rest Hafter Halse. eexists. split; [|split; reflexivity].
    assert (after (fd (advance 102 (advance_all ws d))) = rest) as Hrest
      by (simpl; by rewrite (after_advance_all ws d _ Hafter)).
    apply (lead_scalar_raises fuel d ws 102 rest (Some T_boolean));
      [done|done|done|lia|done|].
    change [102] with (py "f"). rewrite misspelled_false by (by rewrite Hrest).
    by rewrite Hrest.
  - intros rest Hafter Hil. eexists. split; [|split; reflexivity].
    assert (after (fd (advance 110 (advance_all ws d))) = rest) as Hrest
      by (simpl; by rewrite (after_advance_all ws d _ Hafter)).
    apply (lead_scalar_raises fuel d ws 110 rest (Some T_nil));
      [done|done|done|lia|done|].
    change [110] with (py "n"). rewrite misspelled_nil by (by rewrite Hrest).
    by rewrite Hrest.
Qed.

(** ** Characters, keywords and strings *)

Lemma read_symbol_eq (fuel : nat) (c : str) (buf : list str) (d : CljDecoder) :
  read_symbol fuel c buf d =
    if negb (bool_decide (Some c = terminator d)) && negb (str_eqb c [])
       && negb (str_in c _STOP_CHARS)
    then match fuel with
         | O => OutOfFuel
         | S fuel' =>
             bind (read_fd 1) (fun c' => read_symbol fuel' c' (buf ++ [c'])) d
         end
    else Ok ((c, buf), d).
Proof. destruct fuel; reflexivity. Qed.

(** Each character as a string of its own: what a loop appends to [buf]. *)
Lemma join_singletons (body : str) : join (map (fun c => [c]) body) = body.
Proof. unfold join. induction body as [|c body IH]; simpl; congruence. Qed.

(** At the top level, where no terminator is active, the loop of a character
    or keyword runs to the end of the input when it meets no stop character. *)
Lemma read_symbol_to_eof (body : str) :
  forall (fuel : nat) (c0 : codepoint) (buf : list str) (d : CljDecoder),
    after (fd d) = body -> terminator d = None ->
    is_stop c0 = false -> forallb (fun c => negb (is_stop c)) body = true ->
    (length body < fuel)%nat ->
    read_symbol fuel [c0] buf d
    = Ok (([], buf ++ map (fun c => [c]) body ++ [[]]), advance_all body d).
Proof.
  induction body as [|y body IH]; intros fuel c0 buf d Hafter Hterm Hc0 Hbody Hfuel;
    (destruct fuel as [|fuel]; [simpl in Hfuel; lia|]);
    rewrite read_symbol_eq, Hterm, str_in_stop, Hc0;
    rewrite bool_decide_eq_false_2 by done;
    change (str_eqb [c0] []) with false; cbv beta iota; unfold negb, andb.
  - unfold bind. rewrite (read_fd1_eof d Hafter).
    rewrite read_symbol_eq, Hterm. rewrite bool_decide_eq_false_2 by done.
    reflexivity.
  - simpl in Hbody. apply andb_true_iff in Hbody as [Hy Hbody].
    apply negb_true_iff in Hy.
    unfold bind. rewrite (read_fd1_cons d y body Hafter).
    rewrite (IH fuel y (buf ++ [[y]]) (advance y d)); try done.
    + simpl. by rewrite <- app_assoc.
    + by apply after_advance in Hafter.
    + simpl in Hfuel. lia.
Qed.

(** ... and stops at the first stop character. *)
Lemma read_symbol_to_stop (body : str) :
  forall (fuel : nat) (c0 : codepoint) (buf : list str) (d : CljDecoder)
         (w : codepoint) (rest : str),
    after (fd d) = body ++ w :: rest -> terminator d = None ->
    is_stop c0 = false -> forallb (fun c => negb (is_stop c)) body = true ->
    is_stop w = true ->
    (length body < fuel)%nat ->
    read_symbol fuel [c0] buf d
    = Ok (([w], buf ++ map (fun c => [c]) body ++ [[w]]), advance_all (body ++ [w]) d).
Proof.
  induction body as [|y body IH]; intros fuel c0 buf d w rest Hafter Hterm Hc0 Hbody Hw Hfuel;
    (destruct fuel as [|fuel]; [simpl in Hfuel; lia|]);
    rewrite read_symbol_eq, Hterm, str_in_stop, Hc0;
    rewrite bool_decide_eq_false_2 by done;
    change (str_eqb [c0] []) with false; cbv beta iota; unfold negb, andb.
  - unfold bind. rewrite (read_fd1_cons d w rest Hafter).
    rewrite read_symbol_eq. simpl terminator. rewrite Hterm, str_in_stop, Hw.
    rewrite bool_decide_eq_false_2 by done. reflexivity.
  - simpl in Hbody. apply andb_true_iff in Hbody as [Hy Hbody].
    apply negb_true_iff in Hy.
    unfold bind. rewrite (read_fd1_cons d y _ Hafter).
    rewrite (IH fuel y (buf ++ [[y]]) (advance y d) w rest); try done.
    + simpl. by rewrite <- app_assoc.
    + by apply after_advance in Hafter.
    + simpl in Hfuel. lia.
Qed.

Lemma decode_eq (fuel : nat) (d : CljDecoder) :
  decode (S fuel) d =
    match read_token (S fuel) d with
    | Ok (v, d') => match value_stack d' with
                    | [] => Ok (v, d')
                    | _ => decode fuel d'
                    end
    | Raise e => Raise e
    | OutOfFuel => OutOfFuel
    end.
Proof. reflexivity. Qed.

(** The loop of a character or a keyword in any state of the decoder: it
    reads on up to the first character that is the active terminator or a
    stop character, or to the end of the input. *)
Lemma read_symbol_run (body : str) :
  forall (fuel : nat) (c0 : codepoint) (buf : list str) (d : CljDecoder) (tail : str),
    after (fd d) = body ++ tail ->
    Some [c0] <> terminator d -> is_stop c0 = false ->
    forallb (fun c => negb (bool_decide (Some [c] = terminator d)) && negb (is_stop c)) body
    = true ->
    match tail with
    | [] => True
    | w :: _ => bool_decide (Some [w] = terminator d) || is_stop w = true
    end ->
    (length body < fuel)%nat ->
    read_symbol fuel [c0] buf d
    = Ok ((take 1 tail, buf ++ map (fun c => [c]) body ++ [take 1 tail]),
          advance_all (body ++ take 1 tail) d).
Proof.
  induction body as [|y b IH]; intros fuel c0 buf d tail Hafter Hc0 Hs0 Hbody Htail Hfuel;
    (destruct fuel as [|fuel]; [simpl in Hfuel; lia|]);
    rewrite read_symbol_eq, str_in_stop, Hs0;
    rewrite bool_decide_eq_false_2 by done;
    change (str_eqb [c0] []) with false; cbv beta iota; unfold negb, andb.
  - simpl in Hafter. destruct tail as [|w rest].
    + unfold bind. rewrite (read_fd1_eof d Hafter).
      rewrite read_symbol_eq. change (str_eqb [] []) with true.
      rewrite andb_false_r. reflexivity.
    + unfold bind. rewrite (read_fd1_cons d w rest Hafter).
      rewrite read_symbol_eq, str_in_stop. cbn [terminator advance].
      apply orb_true_iff in Htail as [Hw|Hw]; rewrite Hw; [reflexivity|].
      by rewrite andb_false_r.
  - cbn [forallb] in Hbody. apply andb_true_iff in Hbody as [Hy Hbody].
    apply andb_true_iff in Hy as [Hy1 Hy2].
    apply negb_true_iff in Hy1, Hy2. apply bool_decide_eq_false in Hy1.
    simpl in Hafter.
    unfold bind. rewrite (read_fd1_cons d y _ Hafter).
    rewrite (IH fuel y (buf ++ [[y]]) (advance y d) tail); try done.
    + simpl. by rewrite <- app_assoc.
    + by apply after_advance in Hafter.
    + simpl in Hfuel. lia.
Qed.

(** The last part of [__read_token] on a token that holds data. *)
Lemma close_and_append_top (v : value) (e : str) (d : CljDecoder) :
  value_stack d = [] -> terminator d <> Some e ->
  close_and_append v e true d = Ok (v, d).
Proof.
  intros Hstack Hterm. unfold close_and_append.
  rewrite bool_decide_eq_false_2 by congruence. by rewrite Hstack.
Qed.

Lemma close_and_append_member (v : value) (e : str) (d : CljDecoder)
    (fr : frame) (st : list frame) :
  value_stack d = fr :: st -> terminator d <> Some e ->
  close_and_append v e true d
  = Ok (v, set_stack d ({| f_scope := f_scope fr ++ [v]; f_term := f_term fr;
                           f_type := f_type fr; f_namespace := f_namespace fr |} :: st)
                     (f_term fr)).
Proof.
  intros Hstack Hterm. unfold close_and_append.
  rewrite bool_decide_eq_false_2 by congruence. by rewrite Hstack.
Qed.

Lemma close_and_append_closes (v : value) (e : str) (d : CljDecoder)
    (fr : frame) (st : list frame) (w : value) :
  value_stack d = fr :: st -> terminator d = Some e ->
  fold_frame (f_type fr) (f_namespace fr) (f_scope fr ++ [v]) v = Ok w ->
  close_and_append v e true d
  = Ok (w, match st with
           | [] => set_stack d [] (terminator d)
           | fr2 :: st' =>
               set_stack d ({| f_scope := f_scope fr2 ++ [w]; f_term := f_term fr2;
                               f_type := f_type fr2; f_namespace := f_namespace fr2 |}
                            :: st')
                         (f_term fr2)
           end).
Proof.
  intros Hstack Hterm Hfold. unfold close_and_append.
  rewrite bool_decide_eq_true_2 by congruence. rewrite Hstack, Hfold. cbn [rbind].
  by destruct st.
Qed.

(** [C8, amended] A character literal decodes to the text between the
    backslash and the end of the token, in every state of the decoder: the
    characters after the backslash are accumulated up to the first stop
    character, the active terminator or the end of the input, and the token
    value is the string of all of them, of one code point only when one
    character follows the backslash.  That string is what [__read_token]
    returns at the top level; inside a collection it becomes a member of the
    innermost frame, and when the token was ended by the active terminator
    the frame is closed with it as its last member and the folded frame is
    returned, as a new member of the enclosing frame if there is one.  So [\ab] decodes to
    the string [ab], and [[\a]] to the sequence of the string [a]. *)
Theorem char_literal_is_the_token_text (fuel : nat) (d : CljDecoder) (ws body tail : str) :
  after (fd d) = ws ++ BACKSLASH :: body ++ tail ->
  forallb is_stop ws = true ->
  terminator d <> Some [BACKSLASH] ->
  forallb (fun c => negb (bool_decide (Some [c] = terminator d)) && negb (is_stop c)) body
  = true ->
  match tail with
  | [] => True
  | w :: _ => bool_decide (Some [w] = terminator d) || is_stop w = true
  end ->
  (length ws + length body + 1 < fuel)%nat ->
  let d' := advance_all (ws ++ BACKSLASH :: body ++ take 1 tail) d in
  read_token fuel d = close_and_append (Atom (SStr body)) (take 1 tail) true d'
  /\ after (fd d') = drop 1 tail
  /\ (value_stack d = [] -> terminator d = None ->
      read_token fuel d = Ok (Atom (SStr body), d'))
  /\ (forall fr st,
        value_stack d = fr :: st -> terminator d <> Some (take 1 tail) ->
        read_token fuel d
        = Ok (Atom (SStr body),
              set_stack d' ({| f_scope := f_scope fr ++ [Atom (SStr body)];
                               f_term := f_term fr; f_type := f_type fr;
                               f_namespace := f_namespace fr |} :: st) (f_term fr)))
  /\ (forall fr st w,
        value_stack d = fr :: st -> terminator d = Some (take 1 tail) ->
        fold_frame (f_type fr) (f_namespace fr) (f_scope fr ++ [Atom (SStr body)])
                   (Atom (SStr body)) = Ok w ->
        read_token fuel d
        = Ok (w, match st with
                 | [] => set_stack d' [] (terminator d)
                 | fr2 :: st' =>
                     set_stack d' ({| f_scope := f_scope fr2 ++ [w]; f_term := f_term fr2;
                                      f_type := f_type fr2;
                                      f_namespace := f_namespace fr2 |} :: st')
                               (f_term fr2)
                 end))
  /\ loads 50 (py "\ab") = Ok (Atom (SStr (py "ab")))
  /\ loads 50 (py "[\a]") = Ok (VList [Atom (SStr (py "a"))])
  /\ loads 50 (py "[\ab)c]") = Ok (VList [Atom (SStr (py "ab)c"))]).
Proof.
  intros Hafter Hws Hterm Hbody Htail Hfuel d'.
  destruct (stack_advance_all (ws ++ BACKSLASH :: body ++ take 1 tail) d) as [Hst' Htm'].
  fold d' in Hst', Htm'.
  assert (read_token fuel d = close_and_append (Atom (SStr body)) (take 1 tail) true d')
    as Htoken.
  { destruct fuel as [|fuel]; [lia|].
    rewrite read_token_eq.
    rewrite (lead_char _ ws fuel d BACKSLASH (body ++ tail) Hafter Hws) by (done || lia).
    change (str_eqb [BACKSLASH] []) with false. cbv iota.
    unfold bind at 1.
    change (get_type_from_char [BACKSLASH] ?d)
      with (@Ok R _ ((Some T_char, false, @None (list N)), d)).
    cbv beta iota. unfold read_scalar. rewrite bind_assoc. unfold bind at 1.
    remember (advance BACKSLASH (advance_all ws d)) as d1 eqn:Hd1.
    assert (terminator d1 = terminator d) as Htm1
      by (subst d1; cbn [terminator advance]; by destruct (stack_advance_all ws d)).
    assert (after (fd d1) = body ++ tail) as Hafter1
      by (subst d1; cbn [fd advance after]; by rewrite (after_advance_all ws d _ Hafter)).
    rewrite (read_symbol_run body fuel BACKSLASH [] d1 tail);
      [|done|rewrite Htm1; congruence|done|by rewrite Htm1|by rewrite Htm1|lia].
    unfold bind, ret. cbn [app].
    unfold drop_last. rewrite removelast_last, join_singletons.
    f_equal. subst d' d1. unfold advance_all.
    rewrite !foldl_app. cbn [foldl]. rewrite ?foldl_app. reflexivity. }
  split; [exact Htoken|]. split.
  { subst d'. rewrite (after_advance_all _ d (drop 1 tail)); [done|].
    rewrite Hafter.
    transitivity (ws ++ BACKSLASH :: body ++ take 1 tail ++ drop 1 tail);
      [by rewrite take_drop|].
    rewrite <- (app_assoc ws). cbn [app]. by rewrite <- app_assoc. }
  split; [|split; [|split; [|repeat split; reflexivity]]].
  - intros Hstack Hnone. rewrite Htoken.
    apply close_and_append_top; [by rewrite Hst'|]. rewrite Htm', Hnone. done.
  - intros fr st Hstack Hneq. rewrite Htoken.
    apply close_and_append_member; [by rewrite Hst'|by rewrite Htm'].
  - intros fr st w Hstack Heq Hfold. rewrite Htoken.
    rewrite (close_and_append_closes _ _ _ fr st w); [by rewrite Htm'|by rewrite Hst'| |done].
    by rewrite Htm'.
Qed.

(** *** A string literal that is not closed *)

Lemma read_string_eq (fuel : nat) (cp c : str) (buf : list str) :
  read_string fuel cp c buf =
    if negb (str_eqb c [DQUOTE] && negb (str_eqb cp [BACKSLASH])) then
      match fuel with
      | O => out_of_fuel
      | S fuel' => bind (read_fd 1) (fun c' => read_string fuel' c c' (buf ++ [c]))
      end
    else ret (c, buf).
Proof. destruct fuel; reflexivity. Qed.

(** Once the input is exhausted, [read] gives the empty string again and
    again and the loop of a string goes on for ever. *)
Lemma read_string_at_eof (fuel : nat) :
  forall (cp : str) (buf : list str) (d : CljDecoder),
    after (fd d) = [] -> read_string fuel cp [] buf d = OutOfFuel.
Proof.
  induction fuel as [|fuel IH]; intros cp buf d Hafter; [reflexivity|].
  rewrite read_string_eq. change (str_eqb [] [DQUOTE]) with false. cbv beta iota.
  unfold negb, andb, bind. rewrite (read_fd1_eof d Hafter). by apply IH.
Qed.

Lemma read_string_never_closes (rest : str) :
  forall (fuel : nat) (p x : codepoint) (buf : list str) (d : CljDecoder),
    after (fd d) = rest -> no_close p (x :: rest) = true ->
    read_string fuel [p] [x] buf d = OutOfFuel.
Proof.
  induction rest as [|y rest IH]; intros fuel p x buf d Hafter Hno;
    simpl in Hno; apply andb_true_iff in Hno as [Hx Hno];
    rewrite read_string_eq, !str_eqb_single; unfold DQUOTE, BACKSLASH in *;
    rewrite Hx; (destruct fuel as [|fuel]; [reflexivity|]).
  - unfold bind. rewrite (read_fd1_eof d Hafter). by apply read_string_at_eof.
  - unfold bind. rewrite (read_fd1_cons d y rest Hafter).
    apply IH; [by apply after_advance in Hafter|done].
Qed.

(** A string literal in which every double quote directly follows a
    backslash is never closed: decoding it does not return. *)
Lemma unclosed_string_diverges (body : str) (fuel : nat) :
  match body with [] => true | x :: _ => no_close x body end = true ->
  loads fuel (DQUOTE :: body) = OutOfFuel.
Proof.
  intros Hno. destruct fuel as [|fuel]; [reflexivity|].
  unfold loads, load. rewrite decode_eq, read_token_eq.
  rewrite (lead_char _ [] fuel _ DQUOTE body) by (done || simpl; lia).
  change (str_eqb [DQUOTE] []) with false. cbv iota.
  unfold bind at 1.
  change (get_type_from_char [DQUOTE] ?d) with (@Ok R _ ((Some T_string, false, @None (list N)), d)).
  cbv beta iota. unfold read_scalar. rewrite !bind_assoc. unfold bind at 1.
  remember (advance DQUOTE (advance_all [] (CljDecoder_init (StringIO_of (DQUOTE :: body))))) as d1 eqn:Hd1.
  assert (after (fd d1) = body) as Hafter by (by subst d1).
  destruct body as [|x body].
  - rewrite (read_fd1_eof d1 Hafter). unfold bind.
    by rewrite read_string_at_eof.
  - rewrite (read_fd1_cons d1 x body Hafter). unfold bind.
    rewrite (read_string_never_closes body); [done|by apply after_advance in Hafter|done].
Qed.

(** [C6] The text of five characters made of a double quote, [a], two
    backslashes and a double quote encodes the string of [a] and a
    backslash; its last double quote follows an even run of backslashes and
    should close the literal.  The decoder looks at one character before the
    quote only, takes the quote as escaped and reads on past the end of the
    input: whatever the bound on its loops, it has not returned. *)
Theorem quote_after_two_backslashes_does_not_close (fuel : nat) :
  loads fuel [DQUOTE; 97; BACKSLASH; BACKSLASH; DQUOTE] = OutOfFuel.
Proof. by apply unclosed_string_diverges. Qed.

(** The same defect on the way back from the encoder: the text written for
    the string made of one backslash is never read to its end. *)
Lemma roundtrip_trailing_backslash_diverges (fuel : nat) :
  roundtrip fuel (SStr [BACKSLASH]) = OutOfFuel.
Proof.
  destruct fuel as [|fuel]; [reflexivity|].
  unfold roundtrip, dumps, dump. simpl do_encode. unfold rbind.
  change (getvalue _) with [DQUOTE; BACKSLASH; BACKSLASH; DQUOTE].
  by apply unclosed_string_diverges.
Qed.

(** ** Escape Resolver *)

Lemma re_name_pos (s : str) (n : nat) : re_name s = Some n -> (1 <= n)%nat.
Proof.
  revert n. induction s as [|c s IH]; intros n; simpl; [discriminate|].
  destruct (c =? 125); [discriminate|].
  destruct s as [|e s']; [discriminate|].
  destruct (e =? 125); [intros [= <-]; lia|].
  destruct (re_name (e :: s')) as [m|]; simpl; [intros [= <-]; lia|discriminate].
Qed.

Lemma ESCAPE_SEQUENCE_RE_inv (s : str) (n : nat) :
  ESCAPE_SEQUENCE_RE s = Some n -> exists c s', s = BACKSLASH :: c :: s'.
Proof.
  unfold ESCAPE_SEQUENCE_RE. destruct s as [|b [|c s']]; try discriminate.
  - destruct b as [|p]; [discriminate|].
    do 7 (destruct p as [p|p|]; try discriminate).
  - destruct b as [|p]; [discriminate|].
    do 7 (destruct p as [p|p|]; try discriminate). eauto.
Qed.

Lemma re_octal_pos (c : codepoint) (s : str) :
  is_octal_digit c = true -> (1 <= re_octal (c :: s))%nat.
Proof.
  intros Hc. unfold re_octal. rewrite Hc.
  repeat case_match; lia.
Qed.

(** A match holds at least two characters. *)
Lemma ESCAPE_SEQUENCE_RE_pos (s : str) (n : nat) :
  ESCAPE_SEQUENCE_RE s = Some n -> (2 <= n)%nat.
Proof.
  intros Hre. destruct (ESCAPE_SEQUENCE_RE_inv s n Hre) as (c & s' & ->).
  revert Hre. unfold ESCAPE_SEQUENCE_RE, BACKSLASH.
  destruct ((c =? 85) && re_dots 8 s'); [intros [= <-]; lia|].
  destruct ((c =? 117) && re_dots 4 s'); [intros [= <-]; lia|].
  destruct ((c =? 120) && re_dots 2 s'); [intros [= <-]; lia|].
  destruct (is_octal_digit c) eqn:Hoct.
  { pose proof (re_octal_pos c s' Hoct) as Hpos.
    remember (re_octal (c :: s')) as k. intros [= <-]. lia. }
  destruct ((c =? 78) && bool_decide (head s' = Some 123)).
  { destruct (re_name (tail s')); [intros [= <-]; lia|discriminate]. }
  destruct (existsb _ _); [intros [= <-]; lia|discriminate].
Qed.

Lemma re_sub_cons (fuel : nat) (c : codepoint) (rest : str) :
  re_sub (S fuel) (c :: rest) =
    match ESCAPE_SEQUENCE_RE (c :: rest) with
    | Some n =>
        rbind (decode_match (take n (c :: rest))) (fun m =>
        rbind (re_sub fuel (drop n (c :: rest))) (fun r => Ok (m ++ r)))
    | None => rbind (re_sub fuel rest) (fun r => Ok (c :: r))
    end.
Proof. reflexivity. Qed.

(** The bound of [re_sub] is immaterial once it covers the text. *)
Lemma re_sub_fuel (n : nat) :
  forall (s : str) (f1 f2 : nat),
    (length s <= n)%nat -> (length s <= f1)%nat -> (length s <= f2)%nat ->
    re_sub f1 s = re_sub f2 s /\ re_sub f1 s <> OutOfFuel.
Proof.
  induction n as [|n IH]; intros s f1 f2 Hn H1 H2.
  - destruct s; [|simpl in Hn; lia]. by destruct f1, f2.
  - destruct s as [|c rest]; [by destruct f1, f2|].
    destruct f1 as [|f1]; [simpl in H1; lia|].
    destruct f2 as [|f2]; [simpl in H2; lia|].
    simpl in Hn, H1, H2. rewrite !re_sub_cons.
    destruct (ESCAPE_SEQUENCE_RE (c :: rest)) as [k|] eqn:Hre.
    + pose proof (ESCAPE_SEQUENCE_RE_pos _ _ Hre) as Hk.
      assert (length (drop k (c :: rest)) <= length rest)%nat as Hdrop
        by (rewrite length_drop; simpl; lia).
      destruct (IH (drop k (c :: rest)) f1 f2) as [-> Hne]; [lia..|].
      split; [done|].
      unfold decode_match. destruct (existsb is_surrogate _); [done|].
      destruct (unicode_escape _); simpl; [|done].
      destruct (re_sub f2 _); simpl; done.
    + destruct (IH rest f1 f2) as [-> Hne]; [lia..|].
      split; [done|]. destruct (re_sub f2 rest); simpl; done.
Qed.

Lemma _decode_escapes_total (s : str) : _decode_escapes s <> OutOfFuel.
Proof. unfold _decode_escapes. by apply (re_sub_fuel (length s) s (length s) (length s)). Qed.

(** A match at the head of the text is replaced. *)
Lemma _decode_escapes_match (s : str) (n : nat) :
  ESCAPE_SEQUENCE_RE s = Some n ->
  _decode_escapes s =
    rbind (decode_match (take n s)) (fun m =>
    rbind (_decode_escapes (drop n s)) (fun r => Ok (m ++ r))).
Proof.
  intros Hre. pose proof (ESCAPE_SEQUENCE_RE_pos _ _ Hre) as Hn.
  unfold _decode_escapes. destruct s as [|c rest]; [discriminate|].
  simpl length. rewrite re_sub_cons, Hre.
  assert (length (drop n (c :: rest)) <= length rest)%nat as Hdrop
    by (rewrite length_drop; simpl; lia).
  by destruct (re_sub_fuel (length rest) (drop n (c :: rest)) (length rest)
                 (length (drop n (c :: rest)))) as [-> _].
Qed.

(** A character at which nothing matches is kept. *)
Lemma _decode_escapes_keep (c : codepoint) (rest : str) :
  ESCAPE_SEQUENCE_RE (c :: rest) = None ->
  _decode_escapes (c :: rest) = rbind (_decode_escapes rest) (fun r => Ok (c :: r)).
Proof. intros Hre. unfold _decode_escapes. simpl length. by rewrite re_sub_cons, Hre. Qed.

Lemma _decode_escapes_nil : _decode_escapes [] = Ok [].
Proof. reflexivity. Qed.

Lemma _decode_escapes_verbatim (s : str) :
  (forall k : nat, ESCAPE_SEQUENCE_RE (drop k s) = None) -> _decode_escapes s = Ok s.
Proof.
  induction s as [|c s IH]; intros Hno; [reflexivity|].
  rewrite _decode_escapes_keep by apply (Hno 0%nat).
  rewrite IH; [reflexivity|]. intros k. apply (Hno (S k)).
Qed.

Lemma no_escape_without_backslash (c : codepoint) (s : str) :
  c <> BACKSLASH -> ESCAPE_SEQUENCE_RE (c :: s) = None.
Proof.
  intros Hc. unfold ESCAPE_SEQUENCE_RE.
  destruct c as [|p]; [by destruct s|].
  do 7 (destruct p as [p|p|]; try by destruct s).
Qed.

(** *** Every recognized escape is replaced by its character *)

Lemma _decode_escapes_replaced (m rest : str) (c : codepoint) :
  ESCAPE_SEQUENCE_RE (m ++ rest) = Some (length m) ->
  existsb is_surrogate m = false ->
  unicode_escape m = Some [c] ->
  _decode_escapes (m ++ rest) = rbind (_decode_escapes rest) (fun r => Ok (c :: r)).
Proof.
  intros Hre Hsur Hesc. rewrite (_decode_escapes_match _ _ Hre).
  rewrite take_app_length, drop_app_length.
  unfold decode_match. by rewrite Hsur, Hesc.
Qed.

Lemma _decode_escapes_refused (m rest : str) :
  ESCAPE_SEQUENCE_RE (m ++ rest) = Some (length m) ->
  unicode_escape m = None ->
  _decode_escapes (m ++ rest)
  = Raise (if existsb is_surrogate m then UnicodeEncodeError m else UnicodeDecodeError m).
Proof.
  intros Hre Hesc. rewrite (_decode_escapes_match _ _ Hre).
  rewrite take_app_length. unfold decode_match. rewrite Hesc.
  by destruct (existsb is_surrogate m).
Qed.

Lemma hex_digit_facts (a : codepoint) :
  is_hex_digit a = true -> re_dot a = true /\ is_surrogate a = false /\ hex_value a < 16.
Proof.
  unfold is_hex_digit, is_ascii_digit, re_dot, is_surrogate, hex_value, is_ascii_digit, NEWLINE.
  intros H.
  destruct (N.leb_spec 48 a), (N.leb_spec a 57), (N.leb_spec 97 a), (N.leb_spec a 102),
    (N.leb_spec 65 a), (N.leb_spec a 70); simpl in H; try discriminate H;
    (split; [apply negb_true_iff, N.eqb_neq; lia|]);
    (split; [apply andb_false_iff; left; apply N.leb_gt; lia|]); simpl; lia.
Qed.

Lemma hex_digits_facts (ds : str) :
  forallb is_hex_digit ds = true ->
  forallb re_dot ds = true /\ existsb is_surrogate ds = false
  /\ hex_number ds < 16 ^ N.of_nat (length ds).
Proof.
  unfold hex_number.
  assert (forall acc k, acc < 16 ^ k ->
            forallb is_hex_digit ds = true ->
            forallb re_dot ds = true /\ existsb is_surrogate ds = false
            /\ foldl (fun acc c => 16 * acc + hex_value c) acc ds
               < 16 ^ (k + N.of_nat (length ds))) as Hgen.
  { induction ds as [|a ds IH]; intros acc k Hacc Hhex.
    - simpl. by rewrite N.add_0_r.
    - simpl in Hhex. apply andb_true_iff in Hhex as [Ha Hds].
      destruct (hex_digit_facts a Ha) as (Hdot & Hsur & Hval).
      destruct (IH (16 * acc + hex_value a) (k + 1)) as (Hdots & Hsurs & Hbound); [|done|].
      { rewrite N.pow_add_r. change (16 ^ 1) with 16. lia. }
      cbn [forallb existsb foldl]. rewrite Hdot, Hsur, Hdots, Hsurs.
      repeat split. replace (k + N.of_nat (length (a :: ds)))
        with (k + 1 + N.of_nat (length ds)) by (simpl length; lia). exact Hbound. }
  intros Hhex. destruct (Hgen 0 0) as (H1 & H2 & H3); [done|done|].
  by rewrite N.add_0_l in H3.
Qed.

Lemma hex_escape_replaced (letter : codepoint) (ds rest : str) :
  hex_form letter (length ds) ->
  forallb is_hex_digit ds = true ->
  (letter = 85 -> hex_number ds <= 1114111) ->
  _decode_escapes (BACKSLASH :: letter :: ds ++ rest)
  = rbind (_decode_escapes rest) (fun r => Ok (hex_number ds :: r)).
Proof.
  intros Hform Hhex Hmax.
  destruct (hex_digits_facts ds Hhex) as (Hdot & Hsur & Hbound).
  assert (hex_number ds <= 1114111) as Hval.
  { destruct Hform as [[-> Hn]|[[-> Hn]|[-> Hn]]]; [| |by apply Hmax];
      rewrite Hn in Hbound; simpl in Hbound; lia. }
  assert (re_dots (length ds) (ds ++ rest) = true) as Hdots.
  { unfold re_dots. rewrite take_app_length, Hdot, length_app.
    by rewrite (proj2 (Nat.leb_le _ _)) by lia. }
  change (BACKSLASH :: letter :: ds ++ rest) with ((BACKSLASH :: letter :: ds) ++ rest).
  apply _decode_escapes_replaced.
  - unfold ESCAPE_SEQUENCE_RE, BACKSLASH. cbn [app length].
    destruct Hform as [[-> Hn]|[[-> Hn]|[-> Hn]]]; rewrite Hn in Hdots |- *;
      cbn [N.eqb Pos.eqb andb]; by rewrite Hdots.
  - cbn [existsb]. rewrite Hsur. destruct Hform as [[-> _]|[[-> _]|[-> _]]]; reflexivity.
  - unfold unicode_escape, BACKSLASH. rewrite Hhex.
    apply N.leb_le in Hval. rewrite Hval.
    destruct Hform as [[-> _]|[[-> _]|[-> _]]]; reflexivity.
Qed.

Lemma hex_escape_refused (letter : codepoint) (ds rest : str) :
  hex_form letter (length ds) ->
  forallb re_dot ds = true ->
  forallb is_hex_digit ds = false ->
  _decode_escapes (BACKSLASH :: letter :: ds ++ rest)
  = Raise (if existsb is_surrogate ds
           then UnicodeEncodeError (BACKSLASH :: letter :: ds)
           else UnicodeDecodeError (BACKSLASH :: letter :: ds)).
Proof.
  intros Hform Hdot Hhex.
  assert (re_dots (length ds) (ds ++ rest) = true) as Hdots.
  { unfold re_dots. rewrite take_app_length, Hdot, length_app.
    by rewrite (proj2 (Nat.leb_le _ _)) by lia. }
  change (BACKSLASH :: letter :: ds ++ rest) with ((BACKSLASH :: letter :: ds) ++ rest).
  rewrite _decode_escapes_refused.
  - cbn [existsb]. destruct Hform as [[-> _]|[[-> _]|[-> _]]]; reflexivity.
  - unfold ESCAPE_SEQUENCE_RE, BACKSLASH. cbn [app length].
    destruct Hform as [[-> Hn]|[[-> Hn]|[-> Hn]]]; rewrite Hn in Hdots |- *;
      cbn [N.eqb Pos.eqb andb]; by rewrite Hdots.
  - unfold unicode_escape, BACKSLASH. rewrite Hhex.
    destruct Hform as [[-> _]|[[-> _]|[-> _]]]; reflexivity.
Qed.

Lemma single_escape_replaced (k c : codepoint) (rest : str) :
  single_escape k = Some c ->
  _decode_escapes (BACKSLASH :: k :: rest)
  = rbind (_decode_escapes rest) (fun r => Ok (c :: r)).
Proof.
  intros Hk. change (BACKSLASH :: k :: rest) with ([BACKSLASH; k] ++ rest).
  unfold single_escape in Hk.
  repeat match type of Hk with
         | (if ?k =? ?n then _ else _) = _ =>
             destruct (N.eqb_spec k n) as [->|_];
               [injection Hk as <-; by apply _decode_escapes_replaced|]
         end.
  discriminate.
Qed.

Lemma octal_escape_replaced (ds rest : str) :
  (1 <= length ds <= 3)%nat ->
  forallb is_octal_digit ds = true ->
  length ds = 3%nat \/ match rest with [] => True | x :: _ => is_octal_digit x = false end ->
  _decode_escapes (BACKSLASH :: ds ++ rest)
  = rbind (_decode_escapes rest) (fun r => Ok (octal_number ds :: r)).
Proof.
  intros Hlen Hoct Hend.
  assert (forall a, is_octal_digit a = true ->
            (a =? 85) = false /\ (a =? 117) = false /\ (a =? 120) = false
            /\ is_surrogate a = false) as Hdigit.
  { intros a Ha. unfold is_octal_digit in Ha. apply andb_true_iff in Ha as [H1 H2].
    apply N.leb_le in H1, H2. unfold is_surrogate.
    repeat split; try (apply N.eqb_neq; lia).
    apply andb_false_iff. left. apply N.leb_gt. lia. }
  change (BACKSLASH :: ds ++ rest) with ((BACKSLASH :: ds) ++ rest).
  destruct ds as [|a [|b [|c [|e ds]]]]; simpl in Hlen; try lia;
    cbn [forallb] in Hoct;
    repeat match type of Hoct with
           | _ && _ = true => apply andb_true_iff in Hoct as [? Hoct]
           end.
  - destruct (Hdigit a) as (Ha1 & Ha2 & Ha3 & Ha4); [done|].
    apply _decode_escapes_replaced.
    + unfold ESCAPE_SEQUENCE_RE, BACKSLASH. cbn [app length].
      rewrite Ha1, Ha2, Ha3. cbn [andb]. rewrite H. cbn [re_octal]. rewrite H.
      destruct Hend as [Hend|Hend]; [discriminate|].
      destruct rest as [|x rest]; [reflexivity|]. by rewrite Hend.
    + cbn [existsb]. by rewrite Ha4.
    + unfold unicode_escape, BACKSLASH. rewrite Ha1, Ha2, Ha3. cbn [orb]. by rewrite H.
  - destruct (Hdigit a) as (Ha1 & Ha2 & Ha3 & Ha4); [done|].
    destruct (Hdigit b) as (_ & _ & _ & Hb4); [done|].
    apply _decode_escapes_replaced.
    + unfold ESCAPE_SEQUENCE_RE, BACKSLASH. cbn [app length].
      rewrite Ha1, Ha2, Ha3. cbn [andb]. rewrite H. cbn [re_octal]. rewrite H, H0.
      destruct Hend as [Hend|Hend]; [discriminate|].
      destruct rest as [|x rest]; [reflexivity|]. by rewrite Hend.
    + cbn [existsb]. by rewrite Ha4, Hb4.
    + unfold unicode_escape, BACKSLASH. rewrite Ha1, Ha2, Ha3. cbn [orb]. by rewrite H.
  - destruct (Hdigit a) as (Ha1 & Ha2 & Ha3 & Ha4); [done|].
    destruct (Hdigit b) as (_ & _ & _ & Hb4); [done|].
    destruct (Hdigit c) as (_ & _ & _ & Hc4); [done|].
    apply _decode_escapes_replaced.
    + unfold ESCAPE_SEQUENCE_RE, BACKSLASH. cbn [app length].
      rewrite Ha1, Ha2, Ha3. cbn [andb]. rewrite H. cbn [re_octal]. by rewrite H, H0, H1.
    + cbn [existsb]. by rewrite Ha4, Hb4, Hc4.
    + unfold unicode_escape, BACKSLASH. rewrite Ha1, Ha2, Ha3. cbn [orb]. by rewrite H.
Qed.

Lemma re_name_run (name rest : str) :
  name <> [] -> forallb (fun c => negb (c =? 125)) name = true ->
  re_name (name ++ 125 :: rest) = Some (length name).
Proof.
  induction name as [|c name IH]; [done|]. intros _ Hname.
  cbn [forallb] in Hname. apply andb_true_iff in Hname as [Hc Hname].
  apply negb_true_iff in Hc.
  cbn [app re_name]. rewrite Hc.
  destruct name as [|c' name].
  - cbn [app]. change (125 =? 125) with true. reflexivity.
  - cbn [app]. cbn [forallb] in Hname. pose proof Hname as Hname'.
    apply andb_true_iff in Hname' as [Hc' _]. apply negb_true_iff in Hc'. rewrite Hc'.
    change (c' :: name ++ 125 :: rest) with ((c' :: name) ++ 125 :: rest).
    by rewrite IH.
Qed.

Lemma named_escape (name rest : str) :
  name <> [] -> forallb (fun c => negb (c =? 125)) name = true ->
  existsb is_surrogate name = false ->
  _decode_escapes (py "\N{" ++ name ++ py "}" ++ rest)
  = match unicodedata_lookup name with
    | Some c => rbind (_decode_escapes rest) (fun r => Ok (c :: r))
    | None => Raise (UnicodeDecodeError (py "\N{" ++ name ++ py "}"))
    end.
Proof.
  intros Hne Hname Hsur.
  assert (existsb is_surrogate (py "\N{" ++ name ++ py "}") = false) as Hsur'.
  { rewrite !existsb_app, Hsur. reflexivity. }
  assert (ESCAPE_SEQUENCE_RE ((py "\N{" ++ name ++ py "}") ++ rest)
          = Some (length (py "\N{" ++ name ++ py "}"))) as Hre.
  { unfold ESCAPE_SEQUENCE_RE.
    change ((py "\N{" ++ name ++ py "}") ++ rest)
      with (92 :: 78 :: 123 :: (name ++ py "}") ++ rest).
    cbn [N.eqb Pos.eqb andb is_octal_digit N.leb N.compare Pos.compare Pos.compare_cont
         head tail].
    rewrite bool_decide_eq_true_2 by done.
    rewrite <- app_assoc. change (py "}" ++ rest) with (125 :: rest).
    rewrite (re_name_run name rest Hne Hname).
    f_equal. change (py "\N{" ++ name ++ py "}") with (92 :: 78 :: 123 :: name ++ [125]).
    cbn [length]. rewrite length_app. simpl. lia. }
  assert (unicode_escape (py "\N{" ++ name ++ py "}")
          = (fun x => [x]) <$> unicodedata_lookup name) as Hesc.
  { change (py "\N{" ++ name ++ py "}") with (92 :: 78 :: 123 :: name ++ [125]).
    unfold unicode_escape.
    cbn [N.eqb Pos.eqb orb is_octal_digit N.leb N.compare Pos.compare Pos.compare_cont
         andb tail].
    unfold drop_last. by rewrite removelast_last. }
  replace (py "\N{" ++ name ++ py "}" ++ rest) with ((py "\N{" ++ name ++ py "}") ++ rest)
    by (by rewrite <- !app_assoc).
  destruct (unicodedata_lookup name) as [c|] eqn:Hlookup.
  - by apply _decode_escapes_replaced.
  - rewrite _decode_escapes_refused by done. by rewrite Hsur'.
Qed.

(** [C9, amended] The Escape Resolver always terminates, keeps the text in
    which its pattern matches nowhere as it is (an isolated backslash, a
    backslash before a letter that names no escape, a backslash-u followed
    by fewer than four characters), and rewrites every recognized escape to
    its literal character: a single-character escape to the character it
    names, a backslash-x, backslash-u or backslash-U followed by two, four
    or eight hexadecimal digits to the character of that number, a
    backslash followed by one to three octal digits to the character of that
    number, a named escape to the character of that name.  It is not true
    that it never raises: the pattern takes any two, four or eight
    characters other than a newline after backslash-x, backslash-u and
    backslash-U, and any name between the braces; when these are no
    hexadecimal digits, or no known name, the [unicode-escape] codec raises
    [UnicodeDecodeError], and [UnicodeEncodeError] when one of the
    characters is a surrogate. *)
Theorem escapes_verbatim_unless_matched :
  (forall s, (forall k : nat, ESCAPE_SEQUENCE_RE (drop k s) = None) ->
             _decode_escapes s = Ok s)
  /\ (forall c rest, ESCAPE_SEQUENCE_RE (c :: rest) = None ->
        _decode_escapes (c :: rest)
        = rbind (_decode_escapes rest) (fun r => Ok (c :: r)))
  /\ (forall s, _decode_escapes s <> OutOfFuel)
  /\ (forall k c rest, single_escape k = Some c ->
        _decode_escapes (BACKSLASH :: k :: rest)
        = rbind (_decode_escapes rest) (fun r => Ok (c :: r)))
  /\ (forall letter ds rest,
        hex_form letter (length ds) ->
        forallb is_hex_digit ds = true ->
        (letter = 85 -> hex_number ds <= 1114111) ->
        _decode_escapes (BACKSLASH :: letter :: ds ++ rest)
        = rbind (_decode_escapes rest) (fun r => Ok (hex_number ds :: r)))
  /\ (forall ds rest,
        (1 <= length ds <= 3)%nat ->
        forallb is_octal_digit ds = true ->
        length ds = 3%nat
        \/ match rest with [] => True | x :: _ => is_octal_digit x = false end ->
        _decode_escapes (BACKSLASH :: ds ++ rest)
        = rbind (_decode_escapes rest) (fun r => Ok (octal_number ds :: r)))
  /\ (forall name rest,
        name <> [] -> forallb (fun c => negb (c =? 125)) name = true ->
        existsb is_surrogate name = false ->
        _decode_escapes (py "\N{" ++ name ++ py "}" ++ rest)
        = match unicodedata_lookup name with
          | Some c => rbind (_decode_escapes rest) (fun r => Ok (c :: r))
          | None => Raise (UnicodeDecodeError (py "\N{" ++ name ++ py "}"))
          end)
  /\ (forall letter ds rest,
        hex_form letter (length ds) ->
        forallb re_dot ds = true ->
        forallb is_hex_digit ds = false ->
        _decode_escapes (BACKSLASH :: letter :: ds ++ rest)
        = Raise (if existsb is_surrogate ds
                 then UnicodeEncodeError (BACKSLASH :: letter :: ds)
                 else UnicodeDecodeError (BACKSLASH :: letter :: ds)))
  /\ _decode_escapes (py "a\") = Ok (py "a\")
  /\ _decode_escapes (py "\q \uab") = Ok (py "\q \uab")
  /\ _decode_escapes (py "\x41\n\\\101") = Ok [65; 10; 92; 65].
Proof.
  split; [exact _decode_escapes_verbatim|].
  split; [exact _decode_escapes_keep|].
  split; [exact _decode_escapes_total|].
  split; [exact single_escape_replaced|].
  split; [exact hex_escape_replaced|].
  split; [exact octal_escape_replaced|].
  split; [exact named_escape|].
  split; [exact hex_escape_refused|].
  repeat split; reflexivity.
Qed.

(** ** Integers: [str] and [int] *)

Lemma py_string_of_uint (d : Decimal.uint) : py (NilEmpty.string_of_uint d) = uint_codes d.
Proof.
  unfold py. induction d; [reflexivity|..];
    simpl NilEmpty.string_of_uint; simpl list_ascii_of_string; simpl map;
    rewrite IHd; reflexivity.
Qed.

Lemma digits_acc (d : Decimal.uint) (p : positive) :
  foldl digit_step (Some (N.pos p)) (uint_codes d) = Some (N.pos (Pos.of_uint_acc d p)).
Proof.
  revert p. induction d; intros p; simpl; [reflexivity|..];
    rewrite <- IHd; do 2 f_equal; lia.
Qed.

Lemma digits_zero (d : Decimal.uint) :
  foldl digit_step (Some 0) (uint_codes d) = Some (Pos.of_uint d).
Proof.
  induction d; simpl; [reflexivity|exact IHd|..]; apply digits_acc.
Qed.

Lemma py_digits_uint (d : Decimal.uint) :
  d <> Decimal.Nil ->
  py_digits (uint_codes d)
  = if N.of_nat (length (uint_codes d)) <=? int_max_str_digits
    then Some (Pos.of_uint d) else None.
Proof.
  intros Hd. unfold py_digits.
  destruct (uint_codes d) eqn:Hcodes; [by destruct d|].
  rewrite <- Hcodes. by rewrite digits_zero.
Qed.

Lemma uint_codes_digits (d : Decimal.uint) : forallb is_ascii_digit (uint_codes d) = true.
Proof. induction d; simpl; auto. Qed.

Lemma py_string_of_uint_nonnil (d : Decimal.uint) :
  d <> Decimal.Nil -> py (NilZero.string_of_uint d) = uint_codes d.
Proof. intros Hd. destruct d; [done|..]; apply py_string_of_uint. Qed.

(** A decimal numeral as [str] writes it: the digits, after a minus sign for
    a negative integer. *)
Lemma str_of_Z_cases (z : Z) :
  exists d, d <> Decimal.Nil
    /\ Z.of_N (Pos.of_uint d) = Z.abs z
    /\ str_of_Z z = (if (z <? 0)%Z then [45] else []) ++ uint_codes d.
Proof.
  unfold str_of_Z. destruct z as [|p|p]; simpl.
  - exists (Decimal.D0 Decimal.Nil). done.
  - exists (Pos.to_uint p).
    pose proof (DecimalPos.Unsigned.to_uint_nonnil p) as Hnil.
    split; [done|]. split; [by rewrite DecimalPos.Unsigned.of_to|].
    by apply py_string_of_uint_nonnil.
  - exists (Pos.to_uint p).
    pose proof (DecimalPos.Unsigned.to_uint_nonnil p) as Hnil.
    split; [done|]. split; [by rewrite DecimalPos.Unsigned.of_to|].
    change (py (String "-" ?s)) with (45 :: py s).
    by rewrite py_string_of_uint_nonnil.
Qed.

(** [int(str(z)) == z] *)
Lemma int_digits_cases (z : Z) :
  exists d, d <> Decimal.Nil
    /\ Z.of_N (Pos.of_uint d) = Z.abs z
    /\ str_of_Z z = (if (z <? 0)%Z then [45] else []) ++ uint_codes d
    /\ int_digits z = length (uint_codes d).
Proof.
  destruct (str_of_Z_cases z) as (d & Hd & Hval & Htext).
  exists d. repeat split; try done.
  unfold int_digits. rewrite Htext, length_app.
  destruct (z <? 0)%Z; simpl; lia.
Qed.

(** [int(str(z))] is [z], up to the interpreter's limit on the digits. *)
Lemma py_int_str_of_Z (z : Z) :
  py_int (str_of_Z z)
  = if N.of_nat (int_digits z) <=? int_max_str_digits then Some z else None.
Proof.
  destruct (int_digits_cases z) as (d & Hd & Hval & -> & ->).
  destruct (z <? 0)%Z eqn:Hneg; simpl app.
  - unfold py_int. rewrite (py_digits_uint d Hd).
    destruct (_ <=? _); [|reflexivity]. simpl. f_equal.
    apply Z.ltb_lt in Hneg. lia.
  - assert (py_int (uint_codes d) = Z.of_N <$> py_digits (uint_codes d)) as ->
      by (destruct d; done).
    rewrite (py_digits_uint d Hd).
    destruct (_ <=? _); [|reflexivity]. simpl. f_equal.
    apply Z.ltb_ge in Hneg. lia.
Qed.

(** ** Number tokens *)

Lemma read_number_eq (fuel : nat) (c : str) (buf : list str) :
  read_number fuel c buf =
    if isdigit c || str_in c _EXTRA_NUM_CHARS then
      match fuel with
      | O => out_of_fuel
      | S fuel' => bind (read_fd 1) (fun c' => read_number fuel' c' (buf ++ [c]))
      end
    else ret (c, buf).
Proof. destruct fuel; reflexivity. Qed.

(** A number token that runs to the end of the input is read whole. *)
Lemma read_number_to_eof (body : str) :
  forall (fuel : nat) (c0 : codepoint) (buf : list str) (d : CljDecoder),
    after (fd d) = body ->
    is_numeric c0 = true -> forallb is_numeric body = true ->
    (length body < fuel)%nat ->
    read_number fuel [c0] buf d
    = Ok (([], buf ++ map (fun c => [c]) (c0 :: body)), advance_all body d).
Proof.
  induction body as [|y body IH]; intros fuel c0 buf d Hafter Hc0 Hbody Hfuel;
    (destruct fuel as [|fuel]; [simpl in Hfuel; lia|]);
    rewrite read_number_eq; unfold is_numeric in Hc0; rewrite Hc0; unfold bind.
  - rewrite (read_fd1_eof d Hafter). rewrite read_number_eq. reflexivity.
  - simpl in Hbody. apply andb_true_iff in Hbody as [Hy Hbody].
    rewrite (read_fd1_cons d y body Hafter).
    rewrite (IH fuel y (buf ++ [[c0]]) (advance y d)); try done.
    + simpl. by rewrite <- app_assoc.
    + by apply after_advance in Hafter.
    + simpl in Hfuel. lia.
Qed.

Lemma isdigit_single (c : codepoint) : isdigit [c] = char_isdigit c.
Proof. unfold isdigit. simpl. by rewrite andb_true_r. Qed.

Lemma lead_number_not_stop (c : codepoint) :
  isdigit [c] || str_eqb [c] (py "-") = true -> is_stop c = false.
Proof.
  rewrite isdigit_single. change (py "-") with [45]. rewrite str_eqb_single.
  unfold char_isdigit, is_ascii_digit, is_stop. simpl existsb.
  intros H. apply orb_true_iff in H as [H|H].
  - destruct (N.ltb_spec c 128) as [Hlt|Hge].
    + apply andb_true_iff in H as [H1 H2].
      apply N.leb_le in H1. apply N.leb_le in H2.
      repeat match goal with
             | |- context [N.eqb c ?k] => destruct (N.eqb_spec c k); [lia|]
             end. reflexivity.
    + repeat match goal with
             | |- context [N.eqb c ?k] => destruct (N.eqb_spec c k); [lia|]
             end. reflexivity.
  - apply N.eqb_eq in H. by subst.
Qed.

(** A text made of a number token decodes to the number it denotes. *)
Lemma decode_number_token (c0 : codepoint) (body : str) (v : value) (fuel : nat) :
  isdigit [c0] || str_eqb [c0] (py "-") = true ->
  forallb is_numeric (c0 :: body) = true ->
  number (c0 :: body) = Ok v ->
  (S (length body) < fuel)%nat ->
  loads fuel (c0 :: body) = Ok v.
Proof.
  intros Hlead Hnum Hval Hfuel.
  destruct fuel as [|fuel]; [lia|].
  simpl in Hnum. apply andb_true_iff in Hnum as [Hc0 Hbody].
  unfold loads, load. rewrite decode_eq, read_token_eq.
  rewrite (lead_char _ [] fuel _ c0 body);
    [|done|done|by apply lead_number_not_stop|simpl; lia].
  change (str_eqb [c0] []) with false. cbv iota.
  remember (advance c0 (advance_all [] (CljDecoder_init (StringIO_of (c0 :: body)))))
    as d1 eqn:Hd1.
  assert (get_type_from_char [c0] d1 = Ok ((Some T_number, false, None), d1)) as Htype
    by (unfold get_type_from_char; by rewrite Hlead).
  unfold bind at 1. rewrite Htype. cbv beta iota.
  unfold read_scalar. rewrite !bind_assoc. unfold bind at 1.
  assert (value_stack (advance_all body d1) = [] /\ terminator (advance_all body d1) = None)
    as [Hstack Hterm]
    by (destruct (stack_advance_all body d1) as [-> ->]; by subst d1).
  rewrite (read_number_to_eof body fuel c0 [] d1); [|by subst d1|done|done|lia].
  cbv beta iota. rewrite app_nil_l, join_singletons.
  unfold bind at 1, lift. rewrite Hval.
  change (str_in [] _COLL_OPEN_CHARS) with false. cbv iota.
  unfold bind, ret, close_and_append. rewrite Hterm.
  rewrite bool_decide_eq_false_2 by done. rewrite Hstack.
  simpl. rewrite ?Hstack. reflexivity.
Qed.

Lemma ascii_digit_numeric (c : codepoint) : is_ascii_digit c = true -> is_numeric c = true.
Proof.
  intros H. unfold is_numeric. rewrite isdigit_single. unfold char_isdigit.
  unfold is_ascii_digit in H. apply andb_true_iff in H as [H1 H2].
  apply N.leb_le in H2.
  destruct (N.ltb_spec c 128); [|lia].
  unfold is_ascii_digit. rewrite H1. by apply N.leb_le in H2 as ->.
Qed.

Lemma digits_numeric (s : str) :
  forallb is_ascii_digit s = true -> forallb is_numeric s = true.
Proof.
  induction s as [|c s IH]; simpl; [done|].
  intros H. apply andb_true_iff in H as [Hc Hs].
  by rewrite (ascii_digit_numeric c Hc), IH.
Qed.

Lemma digits_not_decimal (pre s : str) :
  s <> [] -> forallb is_ascii_digit s = true -> endswith1 (pre ++ s) 77 = false.
Proof.
  intros Hs Hdig. unfold endswith1. rewrite last_app.
  destruct (last s) as [x|] eqn:Hlast; [|by apply last_None in Hlast].
  apply last_Some_elem_of in Hlast.
  assert (is_ascii_digit x = true) as Hx.
  { rewrite forallb_forall in Hdig. apply Hdig. by apply list_elem_of_In. }
  unfold is_ascii_digit in Hx. apply andb_true_iff in Hx as [_ Hx].
  apply N.leb_le in Hx. apply N.eqb_neq. lia.
Qed.

(** What [dumps] returns for a scalar. *)
Lemma dumps_scalar (fuel : nat) (a : scalar) :
  dumps (S fuel) ∅ (Imm a) = Ok (scalar_text a).
Proof.
  unfold dumps, dump. simpl do_encode. unfold rbind, write, getvalue, fd_write.
  simpl. by rewrite app_nil_r, rev_involutive, drop_nil, app_nil_r.
Qed.

Lemma roundtrip_eq (fuel : nat) (a : scalar) :
  roundtrip (S fuel) a = loads (S fuel) (scalar_text a).
Proof. unfold roundtrip. by rewrite dumps_scalar. Qed.

(** What the Numeric Literal Parser makes of the text of an integer: the
    integer, or what [float] makes of the text when [int] refuses it for
    its number of digits. *)
Lemma number_str_of_Z (z : Z) :
  number (str_of_Z z)
  = if N.of_nat (int_digits z) <=? int_max_str_digits then Ok (Atom (SInt z))
    else match float_of_str (str_of_Z z) with
         | Some f => Ok (Atom (SFloat f))
         | None => Raise (ValueError_float (str_of_Z z))
         end.
Proof.
  destruct (str_of_Z_cases z) as (d & Hd & _ & Htext).
  assert (uint_codes d <> []) as Hne by (by destruct d).
  unfold number. rewrite py_int_str_of_Z.
  rewrite Htext at 1. rewrite (digits_not_decimal _ _ Hne (uint_codes_digits d)).
  by destruct (_ <=? _).
Qed.

(** [loads(dumps(z)) == z] for every integer [z] that [int] converts. *)
Lemma roundtrip_int (z : Z) (fuel : nat) :
  N.of_nat (int_digits z) <= int_max_str_digits ->
  (S (length (str_of_Z z)) < fuel)%nat ->
  roundtrip fuel (SInt z) = Ok (Atom (SInt z)).
Proof.
  intros Hlimit Hfuel.
  destruct fuel as [|fuel]; [lia|]. rewrite roundtrip_eq.
  change (scalar_text (SInt z)) with (str_of_Z z).
  destruct (str_of_Z_cases z) as (d & Hd & _ & Htext).
  pose proof (uint_codes_digits d) as Hdig.
  assert (uint_codes d <> []) as Hne by (by destruct d).
  assert (number (str_of_Z z) = Ok (Atom (SInt z))) as Hnum.
  { rewrite number_str_of_Z. by apply N.leb_le in Hlimit as ->. }
  revert Hfuel Hnum. rewrite Htext.
  destruct (z <? 0)%Z; simpl app; intros Hfuel Hnum.
  - apply decode_number_token; [done| |done|simpl in Hfuel; lia].
    simpl. by apply digits_numeric.
  - destruct (uint_codes d) as [|c0 body] eqn:Hcodes; [done|].
    simpl in Hdig. apply andb_true_iff in Hdig as [Hc0 Hbody].
    apply decode_number_token; [| |done|simpl in Hfuel; lia].
    + rewrite isdigit_single. unfold char_isdigit.
      pose proof Hc0 as Hc0'. unfold is_ascii_digit in Hc0'.
      apply andb_true_iff in Hc0' as [_ H2]. apply N.leb_le in H2.
      destruct (N.ltb_spec c0 128); [|lia]. by rewrite Hc0.
    + simpl. by rewrite (ascii_digit_numeric c0 Hc0), digits_numeric.
Qed.

(** ** String literals *)

Lemma read_string_closes (body : str) :
  forall (fuel : nat) (p x : codepoint) (buf : list str) (d : CljDecoder) (rest : str),
    x :: after (fd d) = body ++ DQUOTE :: rest ->
    no_close p body = true ->
    last (p :: body) <> Some BACKSLASH ->
    (length body <= fuel)%nat ->
    read_string fuel [p] [x] buf d
    = Ok (([DQUOTE], buf ++ map (fun c => [c]) body),
          advance_all (tail (body ++ [DQUOTE])) d).
Proof.
  induction body as [|y b IH]; intros fuel p x buf d rest Hstream Hno Hlast Hfuel.
  - simpl in Hstream. injection Hstream as -> Hafter.
    rewrite read_string_eq, !str_eqb_single.
    assert ((p =? BACKSLASH) = false) as ->
      by (apply N.eqb_neq; intros ->; by apply Hlast).
    simpl. by rewrite app_nil_r.
  - simpl in Hstream. injection Hstream as -> Hafter.
    simpl in Hno. apply andb_true_iff in Hno as [Hy Hno].
    rewrite read_string_eq, !str_eqb_single. rewrite Hy.
    destruct fuel as [|fuel]; [simpl in Hfuel; lia|].
    assert (exists x' r', b ++ DQUOTE :: rest = x' :: r' /\ b ++ [DQUOTE] = x' :: tail (b ++ [DQUOTE]))
      as (x' & r' & Hx' & Htail) by (destruct b; simpl; eauto).
    rewrite Hx' in Hafter.
    unfold bind. rewrite (read_fd1_cons d x' r' Hafter).
    rewrite (IH fuel y x' (buf ++ [[y]]) (advance x' d) rest).
    + simpl tail. rewrite Htail. simpl. by rewrite <- app_assoc.
    + rewrite (after_advance d x' r' Hafter). done.
    + done.
    + by rewrite last_cons_cons in Hlast.
    + simpl in Hfuel. lia.
Qed.

(** A string literal read by [__read_token] at the top level: the text
    between the quotes goes through the Escape Resolver. *)
Lemma read_string_token (fuel : nat) (d : CljDecoder) (ws body rest s : str) :
  after (fd d) = ws ++ DQUOTE :: body ++ DQUOTE :: rest ->
  forallb is_stop ws = true ->
  value_stack d = [] -> terminator d = None ->
  (forall p, no_close p body = true) ->
  head body <> Some DQUOTE ->
  last body <> Some BACKSLASH ->
  _decode_escapes body = Ok s ->
  (length ws + length body < fuel)%nat ->
  exists d', read_token fuel d = Ok (Atom (SStr s), d')
    /\ after (fd d') = rest /\ value_stack d' = [] /\ terminator d' = None.
Proof.
  intros Hafter Hws Hstack Hterm Hno Hhead Hlast Hesc Hfuel.
  destruct fuel as [|fuel]; [lia|].
  rewrite read_token_eq.
  rewrite (lead_char _ ws fuel d DQUOTE (body ++ DQUOTE :: rest) Hafter Hws) by (done || lia).
  change (str_eqb [DQUOTE] []) with false. cbv iota.
  remember (advance DQUOTE (advance_all ws d)) as d1 eqn:Hd1.
  assert (after (fd d1) = body ++ DQUOTE :: rest) as Hafter1
    by (subst d1; simpl; by rewrite (after_advance_all ws d _ Hafter)).
  assert (value_stack d1 = [] /\ terminator d1 = None) as [Hstack1 Hterm1]
    by (subst d1; simpl; by destruct (stack_advance_all ws d) as [-> ->]).
  assert (get_type_from_char [DQUOTE] d1 = Ok ((Some T_string, false, None), d1)) as Htype
    by reflexivity.
  unfold bind at 1. rewrite Htype. cbv beta iota.
  unfold read_scalar. rewrite !bind_assoc. unfold bind at 1.
  assert (exists x r, body ++ DQUOTE :: rest = x :: r
                      /\ body ++ [DQUOTE] = x :: tail (body ++ [DQUOTE])
                      /\ no_close x body = true /\ last (x :: body) <> Some BACKSLASH)
    as (x & r & Hx & Htail & Hnox & Hlastx).
  { destruct body as [|y b]; simpl.
    - exists DQUOTE, rest. repeat split; done.
    - exists y, (b ++ DQUOTE :: rest).
      repeat split; try done; try (by rewrite last_cons_cons).
      specialize (Hno BACKSLASH). simpl in Hno.
      apply andb_true_iff in Hno as [_ ->].
      assert ((y =? DQUOTE) = false) as -> by (apply N.eqb_neq; intros ->; by apply Hhead).
      done. }
  rewrite Hx in Hafter1.
  rewrite (read_fd1_cons d1 x r Hafter1). rewrite !bind_assoc. unfold bind at 1.
  rewrite (read_string_closes body fuel x x [] (advance x d1) rest);
    [|by rewrite (after_advance d1 x r Hafter1)|done|done|lia].
  cbv beta iota. rewrite app_nil_l, join_singletons.
  unfold bind at 1, lift. rewrite Hesc.
  remember (advance_all (tail (body ++ [DQUOTE])) (advance x d1)) as d2 eqn:Hd2.
  assert (d2 = advance_all (body ++ [DQUOTE]) d1) as Hd2' by (by rewrite Htail).
  assert (value_stack d2 = [] /\ terminator d2 = None) as [Hstack2 Hterm2]
    by (rewrite Hd2'; by destruct (stack_advance_all (body ++ [DQUOTE]) d1) as [-> ->]).
  assert (after (fd d2) = rest) as Hafter2.
  { rewrite Hd2'. apply after_advance_all. rewrite <- app_assoc. simpl.
    by rewrite <- Hx in Hafter1. }
  exists d2.
  unfold bind, ret, close_and_append. rewrite Hterm2.
  rewrite bool_decide_eq_false_2 by done. rewrite Hstack2. done.
Qed.

(** A text made of a string literal decodes to the resolved body. *)
Lemma decode_string_literal (body s : str) (fuel : nat) :
  (forall p, no_close p body = true) ->
  head body <> Some DQUOTE ->
  last body <> Some BACKSLASH ->
  _decode_escapes body = Ok s ->
  (S (length body) < fuel)%nat ->
  loads fuel (DQUOTE :: body ++ [DQUOTE]) = Ok (Atom (SStr s)).
Proof.
  intros Hno Hhead Hlast Hesc Hfuel.
  destruct fuel as [|fuel]; [lia|].
  unfold loads, load. rewrite decode_eq.
  destruct (read_string_token (S fuel) (CljDecoder_init (StringIO_of (DQUOTE :: body ++ [DQUOTE])))
              [] body [] s) as (d' & -> & _ & -> & _); try done.
  simpl. lia.
Qed.

(** ** The text of a string: [py_encode_basestring_ascii] read back *)

Lemma nibble_cases (d : N) :
  d < 16 ->
  d = 0 \/ d = 1 \/ d = 2 \/ d = 3 \/ d = 4 \/ d = 5 \/ d = 6 \/ d = 7 \/ d = 8
  \/ d = 9 \/ d = 10 \/ d = 11 \/ d = 12 \/ d = 13 \/ d = 14 \/ d = 15.
Proof. lia. Qed.

Lemma hex_digit_spec (d : N) :
  d < 16 ->
  is_hex_digit (hex_digit d) = true
  /\ hex_value (hex_digit d) = d
  /\ re_dot (hex_digit d) = true
  /\ (hex_digit d =? DQUOTE) = false
  /\ (hex_digit d =? BACKSLASH) = false.
Proof.
  intros Hd. pose proof (nibble_cases d Hd) as H.
  repeat (destruct H as [->|H]; [done|]). by subst.
Qed.

Lemma nibble_lt (x k : N) : (x / k) mod 16 < 16.
Proof. by apply N.mod_lt. Qed.

Lemma nibble0_lt (x : N) : x mod 16 < 16.
Proof. by apply N.mod_lt. Qed.

Lemma format_04x_value (n : N) : n < 65536 -> hex_number (format_04x n) = n.
Proof.
  intros Hn. unfold hex_number, format_04x. simpl foldl.
  rewrite !(proj1 (proj2 (hex_digit_spec _ (nibble_lt n _)))).
  rewrite (proj1 (proj2 (hex_digit_spec _ (nibble0_lt n)))).
  replace (n / 256) with (n / 16 / 16) by (by rewrite N.Div0.div_div).
  replace (n / 4096) with (n / 16 / 16 / 16) by (by rewrite !N.Div0.div_div).
  pose proof (N.div_mod n 16 ltac:(lia)) as H1.
  pose proof (N.div_mod (n / 16) 16 ltac:(lia)) as H2.
  pose proof (N.div_mod (n / 16 / 16) 16 ltac:(lia)) as H3.
  pose proof (N.div_mod (n / 16 / 16 / 16) 16 ltac:(lia)) as H4.
  assert (n / 16 / 16 / 16 / 16 = 0) as H5
    by (rewrite !N.Div0.div_div; apply N.div_small; simpl; lia).
  generalize dependent (n mod 16). generalize dependent ((n / 16) mod 16).
  generalize dependent ((n / 16 / 16) mod 16).
  generalize dependent ((n / 16 / 16 / 16) mod 16).
  generalize dependent (n / 16 / 16 / 16 / 16). generalize dependent (n / 16 / 16 / 16).
  generalize dependent (n / 16 / 16). generalize dependent (n / 16).
  intros. lia.
Qed.

(** The text of a code point given as four hexadecimal digits. *)
Lemma format_04x_shape (n : N) :
  exists a b c e,
    format_04x n = [a; b; c; e]
    /\ forallb is_hex_digit [a; b; c; e] = true
    /\ forallb re_dot [a; b; c; e] = true
    /\ forallb (fun x => negb (x =? DQUOTE) && negb (x =? BACKSLASH)) [a; b; c; e] = true.
Proof.
  unfold format_04x. do 4 eexists. split; [reflexivity|].
  destruct (hex_digit_spec _ (nibble_lt n 4096)) as (A1 & _ & A2 & A3 & A4).
  destruct (hex_digit_spec _ (nibble_lt n 256)) as (B1 & _ & B2 & B3 & B4).
  destruct (hex_digit_spec _ (nibble_lt n 16)) as (C1 & _ & C2 & C3 & C4).
  destruct (hex_digit_spec _ (nibble0_lt n)) as (E1 & _ & E2 & E3 & E4).
  simpl forallb.
  by rewrite A1, A2, A3, A4, B1, B2, B3, B4, C1, C2, C3, C4, E1, E2, E3, E4.
Qed.

Lemma json_sub_unit (c : codepoint) : json_unit c (json_sub c).
Proof.
  unfold json_sub, json_escaped, json_replace.
  destruct (N.eqb_spec c 92) as [->|H92]; [by apply unit_pair|].
  destruct (N.eqb_spec c 34) as [->|H34]; [by apply unit_pair|].
  destruct ((32 <=? c) && (c <=? 126)) eqn:Hrange; simpl; [by apply unit_plain|].
  destruct (N.eqb_spec c 8) as [->|H8]; [by apply (unit_pair _ 98)|].
  destruct (N.eqb_spec c 12) as [->|H12]; [by apply (unit_pair _ 102)|].
  destruct (N.eqb_spec c 10) as [->|H10]; [by apply (unit_pair _ 110)|].
  destruct (N.eqb_spec c 13) as [->|H13]; [by apply (unit_pair _ 114)|].
  destruct (N.eqb_spec c 9) as [->|H9]; [by apply (unit_pair _ 116)|].
  destruct (N.ltb_spec c 65536); [by apply unit_u4|by apply unit_u4u4].
Qed.

Lemma no_close_app (p : codepoint) (a b : str) :
  no_close p (a ++ b) = no_close p a && no_close (default p (last a)) b.
Proof.
  revert p. induction a as [|x a IH]; intros p; [done|].
  simpl no_close. rewrite IH, andb_assoc. do 2 f_equal.
  destruct a as [|y a]; [done|]. rewrite last_cons_cons.
  destruct (last (y :: a)) eqn:E; [done|]. by apply last_None in E.
Qed.

Lemma no_close_u4 (p : codepoint) (n : N) (rest : str) :
  no_close p (py "\u" ++ format_04x n ++ rest)
  = no_close (default 0 (last (format_04x n))) rest.
Proof.
  destruct (format_04x_shape n) as (a & b & c & e & -> & _ & _ & Hplain).
  simpl in Hplain. unfold DQUOTE, BACKSLASH in Hplain.
  repeat match goal with
         | H : _ && _ = true |- _ => apply andb_true_iff in H as [? ?]
         | H : negb _ = true |- _ => apply negb_true_iff in H
         end.
  change (py "\u" ++ [a; b; c; e] ++ rest) with (92 :: 117 :: a :: b :: c :: e :: rest).
  simpl no_close. unfold DQUOTE, BACKSLASH in *.
  repeat match goal with
         | H : (_ =? _) = false |- _ => rewrite H; clear H
         end.
  reflexivity.
Qed.

Lemma json_unit_no_close (c : codepoint) (u : str) (p : codepoint) :
  json_unit c u -> no_close p u = true.
Proof.
  intros [Hb Hq|k _ _ _ _ _ _ _ _ _|Hc|s1 s2 Hc].
  - simpl. apply N.eqb_neq in Hq. unfold DQUOTE in *. by rewrite Hq.
  - simpl. by destruct (k =? DQUOTE).
  - rewrite <- (app_nil_r (format_04x c)), no_close_u4. reflexivity.
  - rewrite no_close_u4. rewrite <- (app_nil_r (format_04x s2)), no_close_u4. reflexivity.
Qed.

Lemma json_unit_head (c : codepoint) (u : str) :
  json_unit c u -> exists x u', u = x :: u' /\ x <> DQUOTE.
Proof.
  intros [Hb Hq|k _ _ _ _ _ _ _ _ _|Hc|s1 s2 Hc];
    eexists _, _; (split; [reflexivity|done]).
Qed.

Lemma last_u4 (pre : str) (n : N) :
  last (pre ++ format_04x n) <> Some BACKSLASH.
Proof.
  destruct (format_04x_shape n) as (a & b & c & e & -> & _ & _ & Hplain).
  change [a; b; c; e] with ([a; b; c] ++ [e]). rewrite app_assoc, last_snoc.
  simpl in Hplain. unfold DQUOTE, BACKSLASH in *.
  repeat match goal with
         | H : _ && _ = true |- _ => apply andb_true_iff in H as [? ?]
         | H : negb _ = true |- _ => apply negb_true_iff in H
         end.
  intros [= ->]. discriminate.
Qed.

Lemma json_unit_last (c : codepoint) (u : str) :
  json_unit c u -> c <> BACKSLASH -> last u <> Some BACKSLASH.
Proof.
  intros [Hb Hq|k _ _ _ _ _ _ _ _ Hk|Hc|s1 s2 Hc] Hne.
  - simpl. congruence.
  - simpl. intros [= ->]. by apply Hne, Hk.
  - apply last_u4.
  - rewrite !app_assoc. apply last_u4.
Qed.

(** One unit is resolved back to the character it was written for. *)
Lemma decode_unit (c : codepoint) (u rest : str) :
  json_unit c u -> c < 65536 ->
  _decode_escapes (u ++ rest) = rbind (_decode_escapes rest) (fun r => Ok (c :: r)).
Proof.
  intros [Hb Hq|k Hk1 Hk2 Hk3 Hk4 Hk5 Hsur Hdec Hre _|Hc|s1 s2 Hc] Hlt.
  - simpl. by rewrite _decode_escapes_keep by (by apply no_escape_without_backslash).
  - assert (ESCAPE_SEQUENCE_RE ([BACKSLASH; k] ++ rest) = Some 2%nat) as Hre'.
    { revert Hre. unfold ESCAPE_SEQUENCE_RE. simpl app. unfold BACKSLASH.
      apply N.eqb_neq in Hk1, Hk2, Hk3, Hk5. rewrite Hk1, Hk2, Hk3, Hk4, Hk5. done. }
    rewrite (_decode_escapes_match _ _ Hre').
    change (take 2 ([BACKSLASH; k] ++ rest)) with [BACKSLASH; k].
    change (drop 2 ([BACKSLASH; k] ++ rest)) with rest.
    unfold decode_match. cbn [existsb]. rewrite Hsur, Hdec. reflexivity.
  - destruct (format_04x_shape c) as (a & b & d & e & Hshape & Hhex & Hdot & _).
    pose proof (format_04x_value c Hc) as Hval. rewrite Hshape in Hval |- *.
    assert (ESCAPE_SEQUENCE_RE ((py "\u" ++ [a; b; d; e]) ++ rest) = Some 6%nat) as Hre.
    { unfold ESCAPE_SEQUENCE_RE.
      change ((py "\u" ++ [a; b; d; e]) ++ rest) with (92 :: 117 :: a :: b :: d :: e :: rest).
      change (117 =? 85) with false. change (117 =? 117) with true.
      unfold re_dots. change (take 4 (a :: b :: d :: e :: rest)) with [a; b; d; e].
      rewrite Hdot. reflexivity. }
    rewrite (_decode_escapes_match _ _ Hre).
    change (take 6 ((py "\u" ++ [a; b; d; e]) ++ rest)) with (92 :: 117 :: [a; b; d; e]).
    change (drop 6 ((py "\u" ++ [a; b; d; e]) ++ rest)) with rest.
    destruct (hex_digits_facts _ Hhex) as (_ & Hsur & _).
    unfold decode_match.
    change (existsb is_surrogate (92 :: 117 :: [a; b; d; e]))
      with (existsb is_surrogate [a; b; d; e]).
    rewrite Hsur.
    unfold unicode_escape.
    change (117 =? 85) with false. change (117 =? 117) with true.
    cbv beta iota. unfold orb. rewrite Hhex, Hval.
    assert ((c <=? 1114111) = true) as -> by (apply N.leb_le; lia).
    reflexivity.
  - lia.
Qed.

(** The body [ESCAPE_ASCII.sub] writes for [s]. *)
Lemma decode_json_body (s : str) :
  Forall (fun c => c < 65536) s ->
  _decode_escapes (concat (map json_sub s)) = Ok s.
Proof.
  induction 1 as [|c s Hc Hs IH]; [reflexivity|].
  simpl. rewrite (decode_unit c _ _ (json_sub_unit c) Hc), IH. reflexivity.
Qed.

Lemma json_body_no_close (s : str) (p : codepoint) :
  no_close p (concat (map json_sub s)) = true.
Proof.
  revert p. induction s as [|c s IH]; intros p; [reflexivity|].
  simpl. rewrite no_close_app, IH.
  by rewrite (json_unit_no_close c _ p (json_sub_unit c)).
Qed.

Lemma json_body_head (s : str) : head (concat (map json_sub s)) <> Some DQUOTE.
Proof.
  destruct s as [|c s]; [done|]. simpl.
  destruct (json_unit_head c _ (json_sub_unit c)) as (x & u' & -> & Hx).
  simpl. congruence.
Qed.

Lemma json_body_last (s : str) :
  last s <> Some BACKSLASH -> last (concat (map json_sub s)) <> Some BACKSLASH.
Proof.
  induction s as [|c s IH]; [done|].
  intros Hlast. simpl. rewrite last_app.
  destruct s as [|c' s].
  - simpl. apply (json_unit_last c _ (json_sub_unit c)). simpl in Hlast. congruence.
  - rewrite last_cons_cons in Hlast. specialize (IH Hlast).
    destruct (last (concat (map json_sub (c' :: s)))) eqn:E; [done|].
    apply last_None in E. simpl in E.
    destruct (json_unit_head c' _ (json_sub_unit c')) as (x & u' & Hu & _).
    rewrite Hu in E. discriminate.
Qed.

(** [loads(dumps(s)) == s] for a string of code points of the Basic
    Multilingual Plane that does not end in a backslash. *)
Lemma roundtrip_str (s : str) (fuel : nat) :
  Forall (fun c => c < 65536) s ->
  last s <> Some BACKSLASH ->
  (length (py_encode_basestring_ascii s) < fuel)%nat ->
  roundtrip fuel (SStr s) = Ok (Atom (SStr s)).
Proof.
  intros Hbmp Hlast Hfuel.
  destruct fuel as [|fuel]; [lia|]. rewrite roundtrip_eq.
  change (scalar_text (SStr s)) with (DQUOTE :: concat (map json_sub s) ++ [DQUOTE]).
  apply decode_string_literal.
  - intros p. apply json_body_no_close.
  - apply json_body_head.
  - by apply json_body_last.
  - by apply decode_json_body.
  - unfold py_encode_basestring_ascii in Hfuel. simpl in Hfuel.
    rewrite length_app in Hfuel. simpl in Hfuel. lia.
Qed.

(** ** Round trip of the scalars *)

Lemma roundtrip_constants (fuel : nat) :
  (5 < fuel)%nat ->
  roundtrip fuel SNone = Ok VNone
  /\ roundtrip fuel (SBool true) = Ok (Atom (SBool true))
  /\ roundtrip fuel (SBool false) = Ok (Atom (SBool false)).
Proof.
  intros Hfuel. destruct fuel as [|fuel]; [lia|].
  rewrite !roundtrip_eq. unfold loads, load.
  rewrite !decode_eq, !read_token_eq.
  change (scalar_text SNone) with (110 :: py "il").
  change (scalar_text (SBool true)) with (116 :: py "rue").
  change (scalar_text (SBool false)) with (102 :: py "alse").
  rewrite (lead_char _ [] fuel _ 110 (py "il")) by (done || simpl; lia).
  rewrite (lead_char _ [] fuel _ 116 (py "rue")) by (done || simpl; lia).
  rewrite (lead_char _ [] fuel _ 102 (py "alse")) by (done || simpl; lia).
  repeat split; reflexivity.
Qed.

Lemma roundtrip_number_text (a : scalar) (fuel : nat) :
  number_text (scalar_text a) ->
  number (scalar_text a) = Ok (Atom a) ->
  (S (length (scalar_text a)) < fuel)%nat ->
  roundtrip fuel a = Ok (Atom a).
Proof.
  intros Htext Hnum Hfuel. destruct fuel as [|fuel]; [lia|]. rewrite roundtrip_eq.
  destruct (scalar_text a) as [|c0 body]; [done|]. destruct Htext as [Hlead Hall].
  apply decode_number_token; try done. simpl in Hfuel. lia.
Qed.

Lemma plain_text_facts (s : str) :
  plain_text s ->
  (forall p, no_close p s = true)
  /\ head s <> Some DQUOTE
  /\ last s <> Some BACKSLASH
  /\ _decode_escapes s = Ok s.
Proof.
  unfold plain_text. induction s as [|c s IH]; intros Hs; [done|].
  simpl in Hs. apply andb_true_iff in Hs as [Hc Hs].
  apply andb_true_iff in Hc as [Hq Hb].
  apply negb_true_iff in Hq, Hb. pose proof Hq as Hq'. pose proof Hb as Hb'.
  apply N.eqb_neq in Hq', Hb'.
  destruct (IH Hs) as (Hno & _ & Hlast & Hesc).
  repeat split.
  - intros p. simpl. by rewrite Hq, Hno.
  - simpl. congruence.
  - destruct s as [|c' s]; [simpl; congruence|]. by rewrite last_cons_cons.
  - rewrite _decode_escapes_keep by (by apply no_escape_without_backslash).
    by rewrite Hesc.
Qed.

(** A tagged literal, [#inst] or [#uuid] before a string, read at the top
    level: the string is read by [__read_token] itself and handed to the
    parser of the tag. *)
Lemma decode_tagged (a b c e : codepoint) (t : ttype) (s : str) (v : value) (fuel : nat) :
  ([a; b; c; e] = py "inst" /\ t = T_datetime
   /\ match pyrfc3339_parse s with Some x => Some (Atom (SDatetime x)) | None => None end = Some v)
  \/ ([a; b; c; e] = py "uuid" /\ t = T_uuid
      /\ match UUID_of_str s with Some x => Some (Atom (SUUID x)) | None => None end = Some v) ->
  plain_text s ->
  (S (S (length s)) < fuel)%nat ->
  loads fuel (35 :: a :: b :: c :: e :: 32 :: DQUOTE :: s ++ [DQUOTE]) = Ok v.
Proof.
  intros Htag Hplain Hfuel.
  destruct (plain_text_facts s Hplain) as (Hno & Hhead & Hlast & Hesc).
  destruct fuel as [|fuel]; [lia|].
  unfold loads, load. rewrite decode_eq, read_token_eq.
  rewrite (lead_char _ [] fuel _ 35 (a :: b :: c :: e :: 32 :: DQUOTE :: s ++ [DQUOTE]))
    by (done || simpl; lia).
  change (str_eqb [35] []) with false. cbv iota.
  set (d1 := {| fd := {| before := [35];
                         after := a :: b :: c :: e :: 32 :: DQUOTE :: s ++ [DQUOTE] |};
                cur_line := 1; cur_pos := 1; value_stack := []; terminator := None |}).
  set (d2 := {| fd := {| before := [e; c; b; a; 35]; after := 32 :: DQUOTE :: s ++ [DQUOTE] |};
                cur_line := 1; cur_pos := 5; value_stack := []; terminator := None |}).
  change (advance 35 (advance_all [] (CljDecoder_init (StringIO_of
            (35 :: a :: b :: c :: e :: 32 :: DQUOTE :: s ++ [DQUOTE]))))) with d1.
  assert (read_fd 4 d1 = Ok ([a; b; c; e], d2)) as Hskip by reflexivity.
  destruct (read_string_token fuel d2 [32] s [] s) as (d3 & Hread & _ & Hstack3 & Hterm3);
    try done; [simpl; lia|].
  assert (get_type_from_char [35] d1 = Ok ((Some t, false, None), d1)) as Htype.
  { destruct Htag as [(Ht & -> & _)|(Ht & -> & _)];
      injection Ht as -> -> -> ->; reflexivity. }
  unfold bind at 1. rewrite Htype. cbv beta iota.
  assert (read_scalar (read_token fuel) fuel [35] (Some t) d1 = Ok ((v, [DQUOTE], true), d3))
    as Hscalar.
  { destruct Htag as [(_ & -> & Hv)|(_ & -> & Hv)]; unfold read_scalar.
    - destruct (pyrfc3339_parse s) as [x|] eqn:Hparse; [|done]. injection Hv as <-.
      unfold bind at 1. rewrite Hskip. unfold bind at 1. rewrite Hread. cbv beta iota.
      unfold bind, discard_last_member. rewrite Hstack3, Hparse. reflexivity.
    - destruct (UUID_of_str s) as [x|] eqn:Hparse; [|done]. injection Hv as <-.
      unfold bind at 1. rewrite Hskip. unfold bind at 1. rewrite Hread. cbv beta iota.
      unfold bind, discard_last_member. rewrite Hstack3, Hparse. reflexivity. }
  unfold bind at 1. rewrite Hscalar. cbv beta iota.
  unfold close_and_append. rewrite Hterm3.
  rewrite bool_decide_eq_false_2 by discriminate. rewrite Hstack3.
  simpl. rewrite ?Hstack3. reflexivity.
Qed.

Lemma roundtrip_datetime (t : datetime) (fuel : nat) :
  round_trips (SDatetime t) ->
  (S (length (scalar_text (SDatetime t))) < fuel)%nat ->
  roundtrip fuel (SDatetime t) = Ok (Atom (SDatetime t)).
Proof.
  intros [Hplain Hparse] Hfuel. destruct fuel as [|fuel]; [lia|]. rewrite roundtrip_eq.
  revert Hfuel. unfold scalar_text.
  set (s := pyrfc3339_generate (if tzinfo_unset t then replace_tzinfo_utc t else t)) in *.
  change (py "#inst " ++ [DQUOTE] ++ s ++ [DQUOTE])
    with (35 :: 105 :: 110 :: 115 :: 116 :: 32 :: DQUOTE :: s ++ [DQUOTE]).
  intros Hfuel. apply (decode_tagged _ _ _ _ T_datetime); [|done|].
  - left. by rewrite Hparse.
  - simpl in Hfuel. rewrite length_app in Hfuel. simpl in Hfuel. lia.
Qed.

(** ** Identifiers *)

Lemma hex_fold_from (acc : N) (b : str) :
  foldl (fun a c => 16 * a + hex_value c) acc b
  = acc * 16 ^ N.of_nat (length b) + hex_number b.
Proof.
  unfold hex_number. revert acc. induction b as [|c b IH]; intros acc.
  - simpl. lia.
  - cbn [foldl length]. rewrite IH, (IH (16 * 0 + hex_value c)).
    rewrite Nat2N.inj_succ, N.pow_succ_r'. lia.
Qed.

Lemma hex_number_app (a b : str) :
  hex_number (a ++ b) = hex_number a * 16 ^ N.of_nat (length b) + hex_number b.
Proof. unfold hex_number at 1. rewrite foldl_app. apply hex_fold_from. Qed.

Lemma hex_digit_no_hyphen (c : codepoint) : is_hex_digit c = true -> (c =? 45) = false.
Proof.
  intros H. destruct (N.eqb_spec c 45) as [->|]; [|done]. by vm_compute in H.
Qed.

Lemma hex_run_of_uuid (g : str) :
  forallb is_hex_digit g = true ->
  forallb (fun c => is_hex_digit c || (c =? 45)) g = true
  /\ List.filter (fun c => negb (c =? 45)) g = g.
Proof.
  induction g as [|c g IH]; [done|]. cbn [forallb List.filter].
  intros [Hc Hg]%andb_true_iff. destruct (IH Hg) as [IH1 IH2].
  rewrite Hc, IH1, (hex_digit_no_hyphen c Hc), IH2. done.
Qed.

Lemma uuid_group_facts (u : UUID) (i : N) :
  forallb is_hex_digit (uuid_group u i) = true
  /\ length (uuid_group u i) = 4%nat
  /\ plain_text (uuid_group u i)
  /\ hex_number (uuid_group u i) = (u / 65536 ^ i) mod 65536.
Proof.
  unfold uuid_group. split; [|split; [|split]].
  - by destruct (format_04x_shape ((u / 65536 ^ i) mod 65536)) as (a & b & c & e & -> & H & _).
  - done.
  - by destruct (format_04x_shape ((u / 65536 ^ i) mod 65536))
      as (a & b & c & e & -> & _ & _ & H).
  - apply format_04x_value. apply N.mod_lt. lia.
Qed.

Lemma plain_text_app (a b : str) : plain_text a -> plain_text b -> plain_text (a ++ b).
Proof. unfold plain_text. rewrite forallb_app. by intros -> ->. Qed.

Lemma str_of_UUID_plain (u : UUID) : plain_text (str_of_UUID u).
Proof.
  unfold str_of_UUID.
  repeat (apply plain_text_app; [first [apply uuid_group_facts | done]|]).
  apply uuid_group_facts.
Qed.

Lemma uuid_groups_value (u : UUID) :
  u < 2 ^ 128 ->
  hex_number (uuid_group u 7 ++ uuid_group u 6 ++ uuid_group u 5 ++ uuid_group u 4
              ++ uuid_group u 3 ++ uuid_group u 2 ++ uuid_group u 1 ++ uuid_group u 0) = u.
Proof.
  intros Hu. rewrite !hex_number_app, !length_app.
  repeat match goal with
         | |- context [length (uuid_group u ?i)] =>
             rewrite (proj1 (proj2 (uuid_group_facts u i)))
         | |- context [hex_number (uuid_group u ?i)] =>
             rewrite (proj2 (proj2 (proj2 (uuid_group_facts u i))))
         end.
  change (u / 65536 ^ 0) with (u / 1). rewrite N.div_1_r.
  replace (u / 65536 ^ 1) with (u / 65536) by done.
  replace (u / 65536 ^ 2) with (u / 65536 / 65536) by (by rewrite !N.Div0.div_div).
  replace (u / 65536 ^ 3) with (u / 65536 / 65536 / 65536) by (by rewrite !N.Div0.div_div).
  replace (u / 65536 ^ 4) with (u / 65536 / 65536 / 65536 / 65536)
    by (by rewrite !N.Div0.div_div).
  replace (u / 65536 ^ 5) with (u / 65536 / 65536 / 65536 / 65536 / 65536)
    by (by rewrite !N.Div0.div_div).
  replace (u / 65536 ^ 6) with (u / 65536 / 65536 / 65536 / 65536 / 65536 / 65536)
    by (by rewrite !N.Div0.div_div).
  replace (u / 65536 ^ 7)
    with (u / 65536 / 65536 / 65536 / 65536 / 65536 / 65536 / 65536)
    by (by rewrite !N.Div0.div_div).
  assert (u / 65536 / 65536 / 65536 / 65536 / 65536 / 65536 / 65536 / 65536 = 0) as H8.
  { rewrite !N.Div0.div_div. apply N.div_small.
    change (65536 * 65536 * 65536 * 65536 * 65536 * 65536 * 65536 * 65536) with (2 ^ 128).
    exact Hu. }
  clear Hu. revert H8.
  set (q1 := u / 65536). set (q2 := q1 / 65536). set (q3 := q2 / 65536).
  set (q4 := q3 / 65536). set (q5 := q4 / 65536). set (q6 := q5 / 65536).
  set (q7 := q6 / 65536). intros H8.
  pose proof (N.div_mod u 65536 ltac:(lia)) as E0. fold q1 in E0.
  pose proof (N.div_mod q1 65536 ltac:(lia)) as E1. fold q2 in E1.
  pose proof (N.div_mod q2 65536 ltac:(lia)) as E2. fold q3 in E2.
  pose proof (N.div_mod q3 65536 ltac:(lia)) as E3. fold q4 in E3.
  pose proof (N.div_mod q4 65536 ltac:(lia)) as E4. fold q5 in E4.
  pose proof (N.div_mod q5 65536 ltac:(lia)) as E5. fold q6 in E5.
  pose proof (N.div_mod q6 65536 ltac:(lia)) as E6. fold q7 in E6.
  pose proof (N.div_mod q7 65536 ltac:(lia)) as E7. rewrite H8 in E7.
  clearbody q1 q2 q3 q4 q5 q6 q7.
  generalize dependent (u mod 65536). generalize dependent (q1 mod 65536).
  generalize dependent (q2 mod 65536). generalize dependent (q3 mod 65536).
  generalize dependent (q4 mod 65536). generalize dependent (q5 mod 65536).
  generalize dependent (q6 mod 65536). generalize dependent (q7 mod 65536).
  intros. cbn [length Nat.add].
  change (16 ^ N.of_nat 4) with 65536. change (16 ^ N.of_nat 8) with (65536 ^ 2).
  change (16 ^ N.of_nat 12) with (65536 ^ 3). change (16 ^ N.of_nat 16) with (65536 ^ 4).
  change (16 ^ N.of_nat 20) with (65536 ^ 5). change (16 ^ N.of_nat 24) with (65536 ^ 6).
  change (16 ^ N.of_nat 28) with (65536 ^ 7).
  subst. lia.
Qed.

Lemma UUID_of_str_of_UUID (u : UUID) : u < 2 ^ 128 -> UUID_of_str (str_of_UUID u) = Some u.
Proof.
  intros Hu. unfold UUID_of_str, str_of_UUID.
  rewrite !forallb_app, !List.filter_app.
  repeat match goal with
         | |- context [forallb _ (uuid_group u ?i)] =>
             rewrite (proj1 (hex_run_of_uuid _ (proj1 (uuid_group_facts u i))))
         | |- context [List.filter _ (uuid_group u ?i)] =>
             rewrite (proj2 (hex_run_of_uuid _ (proj1 (uuid_group_facts u i))))
         end.
  change (forallb (fun c => is_hex_digit c || (c =? 45)) (py "-")) with true.
  change (List.filter (fun c => negb (c =? 45)) (py "-")) with (@nil N).
  cbn [andb app].
  replace (length _ =? 32)%nat with true.
  - by rewrite (uuid_groups_value u Hu).
  - rewrite !length_app.
    repeat match goal with
           | |- context [length (uuid_group u ?i)] =>
               rewrite (proj1 (proj2 (uuid_group_facts u i)))
           end.
    done.
Qed.

Lemma roundtrip_uuid (u : UUID) (fuel : nat) :
  round_trips (SUUID u) ->
  (S (length (scalar_text (SUUID u))) < fuel)%nat ->
  roundtrip fuel (SUUID u) = Ok (Atom (SUUID u)).
Proof.
  intros Hu Hfuel. pose proof (str_of_UUID_plain u) as Hplain.
  pose proof (UUID_of_str_of_UUID u Hu) as Hparse.
  destruct fuel as [|fuel]; [lia|]. rewrite roundtrip_eq.
  revert Hfuel. unfold scalar_text.
  change (py "#uuid " ++ [DQUOTE] ++ str_of_UUID u ++ [DQUOTE])
    with (35 :: 117 :: 117 :: 105 :: 100 :: 32 :: DQUOTE :: str_of_UUID u ++ [DQUOTE]).
  intros Hfuel. apply (decode_tagged _ _ _ _ T_uuid); [|done|].
  - right. by rewrite Hparse.
  - cbn [length] in Hfuel. rewrite length_app in Hfuel. cbn [length] in Hfuel. lia.
Qed.

(** *** Floats and decimals: what the Numeric Literal Parser does *)

Lemma digits_with_a_stranger (s : str) :
  existsb (fun c => match digit_value c with None => true | Some _ => false end) s = true ->
  forall acc, foldl digit_step acc s = None.
Proof.
  induction s as [|c s IH]; [discriminate|]. cbn [existsb foldl]. intros H acc.
  assert (forall t, foldl digit_step None t = None) as Hnone
    by (induction t; [done|simpl; done]).
  destruct (digit_value c) eqn:Hc.
  - apply IH. by rewrite orb_false_l in H.
  - unfold digit_step at 2. rewrite Hc. by destruct acc.
Qed.

Lemma py_digits_with_a_stranger (s : str) :
  existsb (fun c => (c =? 46) || (c =? 101)) s = true -> py_digits s = None.
Proof.
  intros H. unfold py_digits. destruct s as [|c s]; [done|].
  destruct (_ <=? _); [|done]. apply digits_with_a_stranger.
  apply existsb_true_elem in H as (x & Hx & Hpoint).
  apply existsb_exists. exists x. split; [by apply list_elem_of_In|].
  apply orb_true_iff in Hpoint as [->%N.eqb_eq| ->%N.eqb_eq]; reflexivity.
Qed.

(** On the text of a finite float [int] fails and [number] takes its
    [except ValueError] branch. *)
Lemma number_of_float_text (t : str) :
  float_text t ->
  number t = match float_of_str t with
             | Some f => Ok (Atom (SFloat f))
             | None => Raise (ValueError_float t)
             end.
Proof.
  intros (_ & Hpoint & HnoM). unfold number.
  assert (endswith1 t 77 = false) as ->.
  { unfold endswith1. destruct (last t) as [x|] eqn:Hlast; [|done].
    apply last_Some_elem_of in Hlast.
    rewrite forallb_forall in HnoM. apply list_elem_of_In in Hlast.
    by apply negb_true_iff, HnoM. }
  assert (py_int t = None) as ->; [|done].
  destruct t as [|c t]; [done|].
  destruct (N.eqb_spec c 45) as [->|H45].
  { change (py_int (45 :: t)) with ((fun n => (- Z.of_N n)%Z) <$> py_digits t).
    by rewrite (py_digits_with_a_stranger t Hpoint). }
  destruct (N.eqb_spec c 43) as [->|H43].
  { change (py_int (43 :: t)) with (Z.of_N <$> py_digits t).
    by rewrite (py_digits_with_a_stranger t Hpoint). }
  assert (py_int (c :: t) = Z.of_N <$> py_digits (c :: t)) as ->.
  { clear -H45 H43. unfold py_int.
    destruct c as [|p]; [reflexivity|].
    do 6 (try destruct p as [p|p|]; try reflexivity); congruence. }
  by rewrite (py_digits_with_a_stranger _ Hpoint).
Qed.

(** On the text written for a decimal [number] takes its first branch. *)
Lemma number_of_decimal_text (s : str) :
  number (s ++ py "M") = match Decimal_of_str s with
                         | Some d => Ok (Atom (SDecimal d))
                         | None => Raise (InvalidOperation s)
                         end.
Proof.
  unfold number, endswith1, drop_last. change (py "M") with [77].
  by rewrite last_snoc, removelast_last.
Qed.

Lemma number_text_M (s : str) : number_text s -> number_text (s ++ py "M").
Proof.
  destruct s as [|c s]; [done|]. intros [Hlead Hall]. split; [done|].
  change ((c :: s) ++ py "M") with (c :: s ++ [77]).
  cbn [forallb] in *. apply andb_true_iff in Hall as [-> Hall].
  by rewrite forallb_app, Hall.
Qed.

(** [C1, amended] Encoding a scalar and decoding the text gives the scalar
    back for [None], the booleans, every integer that has no more digits
    than [int] converts, and every string whose code points are below
    0x10000 and which does not end in a backslash.  For a float and a
    decimal it does so when the text the library writes for the value is a
    number token (with a point or an exponent for a float) from which the
    library reads the value back: the Numeric Literal Parser then takes the
    branch of that kind.  For a timestamp and an identifier it does so when
    the text the library writes holds no quote and no backslash and the
    library reads the value back from it. *)
Theorem scalar_round_trip (a : scalar) (fuel : nat) :
  round_trips a ->
  (5 + length (scalar_text a) < fuel)%nat ->
  roundtrip fuel a = Ok (Atom a).
Proof.
  intros Hok Hfuel. destruct a as [|b|z|f|d|s|t|u].
  - apply roundtrip_constants. lia.
  - destruct b; apply roundtrip_constants; lia.
  - apply roundtrip_int; [done|]. simpl in Hfuel. lia.
  - destruct Hok as [Htext Hread]. apply roundtrip_number_text; [by destruct Htext| |lia].
    change (scalar_text (SFloat f)) with (str_of_float f).
    by rewrite (number_of_float_text _ Htext), Hread.
  - destruct Hok as [Htext Hread]. apply roundtrip_number_text; [by apply number_text_M| |lia].
    change (scalar_text (SDecimal d)) with (str_of_Decimal d ++ py "M").
    by rewrite number_of_decimal_text, Hread.
  - destruct Hok. apply roundtrip_str; [done|done|].
    change (scalar_text (SStr s)) with (py_encode_basestring_ascii s) in Hfuel. lia.
  - apply roundtrip_datetime; [done|lia].
  - apply roundtrip_uuid; [done|lia].
Qed.

(** ** Encoder: the check of circular references *)

(** [get_type] says [coll] of the references exactly, and [__do_encode]
    takes its branch of the collections for them. *)
Lemma get_type_coll (h : gmap ident collection) (d : pyobj) (t : etype) :
  get_type h d = Some (t, true) <-> exists l o, d = Ref l /\ h !! l = Some o
    /\ t = match o with
           | PyDict _ => E_dict
           | PyList _ | PyTuple _ => E_list
           | PySet _ => E_set
           end.
Proof.
  split.
  - destruct d as [[]| |l]; simpl; try discriminate.
    destruct (h !! l) as [o|] eqn:Hl; [|discriminate].
    destruct o; intros [= <-]; eauto.
  - intros (l & o & -> & Hl & ->). simpl. rewrite Hl. by destruct o.
Qed.

Lemma encode_items_flat (enc : pyobj -> CljEncoder -> result CljEncoder)
    (items : list (pyobj * pyobj)) (e : CljEncoder) :
  encode_items enc items e = encode_each enc (members (PyDict items)) e.
Proof.
  revert e. induction items as [|[k v] items IH]; intros e; [reflexivity|].
  simpl. destruct (enc k e) as [e1| |]; simpl; try reflexivity.
  destruct (enc v (write (py " ") e1)) as [e2| |]; simpl; try reflexivity.
  apply IH.
Qed.

(** The encoding of a collection that has not been met: it is recorded,
    and its members are encoded between its markers. *)
Lemma do_encode_ref (fuel : nat) (h : gmap ident collection) (l : ident)
    (o : collection) (e : CljEncoder) :
  h !! l = Some o -> circular e !! l = None ->
  do_encode (S fuel) h (Ref l) e =
    rbind (encode_body (encode_each (do_encode fuel h)) (members o) (write (opener o) (mark l e)))
          (fun e => Ok (write (closer o) e)).
Proof.
  intros Hl Hc. simpl. rewrite Hl, Hc.
  rewrite bool_decide_eq_false_2 by (by intros [? ?]).
  destruct o as [items|elts|elts|elts]; try reflexivity.
  unfold encode_body. destruct items as [|[k v] items]; [reflexivity|].
  rewrite encode_items_flat. reflexivity.
Qed.

Lemma do_encode_seen (fuel : nat) (h : gmap ident collection) (l : ident)
    (o : collection) (e : CljEncoder) :
  h !! l = Some o -> l ∈ visited e ->
  do_encode (S fuel) h (Ref l) e = Raise ValueError_Circular.
Proof.
  intros Hl Hc. simpl. rewrite Hl. unfold visited in Hc. apply elem_of_dom in Hc.
  by rewrite bool_decide_eq_true_2.
Qed.

Lemma visited_write (s : str) (e : CljEncoder) : visited (write s e) = visited e.
Proof. reflexivity. Qed.

Lemma visited_mark (l : ident) (e : CljEncoder) : visited (mark l e) = {[l]} ∪ visited e.
Proof. unfold visited, mark. simpl. by rewrite dom_insert_L. Qed.

(** After a separator has been written there is a character to step back
    over. *)
Lemma seek_back_after_write (e : CljEncoder) :
  exists e', seek_back_out 1 (write (py " ") e) = Ok e' /\ visited e' = visited e.
Proof.
  unfold seek_back_out, _seek_back, write, fd_write, fd_tell. simpl.
  eexists. split; reflexivity.
Qed.

Lemma encode_each_last (enc : pyobj -> CljEncoder -> result CljEncoder)
    (d : pyobj) (ds : list pyobj) :
  forall e e', encode_each enc (d :: ds) e = Ok e' -> exists e'', e' = write (py " ") e''.
Proof.
  revert d. induction ds as [|d' ds IH]; intros d e e'; simpl.
  - destruct (enc d e) as [e1| |]; simpl; [|done|done]. intros [= <-]. eauto.
  - destruct (enc d e) as [e1| |]; simpl; [|done|done]. apply IH.
Qed.

Lemma encode_body_visited (enc : pyobj -> CljEncoder -> result CljEncoder)
    (ds : list pyobj) (e : CljEncoder) :
  match encode_each enc ds e with
  | Ok e1 => exists e2, encode_body (encode_each enc) ds e = Ok e2 /\ visited e2 = visited e1
  | Raise x => encode_body (encode_each enc) ds e = Raise x
  | OutOfFuel => encode_body (encode_each enc) ds e = OutOfFuel
  end.
Proof.
  unfold encode_body. destruct ds as [|d ds]; [simpl; eauto|].
  destruct (encode_each enc (d :: ds) e) as [e1| |] eqn:Heach; simpl; try done.
  destruct (encode_each_last enc d ds e e1 Heach) as (e'' & ->).
  destruct (seek_back_after_write e'') as (e2 & -> & Hv). eauto.
Qed.

(** *** A successful encoding has met no collection twice *)

Lemma encode_each_sound (h : gmap ident collection) (fuel : nat) :
  (forall d e e', do_encode fuel h d e = Ok e' ->
     exists ids, unfolds h d ids /\ NoDup ids
       /\ (forall l, l ∈ ids -> l ∉ visited e)
       /\ visited e' = visited e ∪ list_to_set ids) ->
  forall ds e e', encode_each (do_encode fuel h) ds e = Ok e' ->
    exists idss, Forall2 (unfolds h) ds idss /\ NoDup (concat idss)
      /\ (forall l, l ∈ concat idss -> l ∉ visited e)
      /\ visited e' = visited e ∪ list_to_set (concat idss).
Proof.
  intros IH. induction ds as [|d ds IHds]; intros e e'; simpl.
  - intros [= <-]. exists []. repeat split; [constructor|constructor|set_solver|set_solver].
  - destruct (do_encode fuel h d e) as [e1| |] eqn:Hd; simpl; [|done|done].
    intros Hrest.
    destruct (IH d e e1 Hd) as (ids & Hu & Hnd & Hfresh & Hv).
    destruct (IHds _ _ Hrest) as (idss & Hus & Hnds & Hfreshs & Hvs).
    rewrite visited_write in Hfreshs, Hvs.
    exists (ids :: idss). simpl. repeat split.
    + by constructor.
    + apply NoDup_app. repeat split; [done| |done].
      intros l Hl Hl'. apply (Hfreshs l Hl'). rewrite Hv. set_solver.
    + intros l Hl. apply elem_of_app in Hl as [Hl|Hl]; [by apply Hfresh|].
      specialize (Hfreshs l Hl). rewrite Hv in Hfreshs. set_solver.
    + rewrite Hvs, Hv, list_to_set_app_L. set_solver.
Qed.

Lemma do_encode_sound (h : gmap ident collection) (fuel : nat) :
  forall d e e', do_encode fuel h d e = Ok e' ->
    exists ids, unfolds h d ids /\ NoDup ids
      /\ (forall l, l ∈ ids -> l ∉ visited e)
      /\ visited e' = visited e ∪ list_to_set ids.
Proof.
  induction fuel as [|fuel IH]; intros d e e' Hrun; [discriminate|].
  destruct d as [a|text|l].
  - injection Hrun as <-. exists []. repeat split; [constructor|constructor|set_solver|set_solver].
  - injection Hrun as <-. exists []. repeat split; [constructor|constructor|set_solver|set_solver].
  - destruct (h !! l) as [o|] eqn:Hl; [|simpl in Hrun; by rewrite Hl in Hrun].
    destruct (circular e !! l) as [b|] eqn:Hc.
    { rewrite (do_encode_seen fuel h l o e Hl) in Hrun; [done|].
      unfold visited. apply elem_of_dom. by exists b. }
    rewrite (do_encode_ref fuel h l o e Hl Hc) in Hrun.
    pose proof (encode_body_visited (do_encode fuel h) (members o) (write (opener o) (mark l e)))
      as Hbody.
    destruct (encode_each (do_encode fuel h) (members o) (write (opener o) (mark l e)))
      as [e1| |] eqn:Heach; [|by rewrite Hbody in Hrun..].
    destruct Hbody as (e2 & Hbody & Hv2). rewrite Hbody in Hrun. simpl in Hrun.
    injection Hrun as <-.
    destruct (encode_each_sound h fuel IH _ _ _ Heach) as (idss & Hus & Hnd & Hfresh & Hv).
    rewrite visited_write, visited_mark in Hfresh, Hv.
    exists (l :: concat idss). repeat split.
    + by apply (unfolds_ref h l o).
    + constructor; [|done]. intros Hin. apply (Hfresh l Hin). set_solver.
    + intros l' Hin. apply elem_of_cons in Hin as [->|Hin].
      * intros Hdom. unfold visited in Hdom. apply elem_of_dom in Hdom as [b Hb]. congruence.
      * specialize (Hfresh l' Hin). set_solver.
    + rewrite visited_write, Hv2, Hv. simpl. set_solver.
Qed.

(** *** An object that is a tree is encoded *)

Lemma measure_mono (h : gmap ident collection) (X Y : gset ident) :
  X ⊆ Y -> (size (dom h ∖ Y) <= size (dom h ∖ X))%nat.
Proof. intros HXY. apply subseteq_size. set_solver. Qed.

Lemma measure_mark (h : gmap ident collection) (l : ident) (X : gset ident) :
  l ∈ dom h -> l ∉ X -> (size (dom h ∖ ({[l]} ∪ X)) < size (dom h ∖ X))%nat.
Proof. intros Hl HX. apply subset_size. set_solver. Qed.

Lemma encode_each_complete (h : gmap ident collection) (fuel : nat) :
  (forall d ids e, unfolds h d ids -> NoDup ids ->
     (forall l, l ∈ ids -> l ∉ visited e) ->
     (size (dom h ∖ visited e) < fuel)%nat ->
     exists e', do_encode fuel h d e = Ok e' /\ visited e' = visited e ∪ list_to_set ids) ->
  forall ds idss, Forall2 (unfolds h) ds idss ->
    forall e, NoDup (concat idss) ->
      (forall l, l ∈ concat idss -> l ∉ visited e) ->
      (size (dom h ∖ visited e) < fuel)%nat ->
      exists e', encode_each (do_encode fuel h) ds e = Ok e'
        /\ visited e' = visited e ∪ list_to_set (concat idss).
Proof.
  intros IH ds idss Hall.
  induction Hall as [|d ids ds idss Hd Hds IHds]; intros e Hnd Hfresh Hsize; simpl.
  - eexists. split; [reflexivity|set_solver].
  - simpl in Hnd, Hfresh. apply NoDup_app in Hnd as (Hnd1 & Hdisj & Hnd2).
    destruct (IH d ids e Hd Hnd1) as (e1 & -> & Hv1); [set_solver|done|].
    simpl.
    destruct (IHds (write (py " ") e1) Hnd2) as (e2 & -> & Hv2).
    + intros l Hl. rewrite visited_write, Hv1.
      intros Hin. apply elem_of_union in Hin as [Hin|Hin].
      * apply (Hfresh l); [set_solver|done].
      * apply elem_of_list_to_set in Hin. by apply (Hdisj l).
    + rewrite visited_write, Hv1.
      eapply Nat.le_lt_trans; [apply measure_mono|exact Hsize]. set_solver.
    + eexists. split; [reflexivity|].
      rewrite Hv2, visited_write, Hv1, list_to_set_app_L. set_solver.
Qed.

Lemma do_encode_complete (h : gmap ident collection) (fuel : nat) :
  forall d ids e, unfolds h d ids -> NoDup ids ->
    (forall l, l ∈ ids -> l ∉ visited e) ->
    (size (dom h ∖ visited e) < fuel)%nat ->
    exists e', do_encode fuel h d e = Ok e' /\ visited e' = visited e ∪ list_to_set ids.
Proof.
  induction fuel as [|fuel IH]; intros d ids e Hu Hnd Hfresh Hsize; [lia|].
  destruct Hu as [a|text|l o idss Hl Hall].
  - eexists. split; [reflexivity|]. rewrite visited_write. set_solver.
  - eexists. split; [reflexivity|]. rewrite visited_write. set_solver.
  - assert (l ∉ visited e) as Hfresh_l by (apply Hfresh; left).
    assert (circular e !! l = None) as Hc by (by apply not_elem_of_dom).
    assert (l ∈ dom h) as Hdom by (apply elem_of_dom; eauto).
    rewrite (do_encode_ref fuel h l o e Hl Hc).
    apply NoDup_cons in Hnd as [Hnotin Hnd].
    destruct (encode_each_complete h fuel IH _ _ Hall (write (opener o) (mark l e)) Hnd)
      as (e1 & Heach & Hv1).
    + intros l' Hl'. rewrite visited_write, visited_mark.
      intros Hin. apply elem_of_union in Hin as [Hin|Hin].
      * apply elem_of_singleton in Hin. by subst.
      * apply (Hfresh l'); [by right|done].
    + rewrite visited_write, visited_mark.
      pose proof (measure_mark h l (visited e) Hdom Hfresh_l). lia.
    + pose proof (encode_body_visited (do_encode fuel h) (members o) (write (opener o) (mark l e)))
        as Hbody.
      rewrite Heach in Hbody. destruct Hbody as (e2 & -> & Hv2). simpl.
      eexists. split; [reflexivity|].
      rewrite visited_write, Hv2, Hv1, visited_write, visited_mark. simpl. set_solver.
Qed.

(** *** Encoding ends, with a text or with the circular-reference error *)

Lemma encode_each_total (h : gmap ident collection) (fuel : nat) :
  (forall d e, refs_ok h d -> (size (dom h ∖ visited e) < fuel)%nat ->
     (exists e', do_encode fuel h d e = Ok e' /\ visited e ⊆ visited e')
     \/ do_encode fuel h d e = Raise ValueError_Circular) ->
  forall ds e, Forall (refs_ok h) ds -> (size (dom h ∖ visited e) < fuel)%nat ->
    (exists e', encode_each (do_encode fuel h) ds e = Ok e' /\ visited e ⊆ visited e')
    \/ encode_each (do_encode fuel h) ds e = Raise ValueError_Circular.
Proof.
  intros IH ds. induction ds as [|d ds IHds]; intros e Hok Hsize; simpl.
  - left. eauto.
  - apply Forall_cons in Hok as [Hd Hds].
    destruct (IH d e Hd Hsize) as [(e1 & -> & Hsub1)| ->]; [|by right]. simpl.
    destruct (IHds (write (py " ") e1) Hds) as [(e2 & -> & Hsub2)| ->]; [| |by right].
    + rewrite visited_write.
      eapply Nat.le_lt_trans; [apply measure_mono|exact Hsize]. done.
    + left. eexists. split; [reflexivity|]. rewrite visited_write in Hsub2. set_solver.
Qed.

Lemma do_encode_total (h : gmap ident collection) :
  closed h ->
  forall fuel d e, refs_ok h d -> (size (dom h ∖ visited e) < fuel)%nat ->
    (exists e', do_encode fuel h d e = Ok e' /\ visited e ⊆ visited e')
    \/ do_encode fuel h d e = Raise ValueError_Circular.
Proof.
  intros Hclosed. induction fuel as [|fuel IH]; intros d e Hd Hsize; [lia|].
  destruct d as [a|text|l].
  - left. eexists. split; [reflexivity|done].
  - left. eexists. split; [reflexivity|done].
  - destruct Hd as [o Hl].
    destruct (circular e !! l) as [b|] eqn:Hc.
    { right. apply (do_encode_seen fuel h l o e Hl).
      unfold visited. apply elem_of_dom. by exists b. }
    assert (l ∉ visited e) as Hfresh by (by apply not_elem_of_dom).
    assert (l ∈ dom h) as Hdom by (apply elem_of_dom; eauto).
    rewrite (do_encode_ref fuel h l o e Hl Hc).
    pose proof (encode_body_visited (do_encode fuel h) (members o) (write (opener o) (mark l e)))
      as Hbody.
    destruct (encode_each_total h fuel IH (members o) (write (opener o) (mark l e)))
      as [(e1 & Heach & Hsub)|Heach].
    + by apply (Hclosed l o).
    + rewrite visited_write, visited_mark.
      pose proof (measure_mark h l (visited e) Hdom Hfresh). lia.
    + rewrite Heach in Hbody. destruct Hbody as (e2 & -> & Hv2). simpl.
      left. eexists. split; [reflexivity|].
      rewrite visited_write, Hv2. rewrite visited_write, visited_mark in Hsub. set_solver.
    + rewrite Heach in Hbody. rewrite Hbody. by right.
Qed.

(** [C4] Within one call of [dumps], the error of a circular reference is
    raised exactly when a collection is met a second time, collections being
    told apart by identity: on a heap without dangling references, [dumps]
    returns a text when the object unfolds into a tree that holds no
    collection twice, and raises the error otherwise.  A list that contains
    itself raises; a list that holds the same list twice raises; a list that
    holds two distinct lists with equal contents does not.  The table of the
    identities met belongs to the call: an object encoded twice in a row, on
    the same stream, is encoded twice. *)
Theorem circular_reference_exactly_on_repeat
    (h : gmap ident collection) (d : pyobj) (fuel : nat) :
  closed h -> refs_ok h d -> (size h < fuel)%nat ->
  (dumps fuel h d = Raise ValueError_Circular <-> ~ tree_shaped h d)
  /\ ((exists s, dumps fuel h d = Ok s) <-> tree_shaped h d)
  /\ dumps 5 {[1%positive := PyList [Imm (SInt 5); Ref 1%positive]]} (Ref 1%positive)
     = Raise ValueError_Circular
  /\ dumps 5 (<[1%positive := PyList [Ref 2%positive; Ref 2%positive]]>
                {[2%positive := PyList [Imm (SInt 1)]]}) (Ref 1%positive)
     = Raise ValueError_Circular
  /\ dumps 5 (<[1%positive := PyList [Ref 2%positive; Ref 3%positive]]>
                (<[2%positive := PyList [Imm (SInt 1)]]>
                   {[3%positive := PyList [Imm (SInt 1)]]})) (Ref 1%positive)
     = Ok (py "[[1] [1]]")
  /\ rbind (dump 5 {[2%positive := PyList [Imm (SInt 1)]]} (Ref 2%positive) StringIO_empty)
       (fun fp => rbind (dump 5 {[2%positive := PyList [Imm (SInt 1)]]} (Ref 2%positive) fp)
                    (fun fp => Ok (getvalue fp)))
     = Ok (py "[1][1]").
Proof.
  intros Hclosed Hd Hfuel.
  assert (visited (CljEncoder_init d StringIO_empty) = ∅) as Hinit
    by (unfold visited; simpl; apply dom_empty_L).
  assert (size (dom h ∖ visited (CljEncoder_init d StringIO_empty)) < fuel)%nat as Hsize.
  { rewrite Hinit, difference_empty_L, size_dom. exact Hfuel. }
  assert (tree_shaped h d ->
          exists e, do_encode fuel h d (CljEncoder_init d StringIO_empty) = Ok e) as Hcomplete.
  { intros (ids & Hu & Hnd).
    destruct (do_encode_complete h fuel d ids (CljEncoder_init d StringIO_empty) Hu Hnd)
      as (e & He & _); [rewrite Hinit; set_solver|done|eauto]. }
  assert (forall e, do_encode fuel h d (CljEncoder_init d StringIO_empty) = Ok e ->
                    tree_shaped h d) as Hsound.
  { intros e He. destruct (do_encode_sound h fuel _ _ _ He) as (ids & Hu & Hnd & _).
    by exists ids. }
  pose proof (do_encode_total h Hclosed fuel d (CljEncoder_init d StringIO_empty) Hd Hsize)
    as Htotal.
  unfold dumps, dump.
  split; [|split; [|repeat split; reflexivity]].
  - split.
    + intros Hraise Htree. destruct (Hcomplete Htree) as (e & He).
      rewrite He in Hraise. discriminate.
    + intros Hnot. destruct Htotal as [(e & He & _)| ->]; [|reflexivity].
      destruct Hnot. by apply (Hsound e).
  - split.
    + intros (s & Hs).
      destruct (do_encode fuel h d (CljEncoder_init d StringIO_empty)) as [e| |] eqn:He;
        [|discriminate..]. by apply (Hsound e).
    + intros Htree. destruct (Hcomplete Htree) as (e & ->). simpl. eauto.
Qed.

Lemma closedb_sound (h : gmap ident collection) : closedb h = true -> closed h.
Proof.
  unfold closedb, closed. intros Hb l o Hl.
  rewrite forallb_forall in Hb.
  specialize (Hb (l, o)). simpl in Hb.
  assert (forallb (refs_okb h) (members o) = true) as Hm.
  { apply Hb. apply list_elem_of_In. by apply elem_of_map_to_list. }
  apply Forall_forall. intros d Hd.
  rewrite forallb_forall in Hm. specialize (Hm d (proj1 (list_elem_of_In _ _) Hd)).
  destruct d as [a|t|l']; simpl in *; try done.
  by apply bool_decide_eq_true in Hm.
Qed.
(** ** Further properties of the scalar readers *)

(** [X1] The Numeric Literal Parser gives back every integer from the
    decimal text Python writes for it, as an integer and not as a decimal
    or a float, as long as the text has no more digits than [int] converts
    (4300).  Beyond that [int] raises [ValueError], the parser takes its
    [except] branch and the result is what [float] makes of the text. *)
Theorem number_of_int_text (z : Z) :
  (N.of_nat (int_digits z) <= int_max_str_digits ->
     number (str_of_Z z) = Ok (Atom (SInt z)))
  /\ (int_max_str_digits < N.of_nat (int_digits z) ->
      number (str_of_Z z)
      = match float_of_str (str_of_Z z) with
        | Some f => Ok (Atom (SFloat f))
        | None => Raise (ValueError_float (str_of_Z z))
        end).
Proof.
  rewrite number_str_of_Z. split; intros Hdigits.
  - by apply N.leb_le in Hdigits as ->.
  - by apply N.leb_gt in Hdigits as ->.
Qed.

(** *** Strings above the Basic Multilingual Plane *)

Lemma lor_low_bits (k x : N) : N.lor (k * 1024) (N.land x 1023) = k * 1024 + x mod 1024.
Proof.
  change 1023 with (N.ones 10). rewrite N.land_ones.
  change (2 ^ 10) with 1024.
  assert (N.land (k * 1024) (x mod 1024) = 0) as Hdisjoint.
  { apply N.bits_inj. intros i. rewrite N.land_spec, N.bits_0.
    destruct (N.lt_ge_cases i 10) as [Hi|Hi].
    - change 1024 with (2 ^ 10). by rewrite N.mul_pow2_bits_low.
    - change 1024 with (2 ^ 10). rewrite (N.mod_pow2_bits_high x 10 i Hi).
      apply andb_false_r. }
  rewrite (N.add_nocarry_lxor _ _ Hdisjoint). symmetry. by apply N.lxor_lor.
Qed.

Lemma json_replace_surrogates (c : codepoint) :
  65536 <= c ->
  json_sub c = py "\u" ++ format_04x (55296 + ((c - 65536) / 1024) mod 1024)
               ++ py "\u" ++ format_04x (56320 + (c - 65536) mod 1024).
Proof.
  intros Hc. unfold json_sub, json_escaped, json_replace.
  assert ((c =? 92) = false) as -> by (apply N.eqb_neq; lia).
  assert ((c =? 34) = false) as -> by (apply N.eqb_neq; lia).
  assert ((c <=? 126) = false) as -> by (apply N.leb_gt; lia).
  rewrite andb_false_r. cbv [orb negb].
  assert ((c =? 8) = false) as -> by (apply N.eqb_neq; lia).
  assert ((c =? 12) = false) as -> by (apply N.eqb_neq; lia).
  assert ((c =? 10) = false) as -> by (apply N.eqb_neq; lia).
  assert ((c =? 13) = false) as -> by (apply N.eqb_neq; lia).
  assert ((c =? 9) = false) as -> by (apply N.eqb_neq; lia).
  assert ((c <? 65536) = false) as -> by (apply N.ltb_ge; lia).
  cbv zeta. rewrite N.shiftr_div_pow2. change (2 ^ 10) with 1024.
  change 55296 with (54 * 1024). change 56320 with (55 * 1024).
  by rewrite !lor_low_bits.
Qed.

(** What the Escape Resolver makes of the text written for one character. *)
Lemma decode_json_sub (c : codepoint) (rest : str) :
  _decode_escapes (json_sub c ++ rest)
  = rbind (_decode_escapes rest) (fun r => Ok (utf16_units c ++ r)).
Proof.
  unfold utf16_units. destruct (N.ltb_spec c 65536) as [Hc|Hc].
  - by rewrite (decode_unit c _ _ (json_sub_unit c) Hc).
  - rewrite (json_replace_surrogates c Hc).
    set (hi := 55296 + ((c - 65536) / 1024) mod 1024).
    set (lo := 56320 + (c - 65536) mod 1024).
    assert (hi < 65536) as Hhi.
    { pose proof (N.mod_upper_bound ((c - 65536) / 1024) 1024). subst hi. lia. }
    assert (lo < 65536) as Hlo.
    { pose proof (N.mod_upper_bound (c - 65536) 1024). subst lo. lia. }
    replace ((py "\u" ++ format_04x hi ++ py "\u" ++ format_04x lo) ++ rest)
      with ((py "\u" ++ format_04x hi) ++ (py "\u" ++ format_04x lo) ++ rest)
      by (by rewrite <- !app_assoc).
    rewrite (decode_unit hi _ _ (unit_u4 hi Hhi) Hhi).
    rewrite (decode_unit lo _ _ (unit_u4 lo Hlo) Hlo).
    by destruct (_decode_escapes rest).
Qed.

Lemma decode_json_body_utf16 (s : str) :
  _decode_escapes (concat (map json_sub s)) = Ok (concat (map utf16_units s)).
Proof.
  induction s as [|c s IH]; [reflexivity|].
  simpl. by rewrite decode_json_sub, IH.
Qed.

Lemma utf16_units_bmp (s : str) :
  Forall (fun c => c < 65536) s -> concat (map utf16_units s) = s.
Proof.
  induction 1 as [|c s Hc Hs IH]; [reflexivity|].
  simpl. rewrite IH. unfold utf16_units.
  by apply N.ltb_lt in Hc as ->.
Qed.

(** [X2] The Escape Resolver undoes the escaping of the encoder's string
    branch: applied to the text that [py_encode_basestring_ascii] puts
    between the quotes, it returns the string itself whenever every code
    point is in the Basic Multilingual Plane, a trailing backslash
    included. *)
Theorem escapes_undo_the_written_body (s : str) :
  Forall (fun c => c < 65536) s ->
  exists body,
    py_encode_basestring_ascii s = [DQUOTE] ++ body ++ [DQUOTE]
    /\ _decode_escapes body = Ok s.
Proof.
  intros Hbmp. exists (concat (map json_sub s)). split; [reflexivity|].
  by rewrite decode_json_body_utf16, utf16_units_bmp.
Qed.

(** [X3] Encoding then decoding a string that does not end in a backslash
    gives its UTF-16 code units: the string itself when every code point is
    in the Basic Multilingual Plane, and otherwise a longer string in which
    each code point above it has become a high and a low surrogate. *)
Theorem string_comes_back_as_utf16 (s : str) (fuel : nat) :
  last s <> Some BACKSLASH ->
  (length (py_encode_basestring_ascii s) < fuel)%nat ->
  roundtrip fuel (SStr s) = Ok (Atom (SStr (concat (map utf16_units s))))
  /\ (Forall (fun c => c < 65536) s -> concat (map utf16_units s) = s)
  /\ (forall c, c ∈ s -> 65536 <= c ->
        (length s < length (concat (map utf16_units s)))%nat).
Proof.
  intros Hlast Hfuel. split; [|split].
  - destruct fuel as [|fuel]; [lia|]. rewrite roundtrip_eq.
    change (scalar_text (SStr s)) with (DQUOTE :: concat (map json_sub s) ++ [DQUOTE]).
    apply decode_string_literal.
    + intros p. apply json_body_no_close.
    + apply json_body_head.
    + by apply json_body_last.
    + apply decode_json_body_utf16.
    + unfold py_encode_basestring_ascii in Hfuel. simpl in Hfuel.
      rewrite length_app in Hfuel. simpl in Hfuel. lia.
  - apply utf16_units_bmp.
  - intros c Hin Hc. clear Hlast Hfuel.
    assert (forall t, (length t <= length (concat (map utf16_units t)))%nat) as Hle.
    { induction t as [|x t IH]; [done|]. simpl. rewrite length_app.
      unfold utf16_units at 1. destruct (x <? 65536); simpl; lia. }
    induction s as [|x s IH]; [by apply elem_of_nil in Hin|].
    simpl. rewrite length_app.
    apply elem_of_cons in Hin as [<-|Hin].
    + unfold utf16_units at 1.
      assert ((c <? 65536) = false) as -> by (apply N.ltb_ge; lia).
      specialize (Hle s). simpl. lia.
    + specialize (IH Hin).
      unfold utf16_units at 1. destruct (x <? 65536); simpl; lia.
Qed.

(** *** Keywords *)

(** [X4] A keyword decodes to its name as a plain string: at the top
    level, a colon followed by characters that are no stop characters, up to
    a stop character or to the end of the input, decodes to the string of
    these characters.  Nothing marks the result as a keyword: when the name
    holds no double quote and no backslash, the string literal of the name
    decodes to the same value. *)
Theorem keyword_is_its_name (body tail : str) (fuel : nat) :
  forallb (fun c => negb (is_stop c)) body = true ->
  match tail with [] => True | w :: _ => is_stop w = true end ->
  (S (length body) < fuel)%nat ->
  loads fuel (58 :: body ++ tail) = Ok (Atom (SStr body))
  /\ (plain_text body ->
      loads fuel (DQUOTE :: body ++ [DQUOTE]) = loads fuel (58 :: body ++ tail)).
Proof.
  intros Hbody Htail Hfuel.
  assert (loads fuel (58 :: body ++ tail) = Ok (Atom (SStr body))) as Hkey.
  { destruct fuel as [|fuel]; [lia|].
    unfold loads, load. rewrite decode_eq, read_token_eq.
    rewrite (lead_char _ [] fuel _ 58 (body ++ tail)) by (done || simpl; lia).
    change (str_eqb [58] []) with false. cbv iota.
    unfold bind at 1.
    change (get_type_from_char [58] ?d)
      with (@Ok R _ ((Some T_keyword, false, @None (list N)), d)).
    cbv beta iota. unfold read_scalar. rewrite bind_assoc. unfold bind at 1.
    remember (advance 58 (advance_all [] (CljDecoder_init (StringIO_of (58 :: body ++ tail)))))
      as d1 eqn:Hd1.
    assert (forall cs, value_stack (advance_all cs d1) = []
                       /\ terminator (advance_all cs d1) = None) as Hstate
      by (intros cs; destruct (stack_advance_all cs d1) as [-> ->]; by subst d1).
    destruct tail as [|w rest].
    - destruct (Hstate body) as [Hstack Hterm].
      rewrite (read_symbol_to_eof body fuel 58 []);
        [|subst d1; simpl; by rewrite app_nil_r|by subst d1|done|done|lia].
      unfold bind, ret. simpl app.
      rewrite removelast_last, join_singletons.
      unfold close_and_append. rewrite Hterm, Hstack.
      rewrite bool_decide_eq_false_2 by done. simpl. rewrite ?Hstack. simpl.
      rewrite ?Hstack. reflexivity.
    - destruct (Hstate (body ++ [w])) as [Hstack Hterm].
      rewrite (read_symbol_to_stop body fuel 58 [] d1 w rest);
        [|by subst d1|by subst d1|done|done|done|lia].
      unfold bind, ret. simpl app.
      rewrite removelast_last, join_singletons.
      unfold close_and_append. rewrite Hterm, Hstack.
      rewrite bool_decide_eq_false_2 by done. simpl. rewrite ?Hstack. simpl.
      rewrite ?Hstack. reflexivity. }
  split; [exact Hkey|].
  intros Hplain. rewrite Hkey.
  destruct (plain_text_facts body Hplain) as (Hno & Hhead & Hlast & Hesc).
  by apply decode_string_literal.
Qed.

(** *** Literals that are never closed *)

Lemma no_quote_no_close (s : str) (p : codepoint) :
  forallb (fun c => negb (c =? DQUOTE)) s = true -> no_close p s = true.
Proof.
  revert p. induction s as [|x s IH]; intros p; [reflexivity|].
  simpl. intros H. apply andb_true_iff in H as [Hx Hs].
  apply negb_true_iff in Hx. rewrite Hx. by rewrite IH.
Qed.

(** [X5] A string literal whose closing quote is missing is not reported:
    once the input is exhausted the string loop keeps reading the empty
    string, so that [loads] returns for no bound on the number of its
    steps.  No [Unexpected EOF] is raised. *)
Theorem unterminated_string_never_returns (body : str) (fuel : nat) :
  forallb (fun c => negb (c =? DQUOTE)) body = true ->
  loads fuel (DQUOTE :: body) = OutOfFuel.
Proof.
  intros Hbody. apply unclosed_string_diverges.
  destruct body as [|x body]; [reflexivity|].
  by apply no_quote_no_close.
Qed.

(** ** Peeking at the stream *)

(** [__read_and_back] in one equation: [k] characters are read, and the
    position then moves back by [size], whatever [k] is. *)
Lemma read_and_back_eq (size : nat) (d : CljDecoder) :
  read_and_back size d =
    let k := Nat.min size (length (after (fd d))) in
    if (size <=? fd_tell (fd d) + k)%nat then
      Ok (take size (after (fd d)),
          set_fd d {| before := drop (size - k) (before (fd d));
                      after := rev (take (size - k) (before (fd d))) ++ after (fd d) |})
    else Raise ValueError_seek.
Proof.
  unfold read_and_back, fd_read, _seek_back, fd_tell. cbn [before after].
  assert (length (rev (take size (after (fd d)))) = Nat.min size (length (after (fd d))))
    as Hlen by (by rewrite length_rev, length_take).
  rewrite length_app, Hlen.
  rewrite (Nat.add_comm (Nat.min _ _)). cbv zeta.
  destruct (size <=? _)%nat; [|reflexivity].
  do 3 f_equal. apply (f_equal2 mkStringIO).
  - rewrite drop_app_ge by (rewrite Hlen; lia). by rewrite Hlen.
  - rewrite take_app_ge by (rewrite Hlen; lia). rewrite Hlen.
    rewrite rev_app_distr, rev_involutive, <- app_assoc.
    by rewrite take_drop.
Qed.

Lemma read_and_back_enough (size : nat) (d : CljDecoder) :
  (size <= length (after (fd d)))%nat ->
  read_and_back size d = Ok (take size (after (fd d)), d).
Proof.
  intros Hsize. rewrite read_and_back_eq. cbv zeta.
  rewrite Nat.min_l by done.
  rewrite (proj2 (Nat.leb_le _ _)) by lia.
  rewrite Nat.sub_diag. cbn [drop take rev app].
  by destruct d as [[b a] l p st t].
Qed.

(** [X6] [__read_and_back] is a look-ahead only while enough characters
    remain: it then returns the next [size] characters and leaves the
    decoder as it was.  With fewer characters left it returns what is left
    and the position ends up before the place where it started, by as many
    characters as were missing, the contents being unchanged; when that
    place would be before the start of the stream, the seek raises. *)
Theorem read_and_back_restores_only_when_enough (size : nat) (d : CljDecoder) :
  ((size <= length (after (fd d)))%nat ->
     read_and_back size d = Ok (take size (after (fd d)), d))
  /\ ((length (after (fd d)) < size)%nat ->
      (size <= fd_tell (fd d) + length (after (fd d)))%nat ->
      exists d', read_and_back size d = Ok (after (fd d), d')
        /\ (fd_tell (fd d') + (size - length (after (fd d))) = fd_tell (fd d))%nat
        /\ getvalue (fd d') = getvalue (fd d)
        /\ value_stack d' = value_stack d /\ terminator d' = terminator d)
  /\ ((fd_tell (fd d) + length (after (fd d)) < size)%nat ->
      read_and_back size d = Raise ValueError_seek).
Proof.
  split; [apply read_and_back_enough|]. split.
  - intros Hshort Hroom. rewrite read_and_back_eq. cbv zeta.
    rewrite Nat.min_r by lia.
    rewrite (proj2 (Nat.leb_le _ _)) by lia.
    eexists. split; [by rewrite take_ge by lia|].
    unfold set_fd, fd_tell, getvalue in *. cbn [fd before after value_stack terminator].
    split; [rewrite length_drop; lia|]. split; [|done].
    rewrite app_assoc, <- rev_app_distr. by rewrite take_drop.
  - intros Hshort. rewrite read_and_back_eq. cbv zeta.
    rewrite Nat.min_r by lia.
    by rewrite (proj2 (Nat.leb_gt _ _)) by lia.
Qed.

(** *** A namespace that is not followed by a brace *)

Lemma read_namespace_eq (fuel : nat) (c : str) (buf : list str) :
  read_namespace fuel c buf =
    if negb (str_eqb c (py "{")) then
      match fuel with
      | O => out_of_fuel
      | S fuel' => bind (read_fd 1) (fun c' => read_namespace fuel' c' (buf ++ [c']))
      end
    else ret buf.
Proof. destruct fuel; reflexivity. Qed.

Lemma read_namespace_never (fuel : nat) :
  forall (c : str) (buf : list str) (d : CljDecoder),
    c <> py "{" ->
    forallb (fun x => negb (x =? 123)) (after (fd d)) = true ->
    read_namespace fuel c buf d = OutOfFuel.
Proof.
  induction fuel as [|fuel IH]; intros c buf d Hc Hrest; rewrite read_namespace_eq;
    unfold str_eqb; rewrite bool_decide_eq_false_2 by done; [reflexivity|].
  cbv [negb]. unfold bind.
  destruct (after (fd d)) as [|x rest] eqn:Hafter.
  - rewrite (read_fd1_eof d Hafter). apply IH; [done|by rewrite Hafter].
  - rewrite (read_fd1_cons d x rest Hafter).
    simpl in Hrest. apply andb_true_iff in Hrest as [Hx Hrest].
    apply negb_true_iff, N.eqb_neq in Hx.
    apply IH; [intros [= ->]; by apply Hx|].
    by rewrite (after_advance d x rest Hafter).
Qed.

(** [X7] A namespaced map literal whose namespace is not followed by an
    opening brace is not reported: the loop that collects the namespace
    only stops on a brace, so that on [#:] followed by a text without brace
    [loads] returns for no bound on the number of its steps. *)
Theorem namespace_without_brace_never_returns (rest : str) (fuel : nat) :
  forallb (fun x => negb (x =? 123)) rest = true ->
  loads fuel (35 :: 58 :: rest) = OutOfFuel.
Proof.
  intros Hrest. destruct fuel as [|fuel]; [reflexivity|].
  unfold loads, load. rewrite decode_eq, read_token_eq.
  rewrite (lead_char _ [] fuel _ 35 (58 :: rest)) by (done || simpl; lia).
  change (str_eqb [35] []) with false. cbv iota.
  remember (advance 35 (advance_all [] (CljDecoder_init (StringIO_of (35 :: 58 :: rest)))))
    as d1 eqn:Hd1.
  assert (after (fd d1) = 58 :: rest) as Hafter by (by subst d1).
  assert (get_type_from_char [35] d1
          = Ok ((Some T_namespaced_dict, true, Some (py "}")), d1)) as Htype.
  { unfold get_type_from_char.
    change (isdigit [35] || str_eqb [35] (py "-")) with false.
    change (str_eqb [35] (py "t") || str_eqb [35] (py "f")) with false.
    change (str_eqb [35] (py "n")) with false.
    change (str_eqb [35] [BACKSLASH]) with false.
    change (str_eqb [35] (py ":")) with false.
    change (str_eqb [35] [DQUOTE]) with false.
    change (str_eqb [35] (py "#")) with true. cbv iota.
    unfold bind.
    rewrite read_and_back_enough by (rewrite Hafter; simpl; lia).
    rewrite Hafter. change (str_eqb (take 1 (58 :: rest)) (py "{")) with false.
    cbv beta iota.
    rewrite read_and_back_enough by (rewrite Hafter; simpl; lia).
    rewrite Hafter. reflexivity. }
  unfold bind at 1. rewrite Htype. cbv beta iota.
  unfold open_collection.
  change (type_is (Some T_namespaced_dict) T_set) with false.
  change (type_is (Some T_namespaced_dict) T_namespaced_dict) with true.
  cbv iota. unfold bind, ret.
  rewrite (read_fd1_cons d1 58 rest Hafter).
  rewrite read_namespace_never; [reflexivity|done|].
  by rewrite (after_advance d1 58 rest Hafter).
Qed.

(** *** A number sign that starts no form *)

Lemma hash_dispatch (d : CljDecoder) :
  get_type_from_char [35] d =
    bind (read_and_back 1) (fun s1 =>
      if str_eqb s1 (py "{") then ret (Some T_set, true, Some (py "}")) else
      bind (read_and_back 1) (fun s2 =>
        if str_eqb s2 (py ":") then ret (Some T_namespaced_dict, true, Some (py "}")) else
        bind (read_and_back 4) (fun s3 =>
          if str_eqb s3 (py "inst") then ret (Some T_datetime, false, None) else
          bind (read_and_back 4) (fun s4 =>
            if str_eqb s4 (py "uuid") then ret (Some T_uuid, false, None) else
            ret (None, false, None))))) d.
Proof. reflexivity. Qed.

Ltac peek_short :=
  unfold bind at 1; rewrite read_and_back_eq; unfold set_fd;
  cbn [fd after before length Nat.min fd_tell Nat.add Nat.leb Nat.sub take drop rev app
       cur_line cur_pos value_stack terminator].
Ltac peek_enough :=
  unfold bind at 1; rewrite read_and_back_enough by (simpl; lia); cbn [fd after take].

(** [X9] A number sign followed by none of [{], [:], [inst] and [uuid] is
    rejected, but not always as an unexpected character.  At the start of a
    text with at least three characters after the sign the error is
    [Unexpected char] at line 1, column 1; with fewer characters the
    four-character look-ahead moves back beyond the start of the stream and
    what is raised is the seek's [ValueError]. *)
Theorem stray_number_sign (rest : str) (fuel : nat) :
  head rest <> Some 123 -> head rest <> Some 58 ->
  take 4 rest <> py "inst" -> take 4 rest <> py "uuid" ->
  (0 < fuel)%nat ->
  loads fuel (35 :: rest)
  = if (3 <=? length rest)%nat
    then Raise (ValueError_UnexpectedChar (py "#") 1 1)
    else Raise ValueError_seek.
Proof.
  intros Hbrace Hcolon Hinst Huuid Hfuel.
  destruct fuel as [|fuel]; [lia|].
  unfold loads, load. rewrite decode_eq, read_token_eq.
  rewrite (lead_char _ [] fuel _ 35 rest) by (done || simpl; lia).
  change (str_eqb [35] []) with false. cbv iota.
  unfold bind at 1. rewrite hash_dispatch.
  change (advance 35 (advance_all [] (CljDecoder_init (StringIO_of (35 :: rest)))))
    with {| fd := {| before := [35]; after := rest |}; cur_line := 1; cur_pos := 1;
            value_stack := []; terminator := None |}.
  destruct rest as [|a [|b [|c [|e rest]]]].
  - peek_short. change (str_eqb [] (py "{")) with false. cbv iota.
    peek_enough. change (str_eqb [35] (py ":")) with false. cbv iota.
    peek_short. reflexivity.
  - assert ((a =? 123) = false) as Ha1 by (apply N.eqb_neq; intros ->; by apply Hbrace).
    assert ((a =? 58) = false) as Ha2 by (apply N.eqb_neq; intros ->; by apply Hcolon).
    peek_enough. change (py "{") with [123]. rewrite str_eqb_single, Ha1.
    peek_enough. change (py ":") with [58]. rewrite str_eqb_single, Ha2.
    peek_short. reflexivity.
  - assert ((a =? 123) = false) as Ha1 by (apply N.eqb_neq; intros ->; by apply Hbrace).
    assert ((a =? 58) = false) as Ha2 by (apply N.eqb_neq; intros ->; by apply Hcolon).
    peek_enough. change (py "{") with [123]. rewrite str_eqb_single, Ha1.
    peek_enough. change (py ":") with [58]. rewrite str_eqb_single, Ha2.
    peek_short. reflexivity.
  - assert ((a =? 123) = false) as Ha1 by (apply N.eqb_neq; intros ->; by apply Hbrace).
    assert ((a =? 58) = false) as Ha2 by (apply N.eqb_neq; intros ->; by apply Hcolon).
    peek_enough. change (py "{") with [123]. rewrite str_eqb_single, Ha1.
    peek_enough. change (py ":") with [58]. rewrite str_eqb_single, Ha2.
    peek_short. unfold str_eqb at 1. rewrite bool_decide_eq_false_2 by discriminate.
    peek_enough. unfold str_eqb at 1. rewrite bool_decide_eq_false_2 by discriminate.
    reflexivity.
  - assert ((a =? 123) = false) as Ha1 by (apply N.eqb_neq; intros ->; by apply Hbrace).
    assert ((a =? 58) = false) as Ha2 by (apply N.eqb_neq; intros ->; by apply Hcolon).
    peek_enough. change (py "{") with [123]. rewrite str_eqb_single, Ha1.
    peek_enough. change (py ":") with [58]. rewrite str_eqb_single, Ha2.
    peek_enough. unfold str_eqb at 1. rewrite bool_decide_eq_false_2 by exact Hinst.
    peek_enough. unfold str_eqb at 1. rewrite bool_decide_eq_false_2 by exact Huuid.
    reflexivity.
Qed.

(** ** Line and column of an error *)

Lemma position_advance_all (ws : str) : forall d : CljDecoder,
  cur_line (advance_all ws d) = (cur_line d + newlines ws)%nat
  /\ cur_pos (advance_all ws d) = if existsb (N.eqb NEWLINE) ws then 0%nat else cur_pos d.
Proof.
  induction ws as [|c ws IH] using rev_ind; intros d.
  - unfold newlines, advance_all. simpl. split; [lia|done].
  - rewrite advance_all_snoc. unfold advance at 1 2. cbn [cur_line cur_pos].
    destruct (IH d) as [-> ->].
    unfold newlines. rewrite count_occ_app, existsb_app. cbn [count_occ existsb].
    rewrite (N.eqb_sym NEWLINE c).
    destruct (N.eqb_spec c NEWLINE) as [->|Hc].
    + rewrite orb_true_r. destruct (N.eq_dec NEWLINE NEWLINE); [|done].
      split; [lia|done].
    + rewrite !orb_false_r. destruct (N.eq_dec c NEWLINE); [done|].
      split; [lia|done].
Qed.

Lemma unexpected_has_no_type (c : codepoint) (d : CljDecoder) :
  starts_token c = false -> get_type_from_char [c] d = Ok ((None, false, None), d).
Proof.
  unfold starts_token. cbn [existsb]. intros H.
  repeat (apply orb_false_iff in H as [? H]).
  unfold get_type_from_char.
  rewrite isdigit_single. unfold py. cbn [list_ascii_of_string map].
  rewrite !str_eqb_single.
  change (N_of_ascii "-") with 45. change (N_of_ascii "t") with 116.
  change (N_of_ascii "f") with 102. change (N_of_ascii "n") with 110.
  change (N_of_ascii ":") with 58. change (N_of_ascii "#") with 35.
  change (N_of_ascii "{") with 123. change (N_of_ascii "(") with 40.
  change (N_of_ascii "[") with 91. unfold BACKSLASH, DQUOTE.
  repeat match goal with
         | E : _ = false |- _ => rewrite E; clear E
         end.
  reflexivity.
Qed.

(** [X8] The position in the message of [Unexpected char]: the line is
    the decoder's line plus the number of newlines skipped before the
    character; the column is not the place of the character in its line but
    the decoder's column counter, which the skipped characters do not
    advance and a newline resets to 0.  At the start of a text the message
    so names line 1 plus the newlines, and column 1 or, after a newline,
    column 0. *)
Theorem unexpected_char_position (fuel : nat) (d : CljDecoder) (ws : str)
    (c : codepoint) (rest : str) :
  after (fd d) = ws ++ c :: rest ->
  forallb is_stop ws = true ->
  is_unexpected c = true ->
  (length ws < fuel)%nat ->
  read_token fuel d
  = Raise (ValueError_UnexpectedChar [c] (cur_line d + newlines ws)
             (if existsb (N.eqb NEWLINE) ws then 0 else cur_pos d))
  /\ loads fuel (ws ++ c :: rest)
     = Raise (ValueError_UnexpectedChar [c] (1 + newlines ws)
                (if existsb (N.eqb NEWLINE) ws then 0 else 1)).
Proof.
  intros Hafter Hws Hc Hfuel.
  unfold is_unexpected in Hc.
  apply andb_true_iff in Hc as [Hc Hstop]. apply andb_true_iff in Hc as [Hlead Hclose].
  apply negb_true_iff in Hlead, Hclose, Hstop.
  assert (forall d0 : CljDecoder, after (fd d0) = ws ++ c :: rest ->
            read_token fuel d0
            = Raise (ValueError_UnexpectedChar [c] (cur_line d0 + newlines ws)
                       (if existsb (N.eqb NEWLINE) ws then 0 else cur_pos d0)))%nat
    as Htoken.
  { intros d0 Hafter0. destruct fuel as [|fuel]; [lia|].
    apply (lead_scalar_raises fuel d0 ws c rest None); try done; try lia.
    - intros d1. by apply unexpected_has_no_type.
    - unfold read_scalar. rewrite str_in_close, Hclose. cbv [negb].
      destruct (position_advance_all ws d0) as [Hline Hpos].
      unfold advance. cbn [cur_line cur_pos].
      assert ((c =? NEWLINE) = false) as ->.
      { destruct (N.eqb_spec c NEWLINE) as [->|]; [discriminate Hstop|done]. }
      by rewrite Hline, Hpos. }
  split; [by apply Htoken|].
  unfold loads, load. destruct fuel as [|fuel]; [lia|].
  rewrite decode_eq, (Htoken (CljDecoder_init (StringIO_of (ws ++ c :: rest))) eq_refl).
  reflexivity.
Qed.

(** ** The encoder object *)

Lemma encode_each_data (enc : pyobj -> CljEncoder -> result CljEncoder) (ds : list pyobj) :
  (forall d e e', enc d e = Ok e' -> data e' = data e) ->
  forall e e', encode_each enc ds e = Ok e' -> data e' = data e.
Proof.
  intros Henc. induction ds as [|d ds IH]; intros e e'; simpl.
  - by intros [= <-].
  - destruct (enc d e) as [e1| |] eqn:Hd; simpl; [|done|done].
    intros Hrest. rewrite (IH _ _ Hrest). simpl. by apply (Henc d).
Qed.

Lemma seek_back_out_data (n : nat) (e e' : CljEncoder) :
  seek_back_out n e = Ok e' -> data e' = data e.
Proof.
  unfold seek_back_out. destruct (_seek_back (out e) n); [|done]. by intros [= <-].
Qed.

Lemma do_encode_data (h : gmap ident collection) (fuel : nat) :
  forall d e e', do_encode fuel h d e = Ok e' -> data e' = data e.
Proof.
  induction fuel as [|fuel IH]; intros d e e' Hrun; [discriminate|].
  destruct d as [a|text|l].
  - by injection Hrun as <-.
  - by injection Hrun as <-.
  - destruct (h !! l) as [o|] eqn:Hl; [|simpl in Hrun; by rewrite Hl in Hrun].
    destruct (circular e !! l) as [b|] eqn:Hc.
    { rewrite (do_encode_seen fuel h l o e Hl) in Hrun; [done|].
      unfold visited. apply elem_of_dom. by exists b. }
    rewrite (do_encode_ref fuel h l o e Hl Hc) in Hrun.
    unfold encode_body in Hrun.
    destruct (members o) as [|m ms].
    + simpl in Hrun. by injection Hrun as <-.
    + destruct (encode_each (do_encode fuel h) (m :: ms) (write (opener o) (mark l e)))
        as [e1| |] eqn:Heach; simpl in Hrun; [|done|done].
      destruct (seek_back_out 1 e1) as [e2| |] eqn:Hback; simpl in Hrun; [|done|done].
      injection Hrun as <-. simpl.
      rewrite (seek_back_out_data _ _ _ Hback).
      by rewrite (encode_each_data _ _ IH _ _ Heach).
Qed.

(** [X10] An encoder object serves once: [circular] is filled by
    [encode] and never emptied, so that a second call of [encode] on an
    encoder whose data is a collection raises the error of a circular
    reference, although nothing is circular. *)
Theorem encoder_object_serves_once (h : gmap ident collection) (fuel : nat)
    (e e' : CljEncoder) (l : ident) :
  data e = Ref l ->
  encode fuel h e = Ok e' ->
  encode fuel h e' = Raise ValueError_Circular.
Proof.
  unfold encode. intros Hdata Hrun.
  rewrite (do_encode_data h fuel _ _ _ Hrun), Hdata. rewrite Hdata in Hrun.
  destruct (do_encode_sound h fuel _ _ _ Hrun) as (ids & Hu & _ & _ & Hv).
  destruct fuel as [|fuel]; [discriminate|].
  inversion Hu as [| |l' o idss Hl Hmembers]; subst.
  apply (do_encode_seen fuel h l o e' Hl).
  rewrite Hv. set_solver.
Qed.

(** ** What the encoder writes *)

Lemma concat_with_separator (sep : str) (ts : list str) :
  ts <> [] -> concat (map (fun t => t ++ sep) ts) = join_with sep ts ++ sep.
Proof.
  induction ts as [|t ts IH]; [done|]. intros _.
  destruct ts as [|t' ts]; [simpl; by rewrite app_nil_r|].
  change (concat (map (fun t => t ++ sep) (t :: t' :: ts)))
    with ((t ++ sep) ++ concat (map (fun t => t ++ sep) (t' :: ts))).
  rewrite IH by done.
  change (join_with sep (t :: t' :: ts)) with (t ++ sep ++ join_with sep (t' :: ts)).
  by rewrite <- !app_assoc.
Qed.

Lemma out_write (s : str) (e : CljEncoder) :
  after (out e) = [] ->
  out (write s e) = {| before := rev s ++ before (out e); after := [] |}.
Proof.
  intros Hend. unfold write, fd_write. cbn [out]. by rewrite Hend, drop_nil.
Qed.

(** The members of a collection are written one after the other, each
    followed by a space. *)
Lemma encode_each_text (h : gmap ident collection) (fuel : nat) :
  (forall d v e e', denotes h d v -> do_encode fuel h d e = Ok e' -> after (out e) = [] ->
     out e' = {| before := rev (clj_text v) ++ before (out e); after := [] |}) ->
  forall ds vs e e', Forall2 (denotes h) ds vs ->
    encode_each (do_encode fuel h) ds e = Ok e' -> after (out e) = [] ->
    out e' = {| before := rev (concat (map (fun v => clj_text v ++ py " ") vs))
                          ++ before (out e);
                after := [] |}.
Proof.
  intros IH ds vs e e' Hden. revert e e'.
  induction Hden as [|d v ds vs Hd Hds IHds]; intros e e'; cbn [encode_each].
  - intros [= <-] Hend. simpl. by destruct (out e) as [b a]; simpl in *; subst.
  - destruct (do_encode fuel h d e) as [e1| |] eqn:Hrun; cbn [rbind]; [|done|done].
    intros Hrest Hend.
    pose proof (IH d v e e1 Hd Hrun Hend) as Hout1.
    assert (after (out e1) = []) as Hend1 by (by rewrite Hout1).
    rewrite (IHds _ _ Hrest) by (by rewrite out_write).
    rewrite (out_write _ _ Hend1), Hout1. cbn [before map concat].
    f_equal. rewrite !rev_app_distr, <- !app_assoc. reflexivity.
Qed.

Lemma members_denote (h : gmap ident collection) (items : list (pyobj * pyobj))
    (vitems : list (value * value)) :
  Forall2 (fun kv wv => denotes h (fst kv) (fst wv) /\ denotes h (snd kv) (snd wv))
          items vitems ->
  Forall2 (denotes h) (members (PyDict items)) (value_members (VDict vitems)).
Proof.
  induction 1 as [|[k x] [w y] items vitems [Hk Hx] _ IH]; [constructor|].
  simpl. constructor; [done|]. constructor; [done|]. exact IH.
Qed.

Lemma clj_text_collection (v : value) :
  match v with Atom _ => False | _ => True end ->
  clj_text v
  = match v with VSet _ => py "#{" | VDict _ => py "{" | _ => py "[" end
    ++ join_with (py " ") (map clj_text (value_members v))
    ++ match v with VSet _ | VDict _ => py "}" | _ => py "]" end.
Proof.
  destruct v as [a|l|l|l|items]; try done. intros _.
  cbn [clj_text value_members]. do 3 f_equal.
  induction items as [|[k x] items IH]; [reflexivity|].
  simpl. by rewrite IH.
Qed.

(** A call of [__do_encode] that returns has appended the text of the
    value to the stream, when the stream was at its end. *)
Lemma do_encode_text (h : gmap ident collection) (fuel : nat) :
  forall d v e e', denotes h d v -> do_encode fuel h d e = Ok e' -> after (out e) = [] ->
    out e' = {| before := rev (clj_text v) ++ before (out e); after := [] |}.
Proof.
  induction fuel as [|fuel IH]; intros d v e e' Hden Hrun Hend; [discriminate|].
  assert (forall l o w,
            h !! l = Some o -> d = Ref l ->
            Forall2 (denotes h) (members o) (value_members w) ->
            clj_text w = opener o ++ join_with (py " ") (map clj_text (value_members w))
                         ++ closer o ->
            out e' = {| before := rev (clj_text w) ++ before (out e); after := [] |})
    as Hcoll.
  { intros l o w Hl -> Hmem Htext.
    destruct (circular e !! l) as [b|] eqn:Hc.
    { rewrite (do_encode_seen fuel h l o e Hl) in Hrun; [done|].
      unfold visited. apply elem_of_dom. by exists b. }
    rewrite (do_encode_ref fuel h l o e Hl Hc) in Hrun.
    assert (after (out (write (opener o) (mark l e))) = []) as Hend0
      by (by rewrite out_write).
    unfold encode_body in Hrun.
    destruct (members o) as [|m ms] eqn:Hmembers.
    - pose proof (Forall2_nil_inv_l _ _ Hmem) as Hnil.
      cbn [rbind] in Hrun. injection Hrun as <-.
      rewrite (out_write _ _ Hend0), (out_write (opener o) (mark l e) Hend).
      cbn [before mark out].
      rewrite Htext, Hnil. cbn [map join_with]. f_equal.
      rewrite !rev_app_distr, <- !app_assoc. reflexivity.
    - destruct (encode_each (do_encode fuel h) (m :: ms) (write (opener o) (mark l e)))
        as [e1| |] eqn:Heach; cbn [rbind] in Hrun; [|done|done].
      pose proof (encode_each_text h fuel IH _ _ _ _ Hmem Heach Hend0) as Hout1.
      rewrite (out_write (opener o) (mark l e) Hend) in Hout1. cbn [before mark out] in Hout1.
      assert (map clj_text (value_members w) <> []) as Hne
        by (apply Forall2_cons_inv_l in Hmem as (w0 & ws & _ & _ & ->); discriminate).
      assert (concat (map (fun v => clj_text v ++ py " ") (value_members w))
              = join_with (py " ") (map clj_text (value_members w)) ++ py " ") as Hsep.
      { rewrite <- (concat_with_separator (py " ") _ Hne). by rewrite map_map. }
      rewrite Hsep in Hout1.
      unfold seek_back_out, _seek_back, fd_tell in Hrun. rewrite Hout1 in Hrun.
      rewrite rev_app_distr in Hrun. cbn [before after rev app length Nat.leb drop take] in Hrun.
      cbn [rbind] in Hrun. injection Hrun as <-.
      unfold write, fd_write. cbn [out before after length drop].
      rewrite Htext. apply (f_equal2 mkStringIO).
      + rewrite !rev_app_distr, <- !app_assoc. reflexivity.
      + by destruct o. }
  inversion Hden as [a|text|l elts vs Hl Hm|l elts vs Hl Hm|l elts vs Hl Hm|l items vitems Hl Hm];
    subst.
  - injection Hrun as <-. by apply out_write.
  - injection Hrun as <-. by apply out_write.
  - by apply (Hcoll l (PyList elts) (VList vs)).
  - by apply (Hcoll l (PyTuple elts) (VList vs)).
  - by apply (Hcoll l (PySet elts) (VSet vs)).
  - apply (Hcoll l (PyDict items) (VDict vitems)); [done|done|by apply members_denote|].
    by apply clj_text_collection.
Qed.

(** [X12] What [dumps] returns for an object without cycle or sharing is
    the text of the value it stands for: every scalar as its branch writes
    it, every list, tuple, set and dict as its members separated by exactly
    one space between the markers of its kind, nothing after the last
    member, an empty collection as its two markers; a tuple is written
    as a vector. *)
Theorem dumps_is_the_text_of_the_value (h : gmap ident collection) (d : pyobj)
    (v : value) (fuel : nat) :
  tree_shaped h d -> denotes h d v -> (size h < fuel)%nat ->
  dumps fuel h d = Ok (clj_text v).
Proof.
  intros (ids & Hu & Hnd) Hden Hfuel.
  assert (visited (CljEncoder_init d StringIO_empty) = ∅) as Hinit
    by (unfold visited; simpl; apply dom_empty_L).
  destruct (do_encode_complete h fuel d ids (CljEncoder_init d StringIO_empty) Hu Hnd)
    as (e & He & _).
  { rewrite Hinit. set_solver. }
  { by rewrite Hinit, difference_empty_L, size_dom. }
  unfold dumps, dump. rewrite He. cbn [rbind].
  rewrite (do_encode_text h fuel d v _ e Hden He eq_refl).
  unfold getvalue. cbn [before after CljEncoder_init out StringIO_empty StringIO_of].
  by rewrite !app_nil_r, rev_involutive.
Qed.

(** ** Maps with a repeated key *)







End Properties.

(** * The properties at concrete inputs

    The codec run on explicit texts and objects, in the run-time
    [bare_runtime]. *)

(** [C1] Scalars that do not come back.  The string made of the code
    point U+1F600 is written as two [\u] forms, one for each surrogate, and
    each is resolved on its own: what comes back is a string of two code
    points.  In the run-time [sample_runtime]: the float infinity is written
    [inf] and the decimal NaN is written [NaNM], which are no number tokens,
    and decoding raises; the instant with microseconds is written without
    them and comes back as the instant without. *)
Lemma scalar_round_trip_fails :
  roundtrip 40 (SStr [128512]) = Ok (Atom (SStr [55357; 56832]))
  /\ roundtrip 40 (SStr [128512]) <> Ok (Atom (SStr [128512]))
  /\ roundtrip (R := sample_runtime) 40 (@SFloat sample_runtime Float_inf)
     = Raise (ValueError_UnexpectedChar (py "i") 1 1)
  /\ roundtrip (R := sample_runtime) 40 (@SDecimal sample_runtime Decimal_NaN)
     = Raise (ValueError_UnexpectedChar (py "N") 1 1)
  /\ roundtrip (R := sample_runtime) 60 (@SDatetime sample_runtime Instant_micro)
     = Ok (Atom (@SDatetime sample_runtime Instant)).
Proof.
  split; [vm_compute; reflexivity|].
  split; [intros H; vm_compute in H; discriminate H|].
  repeat split; vm_compute; reflexivity.
Qed.

Lemma scalar_round_trip_witness :
  roundtrip 60 (SStr [34; 97; 92; 10; 233; 98]) = Ok (Atom (SStr [34; 97; 92; 10; 233; 98]))
  /\ roundtrip 20 (SInt (-42)) = Ok (Atom (SInt (-42)))
  /\ roundtrip 20 (SBool false) = Ok (Atom (SBool false))
  /\ roundtrip (R := sample_runtime) 20 (@SFloat sample_runtime Float_1_5) = Ok (Atom (@SFloat sample_runtime Float_1_5))
  /\ roundtrip (R := sample_runtime) 20 (@SDecimal sample_runtime Decimal_1_0)
     = Ok (Atom (@SDecimal sample_runtime Decimal_1_0))
  /\ roundtrip (R := sample_runtime) 60 (@SDatetime sample_runtime Instant) = Ok (Atom (@SDatetime sample_runtime Instant))
  /\ roundtrip 60 (SUUID 24197857161011715162171839636988778104)
     = Ok (Atom (SUUID 24197857161011715162171839636988778104)).
Proof.
  split; [|split; [|split; [|split; [|split; [|split]]]]].
  - apply (scalar_round_trip (SStr [34; 97; 92; 10; 233; 98]) 60).
    + split; [repeat (constructor; [reflexivity|]); constructor|discriminate].
    + vm_compute. lia.
  - apply (scalar_round_trip (SInt (-42)) 20).
    + apply N.leb_le. vm_compute. reflexivity.
    + vm_compute. lia.
  - apply (scalar_round_trip (SBool false) 20); [exact I|vm_compute; lia].
  - apply (scalar_round_trip (R := sample_runtime) (@SFloat sample_runtime Float_1_5) 20).
    + repeat split; reflexivity.
    + vm_compute. lia.
  - apply (scalar_round_trip (R := sample_runtime) (@SDecimal sample_runtime Decimal_1_0) 20).
    + repeat split; reflexivity.
    + vm_compute. lia.
  - apply (scalar_round_trip (R := sample_runtime) (@SDatetime sample_runtime Instant) 60).
    + repeat split; reflexivity.
    + vm_compute. lia.
  - apply (scalar_round_trip (SUUID 24197857161011715162171839636988778104) 60).
    + apply N.ltb_lt. vm_compute. reflexivity.
    + vm_compute. lia.
Defined.

(** The identifier of the example above is written with its digits in five
    groups, and read back from them. *)
Lemma str_of_UUID_example :
  str_of_UUID 24197857161011715162171839636988778104
  = py "12345678-1234-5678-1234-567812345678"
  /\ UUID_of_str (py "12345678-1234-5678-1234-567812345678")
     = Some 24197857161011715162171839636988778104
  /\ UUID_of_str (py "12345678-1234-5678-1234-56781234567") = None.
Proof. repeat split; vm_compute; reflexivity. Qed.



(** [C3] The error raised on the unterminated [[1 2] carries no line and no
    column. *)
Lemma unexpected_eof_has_no_position :
  loads 50 (py "[1 2") = Raise ValueError_UnexpectedEOF
  /\ exn_position ValueError_UnexpectedEOF = None.
Proof. split; [vm_compute; reflexivity|reflexivity]. Qed.

Lemma position_of_decode_errors_witness :
  read_token 5 (CljDecoder_init (StringIO_of (py " "))) = Raise ValueError_UnexpectedEOF
  /\ exists e, read_token 5 (CljDecoder_init (StringIO_of (py " truX"))) = Raise e
       /\ exn_position e = Some (1%nat, 5%nat).
Proof.
  split.
  - apply (proj1 (position_of_decode_errors 5 (CljDecoder_init (StringIO_of (py " ")))
                    (py " ") eq_refl ltac:(simpl; lia))).
    reflexivity.
  - destruct (proj1 (proj2 (position_of_decode_errors 5
                              (CljDecoder_init (StringIO_of (py " truX")))
                              (py " ") eq_refl ltac:(simpl; lia)))
                (py "ruX") eq_refl ltac:(discriminate))
      as (e & He & _ & Hpos).
    exists e. split; [exact He|exact Hpos].
Defined.

Lemma circular_reference_exactly_on_repeat_witness :
  tree_shaped (<[1%positive := PyList [Ref 2%positive; Ref 3%positive]]>
                 (<[2%positive := PyList [Imm (SInt 1)]]>
                    {[3%positive := PyList [Imm (SInt 1)]]})) (Ref 1%positive)
  /\ ~ tree_shaped (<[1%positive := PyList [Ref 2%positive; Ref 2%positive]]>
                      {[2%positive := PyList [Imm (SInt 1)]]}) (Ref 1%positive)
  /\ ~ tree_shaped {[1%positive := PyList [Imm (SInt 5); Ref 1%positive]]} (Ref 1%positive).
Proof.
  split; [|split].
  - refine (proj1 (proj1 (proj2 (circular_reference_exactly_on_repeat
                            (<[1%positive := PyList [Ref 2%positive; Ref 3%positive]]>
                               (<[2%positive := PyList [Imm (SInt 1)]]>
                                  {[3%positive := PyList [Imm (SInt 1)]]}))
                            (Ref 1%positive) 5 (closedb_sound _ _) _ _))) _);
      [vm_compute; reflexivity|eexists; vm_compute; reflexivity|vm_compute; lia|].
    eexists. vm_compute. reflexivity.
  - refine (proj1 (proj1 (circular_reference_exactly_on_repeat
                     (<[1%positive := PyList [Ref 2%positive; Ref 2%positive]]>
                        {[2%positive := PyList [Imm (SInt 1)]]})
                     (Ref 1%positive) 5 (closedb_sound _ _) _ _)) _);
      [vm_compute; reflexivity|eexists; vm_compute; reflexivity|vm_compute; lia|].
    vm_compute. reflexivity.
  - refine (proj1 (proj1 (circular_reference_exactly_on_repeat
                     {[1%positive := PyList [Imm (SInt 5); Ref 1%positive]]}
                     (Ref 1%positive) 5 (closedb_sound _ _) _ _)) _);
      [vm_compute; reflexivity|eexists; vm_compute; reflexivity|vm_compute; lia|].
    vm_compute. reflexivity.
Defined.



Lemma set_literal_degrades_to_sequence_witness :
  exists w d',
    close_and_append (Atom (SInt 2)) (py "}") true
      {| fd := StringIO_of []; cur_line := 1; cur_pos := 1;
         value_stack := [mkFrame [VList [Atom (SInt 1)]] (Some (py "}")) (Some T_set) None];
         terminator := Some (py "}") |}
    = Ok (w, d')
    /\ w = VTuple [VList [Atom (SInt 1)]; Atom (SInt 2)].
Proof.
  destruct (proj1 (set_literal_degrades_to_sequence
                     {| fd := StringIO_of []; cur_line := 1; cur_pos := 1;
                        value_stack := [mkFrame [VList [Atom (SInt 1)]] (Some (py "}"))
                                                (Some T_set) None];
                        terminator := Some (py "}") |}
                     _ [] (Atom (SInt 2)) (py "}") true eq_refl eq_refl eq_refl))
    as (w & d' & Hrun & Htuple & _).
  exists w, d'. split; [exact Hrun|]. apply Htuple. reflexivity.
Defined.

(** A member written as a set and used as the key of a namespaced map is
    formatted in the order in which the set iterates, not in the order in
    which it was written. *)
Lemma namespaced_key_of_a_set :
  loads 50 (py "#:ns{#{3 1 2} 1}")
  = Ok (VDict [(Atom (SStr (py "ns/{1, 2, 3}")), Atom (SInt 1))])
  /\ loads 80 (py "#:ns{#{1 2} 1 #{2 1} 2}")
     = Ok (VDict [(Atom (SStr (py "ns/{1, 2}")), Atom (SInt 2))]).
Proof. split; vm_compute; reflexivity. Qed.

(** [C8] The character literal made of a backslash and [ab] is decoded to
    a string of two code points. *)
Lemma char_literal_of_two_code_points :
  loads 50 (py "\ab") = Ok (Atom (SStr (py "ab"))) /\ length (py "ab") = 2%nat.
Proof. split; [vm_compute; reflexivity|reflexivity]. Qed.

Lemma char_literal_is_the_token_text_witness :
  exists d',
    read_token 10
      {| fd := {| before := py "["; after := py "\ab] 1" |}; cur_line := 1; cur_pos := 1;
         value_stack := [mkFrame [] (Some (py "]")) (Some T_list) None];
         terminator := Some (py "]") |}
    = Ok (VList [Atom (SStr (py "ab"))], d')
    /\ after (fd d') = py " 1" /\ value_stack d' = [].
Proof.
  pose proof (char_literal_is_the_token_text 10
                {| fd := {| before := py "["; after := py "\ab] 1" |};
                   cur_line := 1; cur_pos := 1;
                   value_stack := [mkFrame [] (Some (py "]")) (Some T_list) None];
                   terminator := Some (py "]") |}
                [] (py "ab") (py "] 1") eq_refl eq_refl ltac:(discriminate)
                eq_refl eq_refl ltac:(simpl; lia)) as H.
  cbv zeta in H. destruct H as (_ & _ & _ & _ & Hclose & _).
  eexists. split; [|split].
  - apply (Hclose (mkFrame [] (Some (py "]")) (Some T_list) None) []); reflexivity.
  - reflexivity.
  - reflexivity.
Defined.

(** [C9] On a backslash-u followed by four letters that are no hexadecimal
    digits the Escape Resolver raises. *)
Lemma escape_resolver_raises :
  _decode_escapes (py "\uzzzz") = Raise (UnicodeDecodeError (py "\uzzzz")).
Proof. vm_compute. reflexivity. Qed.

Lemma escapes_verbatim_unless_matched_witness :
  _decode_escapes (py "a\q") = Ok (py "a\q")
  /\ _decode_escapes (py "\u00e9!") = Ok [233; 33]
  /\ _decode_escapes (py "\t!") = Ok [9; 33]
  /\ _decode_escapes (py "\101!") = Ok [65; 33]
  /\ _decode_escapes (py "\uzzzz!") = Raise (UnicodeDecodeError (py "\uzzzz"))
  /\ _decode_escapes (py "\x" ++ [55296; 48]) = Raise (UnicodeEncodeError (py "\x" ++ [55296; 48])).
Proof.
  destruct escapes_verbatim_unless_matched
    as (Hverbatim & _ & _ & Hsingle & Hhex & Hoctal & _ & Hrefused & _).
  split; [|split; [|split; [|split; [|split]]]].
  - apply (Hverbatim (py "a\q")).
    intros k. do 4 (destruct k as [|k]; [reflexivity|]). reflexivity.
  - apply (Hhex 117 (py "00e9") (py "!")); [right; left; done|reflexivity|discriminate].
  - apply (Hsingle 116 9 (py "!")). reflexivity.
  - apply (Hoctal (py "101") (py "!")); [simpl; lia|reflexivity|by left].
  - apply (Hrefused 117 (py "zzzz") (py "!")); [right; left; done|reflexivity|reflexivity].
  - apply (Hrefused 120 [55296; 48] []); [left; done|reflexivity|reflexivity].
Defined.

(** [C10] The map [{[1] 2 :b}] has an odd number of members, and decoding
    it raises the [TypeError] of its first key, which cannot be hashed. *)
Lemma odd_map_with_unhashable_key :
  loads 50 (py "{[1] 2 :b}") = Raise TypeError_unhashable
  /\ loads 50 (py "{[1] 2 :b}") <> Raise IndexError.
Proof.
  split; [vm_compute; reflexivity|].
  intros H. vm_compute in H. discriminate H.
Qed.

Lemma odd_map_raises_without_position_witness :
  Nat.Odd 3
  /\ close_and_append (Atom (SStr (py "b"))) (py "}") true
       {| fd := StringIO_of []; cur_line := 1; cur_pos := 1;
          value_stack := [mkFrame [Atom (SStr (py "a")); VList [Atom (SInt 1)]] (Some (py "}"))
                                  (Some T_dict) None];
          terminator := Some (py "}") |}
     = Raise IndexError.
Proof.
  assert (Nat.Odd 3) as Hodd by (exists 1%nat; reflexivity).
  split; [exact Hodd|].
  apply (proj1 (odd_map_raises_without_position
                  {| fd := StringIO_of []; cur_line := 1; cur_pos := 1;
                     value_stack := [mkFrame [Atom (SStr (py "a")); VList [Atom (SInt 1)]]
                                             (Some (py "}")) (Some T_dict) None];
                     terminator := Some (py "}") |}
                  _ [] (Atom (SStr (py "b"))) (py "}") true
                  eq_refl (or_introl eq_refl) eq_refl Hodd)).
Defined.

(** ** Further properties at concrete inputs *)

Lemma escapes_undo_the_written_body_witness :
  exists body,
    py_encode_basestring_ascii [97; 92; 34; 233; 92] = [DQUOTE] ++ body ++ [DQUOTE]
    /\ _decode_escapes body = Ok [97; 92; 34; 233; 92].
Proof.
  apply (escapes_undo_the_written_body [97; 92; 34; 233; 92]).
  repeat (constructor; [reflexivity|]). constructor.
Defined.

Lemma string_comes_back_as_utf16_witness :
  roundtrip 40 (SStr [97; 128512]) = Ok (Atom (SStr [97; 55357; 56832])).
Proof.
  refine (proj1 (string_comes_back_as_utf16 [97; 128512] 40 _ _));
    [discriminate|vm_compute; lia].
Defined.

Lemma keyword_is_its_name_witness :
  loads 20 (58 :: py "name" ++ py " 1") = Ok (Atom (SStr (py "name"))).
Proof.
  refine (proj1 (keyword_is_its_name (py "name") (py " 1") 20 _ _ _));
    [reflexivity|reflexivity|simpl; lia].
Defined.

Lemma unterminated_string_never_returns_witness :
  loads 1000 (DQUOTE :: py "abc") = OutOfFuel.
Proof. apply (unterminated_string_never_returns (py "abc") 1000). reflexivity. Defined.

Lemma read_and_back_restores_only_when_enough_witness :
  read_and_back 4 (CljDecoder_init {| before := py "#"; after := py "inst " |})
  = Ok (py "inst", CljDecoder_init {| before := py "#"; after := py "inst " |})
  /\ read_and_back 4 (CljDecoder_init {| before := py "#"; after := py "a" |})
     = Raise ValueError_seek.
Proof.
  split.
  - apply (proj1 (read_and_back_restores_only_when_enough 4
                    (CljDecoder_init {| before := py "#"; after := py "inst " |}))).
    simpl. lia.
  - apply (proj2 (proj2 (read_and_back_restores_only_when_enough 4
                           (CljDecoder_init {| before := py "#"; after := py "a" |})))).
    simpl. lia.
Defined.

Lemma namespace_without_brace_never_returns_witness :
  loads 1000 (35 :: 58 :: py "ns [1 2]") = OutOfFuel.
Proof. apply (namespace_without_brace_never_returns (py "ns [1 2]") 1000). reflexivity. Defined.

Lemma stray_number_sign_witness :
  loads 5 (35 :: py "ab") = Raise ValueError_seek.
Proof.
  apply (stray_number_sign (py "ab") 5); [discriminate|discriminate|discriminate|discriminate|lia].
Defined.

Lemma unexpected_char_position_witness :
  loads 9 ([10; 10; 32; 32] ++ 63 :: py "x") = Raise (ValueError_UnexpectedChar [63] 3 0).
Proof.
  refine (proj2 (unexpected_char_position 9
                   (CljDecoder_init (StringIO_of ([10; 10; 32; 32] ++ 63 :: py "x")))
                   [10; 10; 32; 32] 63 (py "x") _ _ _ _));
    [reflexivity|reflexivity|reflexivity|simpl; lia].
Defined.

Lemma encoder_object_serves_once_witness :
  encode 5 {[1%positive := PyList [Imm (SInt 1)]]}
    (write (py "[1]")
       {| data := Ref 1%positive; out := StringIO_empty; circular := {[1%positive := true]} |})
  = Raise ValueError_Circular.
Proof.
  apply (encoder_object_serves_once {[1%positive := PyList [Imm (SInt 1)]]} 5
           (CljEncoder_init (Ref 1%positive) StringIO_empty) _ 1%positive eq_refl).
  vm_compute. reflexivity.
Defined.


Lemma dumps_is_the_text_of_the_value_witness :
  dumps 5 (<[1%positive := PyList [Imm (SInt 1); Ref 2%positive; Imm (SStr (py "a"))]]>
             (<[2%positive := PyDict [(Imm (SStr (py "k")), Ref 3%positive)]]>
                {[3%positive := PyTuple []]})) (Ref 1%positive)
  = Ok ([91; 49; 32; 123; 34; 107; 34; 32; 91; 93; 125; 32; 34; 97; 34; 93]).
Proof.
  assert (exists e, do_encode 5
            (<[1%positive := PyList [Imm (SInt 1); Ref 2%positive; Imm (SStr (py "a"))]]>
               (<[2%positive := PyDict [(Imm (SStr (py "k")), Ref 3%positive)]]>
                  {[3%positive := PyTuple []]})) (Ref 1%positive)
            (CljEncoder_init (Ref 1%positive) StringIO_empty) = Ok e) as (e & Hrun)
    by (eexists; vm_compute; reflexivity).
  apply (dumps_is_the_text_of_the_value _ _
           (VList [Atom (SInt 1);
                   VDict [(Atom (SStr (py "k")), VList [])];
                   Atom (SStr (py "a"))]) 5).
  - destruct (do_encode_sound _ _ _ _ _ Hrun) as (ids & Hu & Hnd & _). by exists ids.
  - apply (denotes_list _ 1%positive
             [Imm (SInt 1); Ref 2%positive; Imm (SStr (py "a"))]); [reflexivity|].
    constructor; [apply denotes_imm|].
    constructor; [|constructor; [apply denotes_imm|constructor]].
    apply (denotes_dict _ 2%positive [(Imm (SStr (py "k")), Ref 3%positive)]);
      [reflexivity|].
    constructor; [|constructor].
    split; [apply denotes_imm|].
    apply (denotes_tuple _ 3%positive []); [reflexivity|constructor].
  - vm_compute. lia.
Defined.

Lemma number_of_int_text_witness :
  number (str_of_Z (-4200)) = Ok (Atom (SInt (-4200))).
Proof.
  apply (proj1 (number_of_int_text (-4200))).
  apply N.leb_le. vm_compute. reflexivity.
Defined.
